(** * Transformer_from_scratch: a shallow embedding of the notebooks

    The notebooks implement an encoder-decoder transformer in PyTorch.  This
    development embeds the parts of the code that the specification talks
    about: the dataset assembly ([BilingualDataset]), the masks
    ([causal_mask]), the numeric layers ([InputEmbeddings],
    [PositionalEncoding], [LayerNormalization], the static method
    [MultiHeadAttentionBlock.attention], [ProjectionLayer]), the composition
    ([Transformer], [Decoder], [DecoderBlock]), the inference loop
    ([greeedy_decode]) and the batch step of [train_model].

    Conventions.
    - A tensor is a nested list, outermost axis first.
    - Integer tensors (token ids, masks) hold [Z]; boolean tensors hold [bool].
    - Floating-point tensors hold real numbers [R]: rounding is abstracted,
      every arithmetic operation is its exact real counterpart.
    - A Python exception is a value of [Exception]; fallible code returns
      [Result A], whose [inl] carries the exception raised. *)

From Stdlib Require Import String.
From Stdlib Require Import ZArith List Bool Arith Lia.
From Stdlib Require Import Reals Lra.
Import ListNotations.

Set Implicit Arguments.

(** ** Exceptions and results *)

Inductive Exception : Type :=
| ValueError (msg : string)
| AssertionError
| IndexError
| RuntimeError (msg : string)
| ZeroDivisionError.

Definition Result (A : Type) : Type := (Exception + A)%type.

Definition raise {A : Type} (e : Exception) : Result A := inl e.
Definition ret {A : Type} (a : A) : Result A := inr a.

Definition bind {A B : Type} (m : Result A) (k : A -> Result B) : Result B :=
  match m with
  | inl e => inl e
  | inr a => k a
  end.

Declare Scope result_scope.
Delimit Scope result_scope with result.
Notation "x <- m ;; k" := (bind m (fun x => k))
  (at level 61, m at next level, right associativity) : result_scope.
Notation "'assert!' b ;; k" := (if b then k else raise AssertionError)
  (at level 61, b at next level, right associativity) : result_scope.

(** [mapM f xs] runs [f] on the elements from left to right and stops at the
    first exception, as a Python comprehension or a tensor kernel does. *)
Fixpoint mapM {A B : Type} (f : A -> Result B) (xs : list A) : Result (list B) :=
  match xs with
  | [] => ret []
  | x :: xs' =>
      bind (f x) (fun y => bind (mapM f xs') (fun ys => ret (y :: ys)))
  end.

(** ** Indexed maps over list tensors *)

(** [mapi f xs] is [[f 0 x0; f 1 x1; ...]]. *)
Fixpoint mapi_from {A B : Type} (f : nat -> A -> B) (i : nat) (xs : list A) : list B :=
  match xs with
  | [] => []
  | x :: xs' => f i x :: mapi_from f (S i) xs'
  end.

Definition mapi {A B : Type} (f : nat -> A -> B) (xs : list A) : list B :=
  mapi_from f 0 xs.

Fixpoint zip_with {A B C : Type} (f : A -> B -> C) (xs : list A) (ys : list B) : list C :=
  match xs, ys with
  | x :: xs', y :: ys' => f x y :: zip_with f xs' ys'
  | _, _ => []
  end.

(** ** Masks *)

(** [torch.ones(1, size, size)], already seen through [.type(torch.int)]
    (the float 1.0 converts to the integer 1 exactly). *)
Definition ones (rows cols : nat) : list (list Z) :=
  repeat (repeat 1%Z cols) rows.

(** [torch.triu(m, diagonal)]: entry (i, j) is kept when [j - i >= diagonal]
    and zeroed otherwise. *)
Definition triu (m : list (list Z)) (diagonal : Z) : list (list Z) :=
  mapi (fun i row =>
          mapi (fun j x =>
                  if (diagonal <=? Z.of_nat j - Z.of_nat i)%Z then x else 0%Z)
               row)
       m.

(** [causal_mask(size)]:
    [mask = torch.triu(torch.ones(1,size,size), diagonal=1).type(torch.int)]
    then [mask == 0].  The result has shape (1, size, size). *)
Definition causal_mask (size : nat) : list (list (list bool)) :=
  let mask := [triu (ones size size) 1] in
  map (map (map (fun x => (x =? 0)%Z))) mask.

(** ** BilingualDataset *)

Module BilingualDataset.

(** The object built by [__init__].  [ds] holds the pairs
    (source text, target text) that [ds[index]['translation']] gives;
    the tokenizers are the [encode(...).ids] functions of the two
    tokenizers; the three special tokens are the ids the source tokenizer
    assigns to [[SOS]], [[EOS]] and [[PAD]]. *)
Record t : Type := mk {
  ds : list (string * string);
  seq_len : Z;
  tokenizer_src : string -> list Z;
  tokenizer_tgt : string -> list Z;
  sos_token : Z;
  eos_token : Z;
  pad_token : Z
}.

(** The dictionary returned by [__getitem__]. *)
Record sample : Type := mk_sample {
  encoder_input : list Z;                 (* (seq_len) *)
  decoder_input : list Z;                 (* (seq_len) *)
  encoder_mask : list (list Z);           (* (1, seq_len) *)
  decoder_mask : list (list (list Z));    (* (1, seq_len, seq_len) *)
  label : list Z;                         (* (seq_len) *)
  src_text : string;
  tgt_text : string
}.

Definition __len__ (self : t) : nat := length (ds self).

(** [self.seq_len - len(enc_input_tokens) - 2] *)
Definition enc_num_padding_tokens (self : t) (enc_input_tokens : list Z) : Z :=
  seq_len self - Z.of_nat (length enc_input_tokens) - 2.

(** [self.seq_len - len(dec_input_tokens) - 1] *)
Definition dec_num_padding_tokens (self : t) (dec_input_tokens : list Z) : Z :=
  seq_len self - Z.of_nat (length dec_input_tokens) - 1.

(** [(x != self.pad_token).unsqueeze(0).int()] *)
Definition padding_mask (self : t) (x : list Z) : list (list Z) :=
  [map (fun tok => Z.b2z (negb (tok =? pad_token self)%Z)) x].

(** [a & b] for an int tensor [a] of shape (1, n) and a bool tensor [b] of
    shape (1, n, n): [a] is broadcast along the rows of each plane of [b],
    and the result is an int tensor of the shape of [b]. *)
Definition and_broadcast (a : list (list Z)) (b : list (list (list bool)))
  : list (list (list Z)) :=
  map (map (fun row => zip_with (fun x c => Z.land x (Z.b2z c)) (hd [] a) row)) b.

Definition too_long : Exception := ValueError "Sentence is too long".

Local Open Scope result_scope.

Definition __getitem__ (self : t) (index : nat) : Result sample :=
  match nth_error (ds self) index with
  | None => raise IndexError
  | Some (src_text, tgt_text) =>
      let enc_input_tokens := tokenizer_src self src_text in
      let dec_input_tokens := tokenizer_tgt self tgt_text in
      let enc_pad := enc_num_padding_tokens self enc_input_tokens in
      let dec_pad := dec_num_padding_tokens self dec_input_tokens in
      if (enc_pad <? 0)%Z || (dec_pad <? 0)%Z then raise too_long
      else
        let encoder_input :=
          [sos_token self] ++ enc_input_tokens ++ [eos_token self]
            ++ repeat (pad_token self) (Z.to_nat enc_pad) in
        let decoder_input :=
          [sos_token self] ++ dec_input_tokens
            ++ repeat (pad_token self) (Z.to_nat dec_pad) in
        let label :=
          dec_input_tokens ++ [eos_token self]
            ++ repeat (pad_token self) (Z.to_nat dec_pad) in
        assert! (Z.of_nat (length encoder_input) =? seq_len self)%Z ;;
        assert! (Z.of_nat (length decoder_input) =? seq_len self)%Z ;;
        assert! (Z.of_nat (length label) =? seq_len self)%Z ;;
        ret {| encoder_input := encoder_input;
               decoder_input := decoder_input;
               encoder_mask := padding_mask self encoder_input;
               decoder_mask :=
                 and_broadcast (padding_mask self decoder_input)
                               (causal_mask (length decoder_input));
               label := label;
               src_text := src_text;
               tgt_text := tgt_text |}
  end.

End BilingualDataset.

(** ** Real tensors *)

Abbreviation tensor1 := (list R) (only parsing).
Abbreviation tensor2 := (list (list R)) (only parsing).
Abbreviation tensor3 := (list (list (list R))) (only parsing).
Abbreviation tensor4 := (list (list (list (list R)))) (only parsing).

Definition shape_error {A : Type} : Result A :=
  raise (RuntimeError "shape mismatch").

(** [bzip f a b] combines two tensors along their outermost axis with
    PyTorch's broadcasting rule for that axis: the sizes agree, or one of
    them is 1 and its only element is used throughout; any other pair of
    sizes raises.  Nesting [bzip] handles one axis per level. *)
Definition bzip {A B C : Type} (f : A -> B -> Result C)
           (a : list A) (b : list B) : Result (list C) :=
  if (length a =? length b)%nat
  then mapM (fun p => f (fst p) (snd p)) (combine a b)
  else match a, b with
       | [x], _ => mapM (fun y => f x y) b
       | _, [y] => mapM (fun x => f x y) a
       | _, _ => shape_error
       end.

Definition map4 {A B : Type} (f : A -> B)
  : list (list (list (list A))) -> list (list (list (list B))) :=
  map (map (map (map f))).

(** Size of the last axis of a rank-4 tensor ([x.shape[-1]]), read off
    the first row. *)
Definition last_dim {A : Type} (x : list (list (list (list A)))) : nat :=
  length (hd [] (hd [] (hd [] x))).

Definition ncols {A : Type} (m : list (list A)) : nat := length (hd [] m).

Definition sum (xs : list R) : R := fold_right Rplus 0%R xs.

Definition dot (xs ys : list R) : R := sum (zip_with Rmult xs ys).

(** [m.transpose(-2, -1)] on one matrix.  A matrix with no row carries no
    column count in this representation, so its transpose is the empty
    matrix. *)
Definition transpose (m : tensor2) : tensor2 :=
  map (fun c => map (fun row => nth c row 0%R) m) (seq 0 (ncols m)).

(** [a @ b] on two matrices: the rows of [a] must be as long as [b] has
    rows. *)
Definition matmul (a b : tensor2) : Result tensor2 :=
  if forallb (fun row => (length row =? length b)%nat) a
  then ret (map (fun row => map (dot row) (transpose b)) a)
  else shape_error.

(** [a @ b] on rank-4 tensors: the two leading (batch) axes broadcast, the
    last two are multiplied as matrices. *)
Definition matmul4 (a b : tensor4) : Result tensor4 :=
  bzip (bzip matmul) a b.

(** [x.softmax(dim=-1)] on one row: [exp(x_i) / sum_j exp(x_j)]. *)
Definition softmax (xs : tensor1) : tensor1 :=
  let s := sum (map exp xs) in
  map (fun x => (exp x / s)%R) xs.

(** [torch.log_softmax(x, dim=-1)] on one row: the logarithm of the
    softmax. *)
Definition log_softmax (xs : tensor1) : tensor1 :=
  map ln (softmax xs).

(** [x.masked_fill(mask, value)]: a NEW tensor, equal to [x] except where
    the (broadcast) boolean mask is true, where it holds [value].  The
    receiver [x] is left as it is. *)
Definition masked_fill (x : tensor4) (mask : list (list (list (list bool))))
           (value : R) : Result tensor4 :=
  bzip (bzip (bzip (bzip (fun s (m : bool) => ret (if m then value else s)))))
       x mask.

(** ** InputEmbeddings *)

Module InputEmbeddings.

(** [embedding] is the weight of [nn.Embedding(vocab_size, d_model)], one
    row per token id. *)
Record t : Type := mk {
  d_model : nat;
  vocab_size : nat;
  embedding : tensor2
}.

(** What the constructor guarantees about the weight's shape. *)
Definition wf (self : t) : Prop :=
  length (embedding self) = vocab_size self /\
  Forall (fun row => length row = d_model self) (embedding self).

(** [self.embedding(x)] for one id: ids outside [0, vocab_size) raise. *)
Definition lookup (self : t) (id : Z) : Result tensor1 :=
  if (id <? 0)%Z then raise IndexError
  else match nth_error (embedding self) (Z.to_nat id) with
       | Some row => ret row
       | None => raise IndexError
       end.

(** [self.embedding(x) * math.sqrt(self.d_model)] for [x] of shape
    (batch, seq_len). *)
Definition forward (self : t) (x : list (list Z)) : Result tensor3 :=
  bind (mapM (mapM (lookup self)) x) (fun e =>
  ret (map (map (map (fun w => (w * sqrt (INR (d_model self)))%R))) e)).

End InputEmbeddings.

(** ** PositionalEncoding *)

Module PositionalEncoding.

Record t : Type := mk {
  d_model : nat;
  seq_len : nat;
  dropout : tensor3 -> tensor3;
  pe : tensor3                       (* (1, seq_len, d_model) *)
}.

(** [torch.arange(0, n, 2)] *)
Definition arange2 (n : nat) : list nat :=
  map (fun k => (2 * k)%nat) (seq 0 ((n + 1) / 2)).

(** [torch.arange(0, seq_len, dtype=torch.float).unsqueeze(1)], kept as the
    list of its rows' single entries. *)
Definition position (seq_len : nat) : list R :=
  map INR (seq 0 seq_len).

(** [-math.log(10000.0) / d_model]: the division of a float by the int 0
    raises [ZeroDivisionError]. *)
Definition log_step (d_model : nat) : Result R :=
  if (d_model =? 0)%nat then raise ZeroDivisionError
  else ret (- ln 10000 / INR d_model)%R.

(** [torch.exp(torch.arange(0, d_model, 2).float() * step)], for [step]
    the value of [-math.log(10000.0) / d_model] *)
Definition div_term (d_model : nat) (step : R) : list R :=
  map (fun a => exp (INR a * step)%R) (arange2 d_model).

(** [position * div_term]: (seq_len, 1) times (c) gives (seq_len, c). *)
Definition angles (div_term : list R) (seq_len : nat) : tensor2 :=
  map (fun p => map (fun d => (p * d)%R) div_term) (position seq_len).

(** [pe[:, start::2] = src] for [pe] with [cols] columns and [src] with
    [src_cols] columns and as many rows as [pe].  The slice has
    [(cols - start + 1) / 2] columns; [src] must have as many, or one
    (which is then broadcast); otherwise the assignment raises. *)
Definition setitem_cols (start : nat) (pe : tensor2) (cols : nat)
           (src : tensor2) (src_cols : nat) : Result tensor2 :=
  let slice_cols := ((cols - start + 1) / 2)%nat in
  if (src_cols =? slice_cols)%nat || (src_cols =? 1)%nat then
    ret (zip_with
           (fun row srow =>
              mapi (fun j old =>
                      if (start <=? j)%nat && Nat.even (j - start)
                      then nth (if (src_cols =? 1)%nat then 0%nat
                                else ((j - start) / 2)%nat) srow old
                      else old)
                   row)
           pe src)
  else shape_error.

Definition zeros (rows cols : nat) : tensor2 := repeat (repeat 0%R cols) rows.

(** [__init__(d_model, seq_len, dropout)].  The statements run in the
    order of the source: the zero matrix, [position], [div_term] (whose
    division raises for [d_model = 0]), then the two slice assignments. *)
Definition __init__ (d_model seq_len : nat) (dropout : tensor3 -> tensor3)
  : Result t :=
  let pe := zeros seq_len d_model in
  bind (log_step d_model) (fun step =>
  let a := angles (div_term d_model step) seq_len in
  let c := length (div_term d_model step) in
  bind (setitem_cols 0 pe d_model (map (map sin) a) c) (fun pe =>
  bind (setitem_cols 1 pe d_model (map (map cos) a) c) (fun pe =>
  ret {| d_model := d_model; seq_len := seq_len; dropout := dropout;
         pe := [pe] |}))).

(** [x + self.pe[:, :x.shape[1], :]], then dropout; [x] has shape
    (batch, L, d_model).  The buffer [pe] is only read. *)
Definition forward (self : t) (x : tensor3) : Result tensor3 :=
  let L := ncols x in
  bind (bzip (bzip (bzip (fun a b => ret (a + b)%R))) x
             (map (firstn L) (pe self)))
       (fun x => ret (dropout self x)).

End PositionalEncoding.

(** ** LayerNormalization *)

Module LayerNormalization.

(** [alpha] and [bias] are the one-element parameters
    [nn.Parameter(torch.ones(1))] ("Multiplied") and
    [nn.Parameter(torch.zeros(1))] ("Added"). *)
Record t : Type := mk {
  eps : R;
  alpha : R;
  bias : R
}.

(** [LayerNormalization()]: [eps = 10**-6], [alpha = 1], [bias = 0]. *)
Definition __init__ : t :=
  {| eps := (/ 10 ^ 6)%R; alpha := 1%R; bias := 0%R |}.

(** [x.mean(dim=-1, keepdim=True)] on one row *)
Definition mean (xs : tensor1) : R := (sum xs / INR (length xs))%R.

(** [x.std(dim=-1, keepdim=True)] on one row: the square root of the
    unbiased variance (divisor [n - 1]).  The reals stand for the floats:
    rounding is not modelled, and the [0 / 0] of a one-feature row, [nan]
    in the source, is 0 here. *)
Definition std (xs : tensor1) : R :=
  let m := mean xs in
  sqrt (sum (map (fun x => (x - m) * (x - m))%R xs)
        / (INR (length xs) - 1))%R.

(** [(x - mean) / (std + self.eps)] on one row *)
Definition normalized (self : t) (xs : tensor1) : tensor1 :=
  let m := mean xs in
  let s := std xs in
  map (fun x => ((x - m) / (s + eps self))%R) xs.

(** The body of [forward] on one row of the last axis:
    [self.alpha + (x - mean) / (std + self.eps) + self.bias]. *)
Definition forward_row (self : t) (xs : tensor1) : tensor1 :=
  let mean := mean xs in
  let std := std xs in
  map (fun x => (alpha self + (x - mean) / (std + eps self) + bias self)%R) xs.

(** [forward] on a tensor of shape (batch, seq_len, d_model). *)
Definition forward (self : t) (x : tensor3) : tensor3 :=
  map (map (forward_row self)) x.

(** The transform the specification describes, for comparison:
    [alpha * normalized + bias]. *)
Definition spec_forward_row (self : t) (xs : tensor1) : tensor1 :=
  map (fun n => (alpha self * n + bias self)%R) (normalized self xs).

Definition spec_forward (self : t) (x : tensor3) : tensor3 :=
  map (map (spec_forward_row self)) x.

End LayerNormalization.

(** ** MultiHeadAttentionBlock.attention *)

Module MultiHeadAttentionBlock.

(** The static method [attention(query, key, value, mask, dropout)].
    [query], [key] and [value] have shape (Batch, h, seq_len, d_k); the
    mask is an integer tensor seen at rank 4 (a mask of lower rank is
    aligned to the last axes, as broadcasting does); [None] for the mask
    or the dropout is [None] here.  The method returns the pair of the
    attended values and the post-softmax scores.

    The line [attention_scores.masked_fill(mask == 0, -1e9)] builds a
    filled copy and drops it: only its possible shape error reaches the
    rest of the method. *)
Definition attention (query key value : tensor4)
           (mask : option (list (list (list (list Z)))))
           (dropout : option (tensor4 -> tensor4))
  : Result (tensor4 * tensor4) :=
  let d_k := last_dim query in
  bind (matmul4 query (map (map transpose) key)) (fun qk =>
  let attention_scores := map4 (fun s => (s / sqrt (INR d_k))%R) qk in
  bind (match mask with
        | Some mask =>
            bind (masked_fill attention_scores
                              (map4 (fun m => (m =? 0)%Z) mask)
                              (- 10 ^ 9)%R)
                 (fun _ => ret tt)
        | None => ret tt
        end) (fun _ =>
  let attention_scores := map (map (map softmax)) attention_scores in
  let attention_scores :=
    match dropout with
    | Some dropout => dropout attention_scores
    | None => attention_scores
    end in
  bind (matmul4 attention_scores value) (fun out =>
  ret (out, attention_scores)))).

End MultiHeadAttentionBlock.

(** ** ProjectionLayer *)

Module Linear.

(** [nn.Linear(in_features, out_features)]: [weight] has one row per
    output feature. *)
Record t : Type := mk {
  in_features : nat;
  out_features : nat;
  weight : tensor2;
  bias : tensor1
}.

Definition wf (self : t) : Prop :=
  length (weight self) = out_features self /\
  Forall (fun row => length row = in_features self) (weight self) /\
  length (bias self) = out_features self.

(** [x @ weight.T + bias] on one vector of the last axis. *)
Definition forward_row (self : t) (x : tensor1) : Result tensor1 :=
  if (length x =? in_features self)%nat
  then ret (zip_with (fun w b => (dot x w + b)%R) (weight self) (bias self))
  else shape_error.

(** [forward] on a tensor of shape (batch, seq_len, in_features). *)
Definition forward (self : t) (x : tensor3) : Result tensor3 :=
  mapM (mapM (forward_row self)) x.

End Linear.

Module ProjectionLayer.

Record t : Type := mk {
  proj : Linear.t
}.

(** [torch.log_softmax(self.proj(x), dim=-1)] *)
Definition forward (self : t) (x : tensor3) : Result tensor3 :=
  bind (Linear.forward (proj self) x) (fun y =>
  ret (map (map log_softmax) y)).

End ProjectionLayer.

(** ** Composition of the model, with its calls recorded

    [greeedy_decode] and [train_model] take the model as an argument and
    only call its methods, so the tensors they pass around stay abstract:
    [T] is the type of floating-point tensors and [Mask] the type of mask
    tensors.  The tensor operations these functions use directly form the
    interface [Torch]. *)

Class Torch (T Mask : Type) : Type := {
  (* [x + y] *)
  tensor_add : T -> T -> Result T;
  (* [out[:, -1]] *)
  select_last : T -> Result T;
  (* [torch.max(prob, dim=1)[1].item()] *)
  max_index : T -> Result Z;
  (* [m.type_as(source_mask)] *)
  type_as : list (list (list bool)) -> Mask -> Mask
}.

(** What a run does that a caller can observe besides its result. *)
Inductive event (Mask : Type) : Type :=
| LoopIteration (size : nat)
    (* the body of [while True] is entered with [decoder_input.size(1) = size] *)
| EncodeCall (src : list (list Z)) (src_mask : Mask)
| DecodeCall (src_mask : Mask) (tgt : list (list Z)) (tgt_mask : Mask)
| ProjectCall
| SelfAttention (mask : Mask)
    (* a [self_attention_block(x, x, x, mask)] call *)
| CrossAttention (mask : Mask).
    (* a [cross_attention_block(x, encoder_output, encoder_output, mask)] call *)

Arguments LoopIteration {Mask} size.
Arguments EncodeCall {Mask} src src_mask.
Arguments DecodeCall {Mask} src_mask tgt tgt_mask.
Arguments ProjectCall {Mask}.
Arguments SelfAttention {Mask} mask.
Arguments CrossAttention {Mask} mask.

(** A computation that records events and may raise: the events recorded
    before an exception are kept. *)
Definition traced (Mask A : Type) : Type := (list (event Mask) * Result A)%type.

Definition tret {Mask A : Type} (a : A) : traced Mask A := ([], ret a).

Definition tbind {Mask A B : Type} (m : traced Mask A) (k : A -> traced Mask B)
  : traced Mask B :=
  match m with
  | (tr, inl e) => (tr, inl e)
  | (tr, inr a) => let (tr', r) := k a in (tr ++ tr', r)
  end.

Definition tell {Mask : Type} (e : event Mask) : traced Mask unit := ([e], ret tt).

Definition lift {Mask A : Type} (r : Result A) : traced Mask A := ([], r).

Declare Scope traced_scope.
Delimit Scope traced_scope with traced.
Notation "x <~ m ;; k" := (tbind m (fun x => k))
  (at level 61, m at next level, right associativity) : traced_scope.
Notation "m ;;; k" := (tbind m (fun _ => k))
  (at level 61, right associativity) : traced_scope.

Local Open Scope traced_scope.

Module ResidualConnection.

Record t (T : Type) : Type := mk {
  dropout : T -> T;
  norm : T -> Result T
}.

(** [x + self.dropout(sublayer(self.norm(x)))] *)
Definition forward {T Mask : Type} `{Torch T Mask} (self : t T) (x : T)
           (sublayer : T -> traced Mask T) : traced Mask T :=
  n <~ lift (norm self x) ;;
  s <~ sublayer n ;;
  lift (tensor_add x (dropout self s)).

End ResidualConnection.

Module EncoderBlock.

Record t (T Mask : Type) : Type := mk {
  self_attention_block : T -> T -> T -> Mask -> Result T;
  feed_forward_block : T -> Result T;
  residual_connections : ResidualConnection.t T * ResidualConnection.t T
}.

Definition forward {T Mask : Type} `{Torch T Mask} (self : t T Mask)
           (x : T) (src_mask : Mask) : traced Mask T :=
  x <~ ResidualConnection.forward (fst (residual_connections self)) x
         (fun x => tell (SelfAttention src_mask) ;;;
                   lift (self_attention_block self x x x src_mask)) ;;
  x <~ ResidualConnection.forward (snd (residual_connections self)) x
         (fun x => lift (feed_forward_block self x)) ;;
  tret x.

End EncoderBlock.

Module Encoder.

Record t (T Mask : Type) : Type := mk {
  layers : list (EncoderBlock.t T Mask);
  norm : T -> Result T
}.

Fixpoint run_layers {T Mask : Type} `{Torch T Mask}
         (layers : list (EncoderBlock.t T Mask)) (x : T) (mask : Mask)
  : traced Mask T :=
  match layers with
  | [] => tret x
  | layer :: rest =>
      x <~ EncoderBlock.forward layer x mask ;;
      run_layers rest x mask
  end.

Definition forward {T Mask : Type} `{Torch T Mask} (self : t T Mask)
           (x : T) (mask : Mask) : traced Mask T :=
  x <~ run_layers (layers self) x mask ;;
  lift (norm self x).

End Encoder.

Module DecoderBlock.

Record t (T Mask : Type) : Type := mk {
  self_attention_block : T -> T -> T -> Mask -> Result T;
  cross_attention_block : T -> T -> T -> Mask -> Result T;
  feed_forward_block : T -> Result T;
  residual_connections :
    ResidualConnection.t T * ResidualConnection.t T * ResidualConnection.t T
}.

Definition forward {T Mask : Type} `{Torch T Mask} (self : t T Mask)
           (x encoder_output : T) (src_mask tgt_mask : Mask) : traced Mask T :=
  let '(rc0, rc1, rc2) := residual_connections self in
  x <~ ResidualConnection.forward rc0 x
         (fun x => tell (SelfAttention tgt_mask) ;;;
                   lift (self_attention_block self x x x tgt_mask)) ;;
  x <~ ResidualConnection.forward rc1 x
         (fun x => tell (CrossAttention src_mask) ;;;
                   lift (cross_attention_block self x encoder_output
                                               encoder_output src_mask)) ;;
  x <~ ResidualConnection.forward rc2 x
         (fun x => lift (feed_forward_block self x)) ;;
  tret x.

End DecoderBlock.

Module Decoder.

Record t (T Mask : Type) : Type := mk {
  layers : list (DecoderBlock.t T Mask);
  norm : T -> Result T
}.

Fixpoint run_layers {T Mask : Type} `{Torch T Mask}
         (layers : list (DecoderBlock.t T Mask)) (x encoder_output : T)
         (src_mask tgt_mask : Mask) : traced Mask T :=
  match layers with
  | [] => tret x
  | layer :: rest =>
      x <~ DecoderBlock.forward layer x encoder_output src_mask tgt_mask ;;
      run_layers rest x encoder_output src_mask tgt_mask
  end.

Definition forward {T Mask : Type} `{Torch T Mask} (self : t T Mask)
           (x encoder_output : T) (src_mask tgt_mask : Mask) : traced Mask T :=
  x <~ run_layers (layers self) x encoder_output src_mask tgt_mask ;;
  lift (norm self x).

End Decoder.

Module Transformer.

Record t (T Mask : Type) : Type := mk {
  encoder : Encoder.t T Mask;
  decoder : Decoder.t T Mask;
  src_embed : list (list Z) -> Result T;
  tgt_embed : list (list Z) -> Result T;
  src_pos : T -> Result T;
  tgt_pos : T -> Result T;
  projection_layer : T -> Result T
}.

Definition encode {T Mask : Type} `{Torch T Mask} (self : t T Mask)
           (src : list (list Z)) (src_mask : Mask) : traced Mask T :=
  tell (EncodeCall src src_mask) ;;;
  src <~ lift (src_embed self src) ;;
  src <~ lift (src_pos self src) ;;
  Encoder.forward (encoder self) src src_mask.

Definition decode {T Mask : Type} `{Torch T Mask} (self : t T Mask)
           (encoder_output : T) (src_mask : Mask) (tgt : list (list Z))
           (tgt_mask : Mask) : traced Mask T :=
  tell (DecodeCall src_mask tgt tgt_mask) ;;;
  tgt <~ lift (tgt_embed self tgt) ;;
  tgt <~ lift (tgt_pos self tgt) ;;
  Decoder.forward (decoder self) tgt encoder_output src_mask tgt_mask.

Definition project {T Mask : Type} `{Torch T Mask} (self : t T Mask) (x : T)
  : traced Mask T :=
  tell ProjectCall ;;;
  lift (projection_layer self x).

End Transformer.

(** ** greeedy_decode *)

(** The [while True] loop of [greeedy_decode], run for at most [fuel]
    entries into its body; [None] is returned when the fuel runs out before
    a [break].  [decoder_input] is the single row of the (1, n) tensor. *)
Fixpoint greeedy_decode_loop {T Mask : Type} `{Torch T Mask} (fuel : nat)
         (model : Transformer.t T Mask) (encoder_output : T)
         (source_mask : Mask) (eos_idx max_len : Z) (decoder_input : list Z)
  : traced Mask (option (list Z)) :=
  match fuel with
  | O => tret None
  | S fuel' =>
      tell (LoopIteration (length decoder_input)) ;;;
      if (Z.of_nat (length decoder_input) =? max_len)%Z
      then tret (Some decoder_input)
      else
        let decoder_mask :=
          type_as (causal_mask (length decoder_input)) source_mask in
        out <~ Transformer.decode model encoder_output source_mask
                 [decoder_input] decoder_mask ;;
        last <~ lift (select_last out) ;;
        prob <~ Transformer.project model last ;;
        next_word <~ lift (max_index prob) ;;
        let decoder_input := decoder_input ++ [next_word] in
        if (next_word =? eos_idx)%Z
        then tret (Some decoder_input)
        else greeedy_decode_loop fuel' model encoder_output source_mask
                                 eos_idx max_len decoder_input
  end.

(** [greeedy_decode(model, source, source_mask, tokenizer_src, tokenizer_tgt,
    max_len, device)]; a tokenizer is its [token_to_id] method, and the
    result is [decoder_input.squeeze(0)]. *)
Definition greeedy_decode {T Mask : Type} `{Torch T Mask} (fuel : nat)
           (model : Transformer.t T Mask) (source : list (list Z))
           (source_mask : Mask) (tokenizer_src tokenizer_tgt : string -> Z)
           (max_len : Z) : traced Mask (option (list Z)) :=
  let sos_idx := tokenizer_tgt "[SOS]"%string in
  let eos_idx := tokenizer_tgt "[EOS]"%string in
  encoder_output <~ Transformer.encode model source source_mask ;;
  greeedy_decode_loop fuel model encoder_output source_mask eos_idx max_len
                      [sos_idx].

(** ** train_model: the forward pass of one batch *)

Module Batch.

(** The dictionary a [DataLoader] yields, after [.to(device)]. *)
Record t (Mask : Type) : Type := mk {
  encoder_input : list (list Z);
  decoder_input : list (list Z);
  encoder_mask : Mask;
  decoder_mask : Mask;
  label : list (list Z)
}.

End Batch.

(** The three model calls of the inner loop of [train_model] on one batch;
    the loss, the backward pass and the optimizer step follow them and call
    the model no more. *)
Definition train_forward {T Mask : Type} `{Torch T Mask}
           (model : Transformer.t T Mask) (batch : Batch.t Mask)
  : traced Mask T :=
  let encoder_input := Batch.encoder_input batch in
  let decoder_input := Batch.decoder_input batch in
  let encoder_mask := Batch.encoder_mask batch in
  let decoder_mask := Batch.decoder_mask batch in
  encoder_output <~ Transformer.encode model encoder_input encoder_mask ;;
  decoder_output <~ Transformer.decode model encoder_output decoder_mask
                      decoder_input decoder_mask ;;
  proj_output <~ Transformer.project model decoder_output ;;
  tret proj_output.

(** The loop [for batch in batch_iterator] of one epoch: [optimizer_step]
    stands for the loss, [loss.backward()] and [optimizer.step()], which
    give the model its next parameters. *)
Fixpoint train_epoch {T Mask : Type} `{Torch T Mask}
         (optimizer_step : Transformer.t T Mask -> T -> list (list Z) ->
                           Transformer.t T Mask)
         (model : Transformer.t T Mask) (batches : list (Batch.t Mask))
  : traced Mask (Transformer.t T Mask) :=
  match batches with
  | [] => tret model
  | batch :: rest =>
      proj_output <~ train_forward model batch ;;
      train_epoch optimizer_step
                  (optimizer_step model proj_output (Batch.label batch)) rest
  end.


(** ** Shapes *)

(** [x.shape == (b, s)] and [x.shape == (b, s, d)] for list tensors. *)
Definition has_shape2 {A : Type} (x : list (list A)) (b s : nat) : Prop :=
  length x = b /\ Forall (fun row => length row = s) x.

Definition has_shape3 {A : Type} (x : list (list (list A))) (b s d : nat) : Prop :=
  length x = b /\ Forall (fun m => has_shape2 m s d) x.


(** ** Reading a recorded run *)

Definition events {Mask A : Type} (m : traced Mask A) : list (event Mask) := fst m.
Definition result {Mask A : Type} (m : traced Mask A) : Result A := snd m.

(** The sizes [decoder_input.size(1)] at the successive entries into the
    loop body. *)
Definition loop_sizes {Mask : Type} (tr : list (event Mask)) : list nat :=
  flat_map (fun e => match e with LoopIteration n => [n] | _ => [] end) tr.

(** The arguments (src_mask, tgt, tgt_mask) of the successive calls to
    [Transformer.decode]. *)
Definition decode_calls {Mask : Type} (tr : list (event Mask))
  : list (Mask * list (list Z) * Mask) :=
  flat_map (fun e => match e with
                     | DecodeCall s t m => [(s, t, m)]
                     | _ => []
                     end) tr.

(** The masks handed to the successive cross-attention calls. *)
Definition cross_attention_masks {Mask : Type} (tr : list (event Mask))
  : list Mask :=
  flat_map (fun e => match e with CrossAttention m => [m] | _ => [] end) tr.

(** The model calls of one pass through the loop body of [greeedy_decode],
    from [model.decode] to [next_word]. *)
Definition next_word {T Mask : Type} `{Torch T Mask}
           (model : Transformer.t T Mask) (encoder_output : T)
           (source_mask : Mask) (decoder_input : list Z) : traced Mask Z :=
  let decoder_mask :=
    type_as (causal_mask (length decoder_input)) source_mask in
  out <~ Transformer.decode model encoder_output source_mask
           [decoder_input] decoder_mask ;;
  last <~ lift (select_last out) ;;
  prob <~ Transformer.project model last ;;
  next_word <~ lift (max_index prob) ;;
  tret next_word.


(** ** More readings of a recorded run *)

(** The arguments (src, src_mask) of the successive calls to
    [Transformer.encode]. *)
Definition encode_calls {Mask : Type} (tr : list (event Mask))
  : list (list (list Z) * Mask) :=
  flat_map (fun e => match e with
                     | EncodeCall s m => [(s, m)]
                     | _ => []
                     end) tr.

(** ** FeedForwardBlock *)

Module FeedForwardBlock.

Record t : Type := mk {
  linear_1 : Linear.t;                (* W1, B1 *)
  dropout : tensor3 -> tensor3;
  linear_2 : Linear.t                 (* W2, B2 *)
}.

(** [torch.relu] on one number *)
Definition relu (x : R) : R := Rmax 0 x.

(** [self.linear_2(self.dropout(torch.relu(self.linear_1(x))))] *)
Definition forward (self : t) (x : tensor3) : Result tensor3 :=
  bind (Linear.forward (linear_1 self) x) (fun h =>
  Linear.forward (linear_2 self) (dropout self (map (map (map relu)) h))).

End FeedForwardBlock.

(** ** Exceptions beyond those above *)

Inductive PyError : Type :=
| Builtin (e : Exception)
| KeyError (key : string).

(** ** MultiHeadAttentionBlock: construction and forward pass *)

Module MultiHead.

(** The instance state of a [MultiHeadAttentionBlock]; [attention_scores]
    is the attribute that [forward] sets, absent until the first call. *)
Record t : Type := mk {
  d_model : nat;
  h : nat;
  d_k : nat;
  w_q : Linear.t;
  w_k : Linear.t;
  w_v : Linear.t;
  w_o : Linear.t;
  dropout : tensor4 -> tensor4;
  attention_scores : option tensor4
}.

(** [__init__(d_model, h, dropout)].  The four [nn.Linear(d_model, d_model)]
    layers, which the constructor draws at random, are arguments here.
    [d_model % h] raises [ZeroDivisionError] for [h = 0], before the
    assertion is looked at. *)
Definition __init__ (d_model h : nat) (w_q w_k w_v w_o : Linear.t)
           (dropout : tensor4 -> tensor4) : PyError + t :=
  if (h =? 0)%nat then inl (Builtin ZeroDivisionError)
  else if (d_model mod h =? 0)%nat
       then inr {| d_model := d_model; h := h; d_k := d_model / h;
                   w_q := w_q; w_k := w_k; w_v := w_v; w_o := w_o;
                   dropout := dropout; attention_scores := None |}
       else inl (Builtin AssertionError).

(** [n] consecutive chunks of [size] entries of a vector. *)
Fixpoint chunks (n size : nat) (v : list R) : list (list R) :=
  match n with
  | O => []
  | S n' => firstn size v :: chunks n' size (skipn size v)
  end.

(** [x.view(x.shape[0], x.shape[1], h, d_k)] for [x] of rank 3: the last
    axis must hold [h * d_k] entries. *)
Definition view_heads (h d_k : nat) (x : tensor3) : Result tensor4 :=
  mapM (mapM (fun v => if (length v =? h * d_k)%nat
                       then ret (chunks h d_k v)
                       else shape_error)) x.

(** [x.transpose(1, 2)] on a rank-4 tensor; the size of axis 2 is read off
    the first element of axis 1. *)
Definition transpose12 (x : tensor4) : tensor4 :=
  map (fun m => map (fun i => map (fun row => nth i row []) m)
                    (seq 0 (ncols m))) x.

(** [t.view(t.shape[0], t.shape[1], self.h, self.d_k).transpose(1, 2)] *)
Definition split_heads (h d_k : nat) (x : tensor3) : Result tensor4 :=
  bind (view_heads h d_k x) (fun v => ret (transpose12 v)).

(** [x.transpose(1, 2).contiguous().view(x.shape[0], -1, self.h * self.d_k)].
    With no element to count ([x.shape[0] * h * d_k = 0]) the [-1] cannot
    be inferred and [view] raises; otherwise the [h] chunks of every
    position are laid end to end. *)
Definition merge_heads (h d_k : nat) (x : tensor4) : Result tensor3 :=
  if (length x * (h * d_k) =? 0)%nat then shape_error
  else mapM (mapM (fun heads => let v := concat heads in
                                if (length v =? h * d_k)%nat
                                then ret v else shape_error))
            (transpose12 x).

(** [forward(q, k, v, mask)], returning the module with its
    [attention_scores] attribute set, and the output. *)
Definition forward (self : t) (q k v : tensor3)
           (mask : option (list (list (list (list Z)))))
  : Result (t * tensor3) :=
  bind (Linear.forward (w_q self) q) (fun query =>
  bind (Linear.forward (w_k self) k) (fun key =>
  bind (Linear.forward (w_v self) v) (fun value =>
  bind (split_heads (h self) (d_k self) query) (fun query =>
  bind (split_heads (h self) (d_k self) key) (fun key =>
  bind (split_heads (h self) (d_k self) value) (fun value =>
  bind (MultiHeadAttentionBlock.attention query key value mask
                                          (Some (dropout self)))
       (fun '(x, scores) =>
  bind (merge_heads (h self) (d_k self) x) (fun x =>
  bind (Linear.forward (w_o self) x) (fun out =>
  ret ({| d_model := d_model self; h := h self; d_k := d_k self;
          w_q := w_q self; w_k := w_k self; w_v := w_v self;
          w_o := w_o self; dropout := dropout self;
          attention_scores := Some scores |}, out)))))))))).

End MultiHead.

(** ** Configuration and checkpoint paths *)

(** The values a configuration dictionary holds. *)
Inductive pyvalue : Type :=
| PyInt (z : Z)
| PyFloat (r : R)
| PyStr (s : string)
| PyNone.

(** [d[key]] on a dictionary kept as its list of items. *)
Fixpoint dict_getitem (d : list (string * pyvalue)) (key : string)
  : PyError + pyvalue :=
  match d with
  | [] => inl (KeyError key)
  | (k, v) :: rest => if String.eqb k key then inr v else dict_getitem rest key
  end.

Definition get_config : list (string * pyvalue) :=
  [("batch_size", PyInt 8);
   ("num_epochs", PyInt 20);
   ("lr", PyFloat (/ 10 ^ 4));
   ("seq_len", PyInt 350);
   ("d_model", PyInt 512);
   ("lang_src", PyStr "en");
   ("lang_tgt", PyStr "it");
   ("model_folder", PyStr "weights");
   ("model_filename", PyStr "tmodel");
   ("preload", PyNone);
   ("tokenizer_file", PyStr "tokenizer_{0}.json");
   ("experiment_name", PyStr "runs/tmodel")]%string.

(** [get_weights_file_path(config, epoch)].  The two library operations it
    ends with are arguments: [format_value v] is what an f-string puts for
    [{v}], and [path_str folder name] is
    [str(Path('.') / folder / name)]. *)
Definition get_weights_file_path
           (format_value : pyvalue -> string)
           (path_str : pyvalue -> string -> PyError + string)
           (config : list (string * pyvalue)) (epoch : string)
  : PyError + string :=
  match dict_getitem config "model_folder" with
  | inl e => inl e
  | inr model_folder =>
      match dict_getitem config "model_basename" with
      | inl e => inl e
      | inr model_basename =>
          let model_filename :=
            (format_value model_basename ++ epoch ++ ".pth")%string in
          path_str model_folder model_filename
      end
  end.

(** ** run_validation *)

(** A tokenizer as [run_validation] uses it. *)
Record Tokenizer : Type := {
  token_to_id : string -> Z;
  decode : list Z -> string
}.

Module ValidationBatch.

(** A batch of the validation loader, after [.to(device)]. *)
Record t (Mask : Type) : Type := mk {
  encoder_input : list (list Z);
  encoder_mask : Mask;
  src_text : list string;
  tgt_text : list string
}.

End ValidationBatch.

(** [xs[0]] *)
Definition first_item {A : Type} (xs : list A) : Result A :=
  match xs with
  | [] => raise IndexError
  | x :: _ => ret x
  end.

(** ['-' * console_width] with [console_width = 1000] *)
Definition console_rule : string :=
  String.concat EmptyString (repeat "-"%string 1000).

(** The loop [for batch in validation_ds] of [run_validation].  [count] is
    the counter before the batch; [printed] collects, in order, the
    messages handed to [print_msg].  The [fuel] is that of every call to
    [greeedy_decode]; [None] is returned when one of them runs out. *)
Fixpoint run_validation_loop {T Mask : Type} `{Torch T Mask} (fuel : nat)
         (model : Transformer.t T Mask)
         (validation_ds : list (ValidationBatch.t Mask))
         (tokenizer_src tokenizer_tgt : Tokenizer) (max_len : Z)
         (num_examples count : Z) (printed : list string)
  : traced Mask (option (list string)) :=
  match validation_ds with
  | [] => tret (Some printed)
  | batch :: rest =>
      let count := (count + 1)%Z in
      let encoder_input := ValidationBatch.encoder_input batch in
      let encoder_mask := ValidationBatch.encoder_mask batch in
      if negb (length encoder_input =? 1)%nat then lift (raise AssertionError)
      else
        model_out <~ greeedy_decode fuel model encoder_input encoder_mask
                       (token_to_id tokenizer_src) (token_to_id tokenizer_tgt)
                       max_len ;;
        match model_out with
        | None => tret None
        | Some model_out =>
            source_text <~ lift (first_item (ValidationBatch.src_text batch)) ;;
            target_text <~ lift (first_item (ValidationBatch.tgt_text batch)) ;;
            let model_out_text := decode tokenizer_tgt model_out in
            let printed :=
              printed ++ [console_rule;
                          ("SOURCE: " ++ source_text)%string;
                          ("TARGET: " ++ target_text)%string;
                          ("MODEL: " ++ model_out_text)%string] in
            if (count =? num_examples)%Z then tret (Some printed)
            else run_validation_loop fuel model rest tokenizer_src
                                     tokenizer_tgt max_len num_examples
                                     count printed
        end
  end.

(** [run_validation(model, validation_ds, tokenizer_src, tokenizer_tgt,
    max_len, device, print_msg, global_state, writer, num_examples)]: the
    result is the list of messages printed. *)
Definition run_validation {T Mask : Type} `{Torch T Mask} (fuel : nat)
           (model : Transformer.t T Mask)
           (validation_ds : list (ValidationBatch.t Mask))
           (tokenizer_src tokenizer_tgt : Tokenizer) (max_len : Z)
           (num_examples : Z) : traced Mask (option (list string)) :=
  run_validation_loop fuel model validation_ds tokenizer_src tokenizer_tgt
                      max_len num_examples 0 [].

(** [x.shape == (b, h, s, d)] for a rank-4 list tensor. *)
Definition has_shape4 {A : Type} (x : list (list (list (list A))))
           (b h s d : nat) : Prop :=
  length x = b /\ Forall (fun t => has_shape3 t h s d) x.

(** A run [m] records the events [full], in order, when it ends normally,
    and an initial part of them when it ends with an exception. *)
Definition records {Mask A : Type} (m : traced Mask A)
           (full : list (event Mask)) : Prop :=
  (exists rest, full = events m ++ rest) /\
  (forall a, result m = inr a -> events m = full).


(** ** Small instances

    Concrete objects on which the statements below are exercised. *)

Module Examples.

(** A one-pair dataset with [seq_len = 10] whose source sentence has the
    two content tokens 7 and 9; the special tokens are in the order the
    tokenizer trainer lists them (UNK 0, PAD 1, SOS 2, EOS 3). *)
Definition dataset : BilingualDataset.t :=
  {| BilingualDataset.ds := [("a b"%string, "c d e"%string)];
     BilingualDataset.seq_len := 10;
     BilingualDataset.tokenizer_src := fun _ => [7; 9]%Z;
     BilingualDataset.tokenizer_tgt := fun _ => [5; 6; 8]%Z;
     BilingualDataset.sos_token := 2;
     BilingualDataset.eos_token := 3;
     BilingualDataset.pad_token := 1 |}.

(** The same dataset with a source sentence of 9 content tokens. *)
Definition long_dataset : BilingualDataset.t :=
  {| BilingualDataset.ds := [("a b"%string, "c d e"%string)];
     BilingualDataset.seq_len := 10;
     BilingualDataset.tokenizer_src := fun _ => [4; 5; 6; 7; 8; 9; 10; 11; 12]%Z;
     BilingualDataset.tokenizer_tgt := fun _ => [5; 6; 8]%Z;
     BilingualDataset.sos_token := 2;
     BilingualDataset.eos_token := 3;
     BilingualDataset.pad_token := 1 |}.

(** A dataset with [seq_len = 4] and one-token sentences, and the sample
    its only pair yields. *)
Definition small_dataset : BilingualDataset.t :=
  {| BilingualDataset.ds := [("a"%string, "c"%string)];
     BilingualDataset.seq_len := 4;
     BilingualDataset.tokenizer_src := fun _ => [7]%Z;
     BilingualDataset.tokenizer_tgt := fun _ => [5]%Z;
     BilingualDataset.sos_token := 2;
     BilingualDataset.eos_token := 3;
     BilingualDataset.pad_token := 1 |}.

Definition small_sample : BilingualDataset.sample :=
  {| BilingualDataset.encoder_input := [2; 7; 3; 1]%Z;
     BilingualDataset.decoder_input := [2; 5; 1; 1]%Z;
     BilingualDataset.encoder_mask := [[1; 1; 1; 0]]%Z;
     BilingualDataset.decoder_mask :=
       [[[1; 0; 0; 0]; [1; 1; 0; 0]; [1; 1; 0; 0]; [1; 1; 0; 0]]]%Z;
     BilingualDataset.label := [5; 3; 1; 1]%Z;
     BilingualDataset.src_text := "a"%string;
     BilingualDataset.tgt_text := "c"%string |}.

(** An embedding of 3 tokens into 2 dimensions. *)
Definition embeddings : InputEmbeddings.t :=
  {| InputEmbeddings.d_model := 2;
     InputEmbeddings.vocab_size := 3;
     InputEmbeddings.embedding := [[1; 2]; [3; 4]; [5; 6]]%R |}.

(** A projection from 2 dimensions onto a vocabulary of 3. *)
Definition projection : ProjectionLayer.t :=
  {| ProjectionLayer.proj :=
       {| Linear.in_features := 2;
          Linear.out_features := 3;
          Linear.weight := [[1; 0]; [0; 1]; [1; 1]]%R;
          Linear.bias := [0; 0; 0]%R |} |}.

(** A model whose tensors are single integers: embedding counts the ids,
    every sublayer passes its (first) input on, and the arg-max of a
    "tensor" is the integer itself. *)
#[global] Instance torch : Torch Z (list (list (list Z))) :=
  {| tensor_add := fun x y => ret (x + y)%Z;
     select_last := fun x => ret x;
     max_index := fun x => ret (x mod 7)%Z;
     type_as := fun m _ => map (map (map Z.b2z)) m |}.

Definition residual : ResidualConnection.t Z :=
  {| ResidualConnection.dropout := fun x => x;
     ResidualConnection.norm := fun x => ret x |}.

Definition model : Transformer.t Z (list (list (list Z))) :=
  {| Transformer.encoder :=
       {| Encoder.layers :=
            [{| EncoderBlock.self_attention_block := fun q _ _ _ => ret q;
                EncoderBlock.feed_forward_block := fun x => ret x;
                EncoderBlock.residual_connections := (residual, residual) |}];
          Encoder.norm := fun x => ret x |};
     Transformer.decoder :=
       {| Decoder.layers :=
            [{| DecoderBlock.self_attention_block := fun q _ _ _ => ret q;
                DecoderBlock.cross_attention_block := fun q _ _ _ => ret q;
                DecoderBlock.feed_forward_block := fun x => ret x;
                DecoderBlock.residual_connections :=
                  (residual, residual, residual) |}];
          Decoder.norm := fun x => ret x |};
     Transformer.src_embed := fun ids => ret (Z.of_nat (length (concat ids)));
     Transformer.tgt_embed := fun ids => ret (Z.of_nat (length (concat ids)));
     Transformer.src_pos := fun x => ret x;
     Transformer.tgt_pos := fun x => ret x;
     Transformer.projection_layer := fun x => ret x |}.

(** [token_to_id] of a tokenizer with the four special tokens. *)
Definition tokenizer (token : string) : Z :=
  if String.eqb token "[PAD]" then 1
  else if String.eqb token "[SOS]" then 2
  else if String.eqb token "[EOS]" then 3
  else 0.

Definition source : list (list Z) := [[2; 7; 9; 3; 1]]%Z.
Definition source_mask : list (list (list Z)) := [[[1; 1; 1; 1; 0]]]%Z.

Definition batch : Batch.t (list (list (list Z))) :=
  {| Batch.encoder_input := [[2; 7; 9; 3; 1]]%Z;
     Batch.decoder_input := [[2; 5; 6; 1; 1]]%Z;
     Batch.encoder_mask := [[[1; 1; 1; 1; 0]]]%Z;
     Batch.decoder_mask := [[[1; 0; 0; 0; 0]; [1; 1; 0; 0; 0]; [1; 1; 1; 0; 0];
                             [1; 1; 1; 0; 0]; [1; 1; 1; 0; 0]]]%Z;
     Batch.label := [[5; 6; 3; 1; 1]]%Z |}.

End Examples.

(** ** Further small instances *)

Module MoreExamples.

(** A positional encoding of two positions and two features with a
    hand-written table. *)
Definition positional : PositionalEncoding.t :=
  {| PositionalEncoding.d_model := 2;
     PositionalEncoding.seq_len := 2;
     PositionalEncoding.dropout := fun x => x;
     PositionalEncoding.pe := [[[0; 1]; [1; 0]]]%R |}.

(** The 2 x 2 identity as a linear layer. *)
Definition identity2 : Linear.t :=
  {| Linear.in_features := 2;
     Linear.out_features := 2;
     Linear.weight := [[1; 0]; [0; 1]]%R;
     Linear.bias := [0; 0]%R |}.

(** A feed-forward block 2 -> 3 -> 2 in evaluation mode. *)
Definition feed_forward : FeedForwardBlock.t :=
  {| FeedForwardBlock.linear_1 :=
       {| Linear.in_features := 2;
          Linear.out_features := 3;
          Linear.weight := [[1; 0]; [0; 1]; [1; -1]]%R;
          Linear.bias := [0; 0; 0]%R |};
     FeedForwardBlock.dropout := fun x => x;
     FeedForwardBlock.linear_2 :=
       {| Linear.in_features := 3;
          Linear.out_features := 2;
          Linear.weight := [[1; 0; 0]; [0; 1; 1]]%R;
          Linear.bias := [1; 1]%R |} |}.

(** Two heads of size 1 over [d_model = 2], in evaluation mode. *)
Definition two_heads : MultiHead.t :=
  {| MultiHead.d_model := 2;
     MultiHead.h := 2;
     MultiHead.d_k := 1;
     MultiHead.w_q := identity2;
     MultiHead.w_k := identity2;
     MultiHead.w_v := identity2;
     MultiHead.w_o := identity2;
     MultiHead.dropout := fun x => x;
     MultiHead.attention_scores := None |}.

(** A tokenizer object over [Examples.tokenizer]; [decode] only counts. *)
Definition tokenizer : Tokenizer :=
  {| token_to_id := Examples.tokenizer;
     decode := fun ids => if (length ids <=? 2)%nat then "short"%string
                          else "long"%string |}.

Definition validation_batch : ValidationBatch.t (list (list (list Z))) :=
  {| ValidationBatch.encoder_input := Examples.source;
     ValidationBatch.encoder_mask := Examples.source_mask;
     ValidationBatch.src_text := ["a b"%string];
     ValidationBatch.tgt_text := ["c d"%string] |}.

(** A configuration value rendered as text, and a path joined to a name. *)
Definition format_value (v : pyvalue) : string :=
  match v with
  | PyStr s => s
  | _ => "?"%string
  end.

Definition path_str (folder : pyvalue) (name : string) : PyError + string :=
  inr (String.append (format_value folder) (String.append "/" name)).

End MoreExamples.

(** * Properties *)

(** ** List tensor lemmas *)

Lemma mapi_from_length {A B : Type} (f : nat -> A -> B) (k : nat) (xs : list A) :
  length (mapi_from f k xs) = length xs.
Proof.
  revert k; induction xs as [|x xs IH]; intros k; simpl; [reflexivity|].
  now rewrite IH.
Qed.

Lemma mapi_length {A B : Type} (f : nat -> A -> B) (xs : list A) :
  length (mapi f xs) = length xs.
Proof. apply mapi_from_length. Qed.

Lemma nth_mapi_from {A B : Type} (f : nat -> A -> B) (k i : nat) (xs : list A)
      (d : A) (d' : B) :
  (i < length xs)%nat ->
  nth i (mapi_from f k xs) d' = f (k + i)%nat (nth i xs d).
Proof.
  revert k i; induction xs as [|x xs IH]; intros k i Hi; simpl in *; [lia|].
  destruct i as [|i].
  - now rewrite Nat.add_0_r.
  - rewrite IH by lia. f_equal. lia.
Qed.

Lemma nth_mapi {A B : Type} (f : nat -> A -> B) (i : nat) (xs : list A)
      (d : A) (d' : B) :
  (i < length xs)%nat -> nth i (mapi f xs) d' = f i (nth i xs d).
Proof. intros Hi. unfold mapi. now rewrite nth_mapi_from with (d := d). Qed.

Lemma zip_with_length {A B C : Type} (f : A -> B -> C) (xs : list A) (ys : list B) :
  length (zip_with f xs ys) = Nat.min (length xs) (length ys).
Proof.
  revert ys; induction xs as [|x xs IH]; intros [|y ys]; simpl; auto.
Qed.

Lemma nth_zip_with {A B C : Type} (f : A -> B -> C) (i : nat)
      (xs : list A) (ys : list B) (da : A) (db : B) (dc : C) :
  (i < length xs)%nat -> (i < length ys)%nat ->
  nth i (zip_with f xs ys) dc = f (nth i xs da) (nth i ys db).
Proof.
  revert i ys; induction xs as [|x xs IH]; intros i [|y ys] Hx Hy;
    simpl in *; try lia.
  destruct i as [|i]; [reflexivity|]. apply IH; lia.
Qed.

Lemma nth_repeat_lt {A : Type} (a d : A) (n i : nat) :
  (i < n)%nat -> nth i (repeat a n) d = a.
Proof.
  revert i; induction n as [|n IH]; intros i Hi; [lia|].
  destruct i as [|i]; simpl; [reflexivity|]. apply IH; lia.
Qed.

(** ** Masks *)

Lemma triu_ones_entry (size i j : nat) (d : Z) :
  (i < size)%nat -> (j < size)%nat ->
  nth j (nth i (triu (ones size size) d) []) 0%Z
  = if (d <=? Z.of_nat j - Z.of_nat i)%Z then 1%Z else 0%Z.
Proof.
  intros Hi Hj. unfold triu, ones.
  rewrite nth_mapi with (d := []) by now rewrite repeat_length.
  rewrite nth_repeat_lt by assumption.
  rewrite nth_mapi with (d := 0%Z) by now rewrite repeat_length.
  now rewrite nth_repeat_lt.
Qed.

Lemma triu_shape (m : list (list Z)) (d : Z) (i : nat) :
  length (triu m d) = length m /\
  length (nth i (triu m d) []) = length (nth i m []).
Proof.
  unfold triu. split; [apply mapi_length|].
  destruct (Nat.lt_ge_cases i (length m)) as [Hi|Hi].
  - rewrite nth_mapi with (d := []) by assumption. apply mapi_length.
  - rewrite !nth_overflow; auto. now rewrite mapi_length.
Qed.

(** The plane of [causal_mask size]: a [size] by [size] matrix whose entry
    (i, j) is true exactly when [j <= i]. *)
Lemma causal_mask_plane (size : nat) :
  exists plane,
    causal_mask size = [plane] /\
    length plane = size /\
    (forall i, (i < size)%nat -> length (nth i plane []) = size) /\
    (forall i j, (i < size)%nat -> (j < size)%nat ->
                 nth j (nth i plane []) false = (j <=? i)%nat).
Proof.
  unfold causal_mask; simpl.
  eexists; split; [reflexivity|].
  assert (Hlen : length (triu (ones size size) 1) = size).
  { rewrite (proj1 (triu_shape _ _ 0)). apply repeat_length. }
  assert (Hrow : forall i, (i < size)%nat ->
                           length (nth i (triu (ones size size) 1) []) = size).
  { intros i Hi. rewrite (proj2 (triu_shape _ _ i)). unfold ones.
    rewrite nth_repeat_lt by assumption. apply repeat_length. }
  split; [now rewrite length_map|].
  split.
  - intros i Hi. change (@nil bool) with (map (fun x => (x =? 0)%Z) []).
    rewrite map_nth, length_map. now apply Hrow.
  - intros i j Hi Hj. change (@nil bool) with (map (fun x => (x =? 0)%Z) []).
    rewrite map_nth.
    rewrite nth_indep with (d' := (0 =? 0)%Z)
      by (rewrite length_map, Hrow; assumption).
    rewrite map_nth with (f := fun x => (x =? 0)%Z).
    rewrite triu_ones_entry by assumption.
    destruct (Z.leb_spec 1 (Z.of_nat j - Z.of_nat i));
      destruct (Nat.leb_spec j i); simpl; try reflexivity; lia.
Qed.

(** ** BilingualDataset.__getitem__ *)

Section GetItem.
Import BilingualDataset.

Variable self : t.

Let pads (n : Z) : list Z := repeat (pad_token self) (Z.to_nat n).

(** The sample assembled from the two token lists of a pair. *)
Let assembled (src tgt : string) : sample :=
  let enc := tokenizer_src self src in
  let dec := tokenizer_tgt self tgt in
  let encoder_input :=
    [sos_token self] ++ enc ++ [eos_token self]
      ++ pads (enc_num_padding_tokens self enc) in
  let decoder_input :=
    [sos_token self] ++ dec ++ pads (dec_num_padding_tokens self dec) in
  {| encoder_input := encoder_input;
     decoder_input := decoder_input;
     encoder_mask := padding_mask self encoder_input;
     decoder_mask := and_broadcast (padding_mask self decoder_input)
                                   (causal_mask (length decoder_input));
     label := dec ++ [eos_token self]
                ++ pads (dec_num_padding_tokens self dec);
     src_text := src;
     tgt_text := tgt |}.

Lemma assembled_lengths (src tgt : string) :
  (0 <= enc_num_padding_tokens self (tokenizer_src self src))%Z ->
  (0 <= dec_num_padding_tokens self (tokenizer_tgt self tgt))%Z ->
  Z.of_nat (length (encoder_input (assembled src tgt))) = seq_len self /\
  Z.of_nat (length (decoder_input (assembled src tgt))) = seq_len self /\
  Z.of_nat (length (label (assembled src tgt))) = seq_len self.
Proof.
  unfold enc_num_padding_tokens, dec_num_padding_tokens.
  intros He Hd. unfold assembled, pads; simpl.
  unfold enc_num_padding_tokens, dec_num_padding_tokens.
  repeat (rewrite ?length_app, ?repeat_length; simpl).
  lia.
Qed.

(** With both paddings non-negative the three assertions pass and the
    sample is returned. *)
Lemma getitem_fits (index : nat) (src tgt : string) :
  nth_error (ds self) index = Some (src, tgt) ->
  (0 <= enc_num_padding_tokens self (tokenizer_src self src))%Z ->
  (0 <= dec_num_padding_tokens self (tokenizer_tgt self tgt))%Z ->
  __getitem__ self index = inr (assembled src tgt).
Proof.
  intros Hnth He Hd.
  destruct (assembled_lengths src tgt He Hd) as (L1 & L2 & L3).
  unfold __getitem__. rewrite Hnth.
  destruct (Z.ltb_spec (enc_num_padding_tokens self (tokenizer_src self src)) 0);
    [lia|].
  destruct (Z.ltb_spec (dec_num_padding_tokens self (tokenizer_tgt self tgt)) 0);
    [lia|].
  cbv beta iota zeta delta [orb].
  unfold assembled, pads in L1, L2, L3.
  cbn [encoder_input decoder_input label] in L1, L2, L3.
  rewrite (proj2 (Z.eqb_eq _ _) L1).
  rewrite (proj2 (Z.eqb_eq _ _) L2).
  rewrite (proj2 (Z.eqb_eq _ _) L3).
  reflexivity.
Qed.

(** With a negative padding the call raises [ValueError]. *)
Lemma getitem_too_long (index : nat) (src tgt : string) :
  nth_error (ds self) index = Some (src, tgt) ->
  (enc_num_padding_tokens self (tokenizer_src self src) < 0
   \/ dec_num_padding_tokens self (tokenizer_tgt self tgt) < 0)%Z ->
  __getitem__ self index = inl too_long.
Proof.
  intros Hnth H. unfold __getitem__. rewrite Hnth.
  destruct (Z.ltb_spec (enc_num_padding_tokens self (tokenizer_src self src)) 0);
    [reflexivity|].
  destruct (Z.ltb_spec (dec_num_padding_tokens self (tokenizer_tgt self tgt)) 0);
    [reflexivity|]. lia.
Qed.

(** Every returned sample is the assembled one. *)
Lemma getitem_inv (index : nat) (s : sample) :
  __getitem__ self index = inr s ->
  exists src tgt,
    nth_error (ds self) index = Some (src, tgt) /\
    (0 <= enc_num_padding_tokens self (tokenizer_src self src))%Z /\
    (0 <= dec_num_padding_tokens self (tokenizer_tgt self tgt))%Z /\
    s = assembled src tgt.
Proof.
  intros H.
  destruct (nth_error (ds self) index) as [[src tgt]|] eqn:Hnth.
  2:{ unfold __getitem__ in H. rewrite Hnth in H. discriminate. }
  exists src, tgt. split; [reflexivity|].
  destruct (Z.lt_ge_cases (enc_num_padding_tokens self (tokenizer_src self src)) 0)
    as [He|He].
  { rewrite (getitem_too_long _ Hnth (or_introl He)) in H. discriminate. }
  destruct (Z.lt_ge_cases (dec_num_padding_tokens self (tokenizer_tgt self tgt)) 0)
    as [Hd|Hd].
  { rewrite (getitem_too_long _ Hnth (or_intror Hd)) in H. discriminate. }
  rewrite (getitem_fits _ Hnth He Hd) in H.
  repeat split; try assumption. congruence.
Qed.


(** The broadcast AND of a one-row integer mask with the causal mask of the
    row's length. *)
Lemma and_broadcast_causal (row : list Z) :
  let n := length row in
  exists plane causal,
    and_broadcast [row] (causal_mask n) = [plane] /\
    causal_mask n = [causal] /\
    length plane = n /\
    (forall i, (i < n)%nat -> length (nth i plane []) = n) /\
    forall i j, (i < n)%nat -> (j < n)%nat ->
      nth j (nth i plane []) 0%Z
      = Z.land (nth j row 0%Z) (Z.b2z (nth j (nth i causal []) false)).
Proof.
  intros n.
  destruct (causal_mask_plane n) as (causal & Hc & Hlen & Hrows & _).
  rewrite Hc. unfold and_broadcast. cbn [map hd].
  eexists; exists causal.
  split; [reflexivity|]. split; [reflexivity|].
  split; [now rewrite length_map|].
  set (g := fun r => zip_with _ row r).
  assert (Hg : g [] = []) by (unfold g; now destruct row).
  split.
  - intros i Hi. rewrite <- Hg at 1. rewrite map_nth. unfold g.
    rewrite zip_with_length, Hrows by assumption. apply Nat.min_id.
  - intros i j Hi Hj. rewrite <- Hg at 1. rewrite map_nth. unfold g.
    rewrite nth_zip_with with (da := 0%Z) (db := false);
      [reflexivity|assumption|now rewrite Hrows].
Qed.

Lemma land_b2z (a b : bool) : Z.land (Z.b2z a) (Z.b2z b) = Z.b2z (a && b).
Proof. now destruct a, b. Qed.

(** C3.  With [seq_len = 10], a source sentence with the content tokens
    [7; 9] has 6 padding tokens, and (the target fitting) the encoder input
    returned is SOS, 7, 9, EOS and 6 PADs, of length 10.  A source with 9
    content tokens raises; more generally, a source with more than
    [seq_len - 2] tokens or a target with more than [seq_len - 1] tokens
    raises [ValueError] and nothing is returned. *)
Theorem getitem_padding_and_length_error (index : nat) (src tgt : string) :
  nth_error (ds self) index = Some (src, tgt) ->
  (seq_len self = 10%Z -> tokenizer_src self src = [7; 9]%Z ->
   enc_num_padding_tokens self (tokenizer_src self src) = 6%Z /\
   ((length (tokenizer_tgt self tgt) <= 9)%nat ->
    exists s,
      __getitem__ self index = inr s /\
      encoder_input s
      = [sos_token self; 7; 9; eos_token self]%Z ++ repeat (pad_token self) 6 /\
      length (encoder_input s) = 10%nat)) /\
  (seq_len self = 10%Z -> length (tokenizer_src self src) = 9%nat ->
   __getitem__ self index = inl too_long) /\
  ((Z.of_nat (length (tokenizer_src self src)) > seq_len self - 2
    \/ Z.of_nat (length (tokenizer_tgt self tgt)) > seq_len self - 1)%Z ->
   __getitem__ self index = inl too_long).
Proof.
  intros Hnth. split; [|split].
  - intros Hlen Hsrc.
    assert (He : enc_num_padding_tokens self (tokenizer_src self src) = 6%Z).
    { unfold enc_num_padding_tokens. rewrite Hsrc, Hlen. reflexivity. }
    split; [exact He|]. intros Htgt.
    eexists. split.
    + apply getitem_fits with (1 := Hnth).
      * lia.
      * unfold dec_num_padding_tokens. lia.
    + unfold assembled, pads. cbn [encoder_input]. rewrite He, Hsrc. simpl. auto.
  - intros Hlen Hsrc. apply getitem_too_long with (1 := Hnth).
    left. unfold enc_num_padding_tokens. lia.
  - intros H. apply getitem_too_long with (1 := Hnth).
    unfold enc_num_padding_tokens, dec_num_padding_tokens. lia.
Qed.

(** C5.  In every sample returned, the encoder mask is the padding mask of
    the encoder input alone, and the decoder mask is one plane whose entry
    (i, j) is the AND of the padding bit of position j of the decoder input
    (true exactly when that token is not PAD) with the entry (i, j) of the
    causal mask; the causal mask of any size is true at (i, j) exactly
    when [j <= i]. *)
Theorem getitem_masks (index : nat) (s : sample) :
  __getitem__ self index = inr s ->
  let n := length (decoder_input s) in
  let not_pad (x : list Z) (j : nat) := negb (nth j x 0 =? pad_token self)%Z in
  (exists row,
     encoder_mask s = [row] /\
     length row = length (encoder_input s) /\
     forall j, (j < length (encoder_input s))%nat ->
               nth j row 0%Z = Z.b2z (not_pad (encoder_input s) j)) /\
  (exists plane causal,
     decoder_mask s = [plane] /\
     causal_mask n = [causal] /\
     length plane = n /\
     (forall i, (i < n)%nat -> length (nth i plane []) = n) /\
     forall i j, (i < n)%nat -> (j < n)%nat ->
       nth j (nth i plane []) 0%Z
       = Z.b2z (not_pad (decoder_input s) j && nth j (nth i causal []) false)) /\
  (forall size, exists causal,
     causal_mask size = [causal] /\
     length causal = size /\
     (forall i, (i < size)%nat -> length (nth i causal []) = size) /\
     forall i j, (i < size)%nat -> (j < size)%nat ->
       nth j (nth i causal []) false = (j <=? i)%nat).
Proof.
  intros H n not_pad.
  destruct (getitem_inv _ H) as (src & tgt & Hnth & He & Hd & ->).
  set (f := fun tok => Z.b2z (negb (tok =? pad_token self)%Z)).
  assert (Hrow : forall (x : list Z) j, (j < length x)%nat ->
                   nth j (map f x) 0%Z = Z.b2z (not_pad x j)).
  { intros x j Hj. rewrite nth_indep with (d' := f 0%Z)
      by now rewrite length_map.
    rewrite map_nth. reflexivity. }
  split; [|split].
  - eexists. cbn [encoder_mask]. unfold padding_mask.
    split; [reflexivity|]. split; [apply length_map|]. apply Hrow.
  - destruct (and_broadcast_causal (map f (decoder_input (assembled src tgt))))
      as (plane & causal & Hp & Hc & Hlen & Hrows & Hent).
    rewrite length_map in Hp, Hc, Hlen, Hrows, Hent.
    exists plane, causal. subst n.
    split; [exact Hp|]. split; [exact Hc|]. split; [exact Hlen|].
    split; [exact Hrows|].
    intros i j Hi Hj. rewrite Hent by assumption.
    rewrite Hrow by assumption. apply land_b2z.
  - intros size. apply causal_mask_plane.
Qed.

End GetItem.

(** ** Results of [mapM] *)

Lemma mapM_inr {A B : Type} (f : A -> Result B) (xs : list A) (ys : list B) :
  mapM f xs = inr ys <-> Forall2 (fun x y => f x = inr y) xs ys.
Proof.
  revert ys; induction xs as [|x xs IH]; intros ys; simpl.
  - split.
    + intros H; inversion H; constructor.
    + intros H; inversion H; reflexivity.
  - unfold bind, ret. split.
    + destruct (f x) as [e|y] eqn:Hfx; [discriminate|].
      destruct (mapM f xs) as [e|ys'] eqn:Hm; [discriminate|].
      intros H; inversion H; subst. constructor; [assumption|].
      now apply IH.
    + intros H; inversion H as [|x' y xs' ys' Hy Hrest]; subst.
      rewrite Hy. apply IH in Hrest. now rewrite Hrest.
Qed.

Lemma mapM_total {A B : Type} (f : A -> Result B) (xs : list A) :
  Forall (fun x => exists y, f x = inr y) xs ->
  exists ys, mapM f xs = inr ys.
Proof.
  induction 1 as [|x xs [y Hy] _ [ys Hys]]; simpl.
  - now exists [].
  - exists (y :: ys). now rewrite Hy, Hys.
Qed.

Lemma Forall2_length_eq {A B : Type} (R : A -> B -> Prop) (xs : list A) (ys : list B) :
  Forall2 R xs ys -> length xs = length ys.
Proof. induction 1; simpl; congruence. Qed.

Lemma Forall2_Forall_r {A B : Type} (R : A -> B -> Prop) (Q : B -> Prop)
      (xs : list A) (ys : list B) :
  Forall2 R xs ys -> (forall x y, In x xs -> R x y -> Q y) -> Forall Q ys.
Proof.
  induction 1 as [|x y xs ys Hxy _ IH]; intros HQ; constructor.
  - apply (HQ x y); [now left|assumption].
  - apply IH. intros x' y' Hin. apply HQ. now right.
Qed.

Lemma Forall2_impl_in {A B : Type} (R R' : A -> B -> Prop)
      (xs : list A) (ys : list B) :
  Forall2 R xs ys -> (forall x y, In x xs -> R x y -> R' x y) ->
  Forall2 R' xs ys.
Proof.
  induction 1 as [|x y xs ys Hxy _ IH]; intros HR; constructor.
  - apply HR; [now left|assumption].
  - apply IH. intros x' y' Hin. apply HR. now right.
Qed.

Lemma Forall2_map_r {A B C : Type} (R : A -> C -> Prop) (g : B -> C)
      (xs : list A) (ys : list B) :
  Forall2 (fun x y => R x (g y)) xs ys -> Forall2 R xs (map g ys).
Proof. induction 1; simpl; constructor; assumption. Qed.

(** ** InputEmbeddings.forward *)

Section Embedding.
Import InputEmbeddings.

Variable self : t.
Hypothesis Hwf : wf self.

Lemma lookup_in_range (id : Z) :
  (0 <= id < Z.of_nat (vocab_size self))%Z ->
  exists row,
    lookup self id = inr row /\
    nth_error (embedding self) (Z.to_nat id) = Some row /\
    length row = d_model self.
Proof.
  intros Hid. destruct Hwf as [Hlen Hrows]. unfold lookup.
  destruct (Z.ltb_spec id 0); [lia|].
  destruct (nth_error (embedding self) (Z.to_nat id)) as [row|] eqn:Hnth.
  - exists row. repeat split.
    rewrite Forall_forall in Hrows. apply Hrows.
    eapply nth_error_In; eassumption.
  - apply nth_error_None in Hnth. lia.
Qed.

Lemma lookup_out_of_range (id : Z) :
  ~ (0 <= id < Z.of_nat (vocab_size self))%Z ->
  lookup self id = inl IndexError.
Proof.
  intros Hid. destruct Hwf as [Hlen _]. unfold lookup.
  destruct (Z.ltb_spec id 0); [reflexivity|].
  destruct (nth_error (embedding self) (Z.to_nat id)) as [row|] eqn:Hnth;
    [|reflexivity].
  assert (Hlt : (Z.to_nat id < length (embedding self))%nat).
  { apply nth_error_Some. congruence. }
  lia.
Qed.

(** C6.  For ids of shape (batch, seq_len), all inside [0, vocab_size), the
    forward pass returns a tensor of shape (batch, seq_len, d_model), and
    the vector at each position is the embedding row of the id at that
    position with every entry multiplied by [sqrt d_model]. *)
Theorem InputEmbeddings_forward_scaled_lookup
        (x : list (list Z)) (batch seq_len : nat) :
  has_shape2 x batch seq_len ->
  Forall (Forall (fun id => (0 <= id < Z.of_nat (vocab_size self))%Z)) x ->
  exists y,
    forward self x = inr y /\
    has_shape3 y batch seq_len (d_model self) /\
    Forall2 (Forall2 (fun id v =>
                        exists row,
                          nth_error (embedding self) (Z.to_nat id) = Some row /\
                          v = map (fun w => (w * sqrt (INR (d_model self)))%R) row))
            x y.
Proof.
  intros [Hb Hs] Hids.
  assert (Hrow : forall ids, Forall (fun id => (0 <= id < Z.of_nat (vocab_size self))%Z) ids ->
                 exists vs, mapM (lookup self) ids = inr vs).
  { intros ids Hin. apply mapM_total.
    eapply Forall_impl; [|exact Hin]. intros id Hid.
    destruct (lookup_in_range Hid) as (row & Hl & _). now exists row. }
  destruct (mapM_total (mapM (lookup self)) (xs := x)) as [e He].
  { eapply Forall_impl; [|exact Hids]. exact Hrow. }
  unfold forward. rewrite He. unfold bind, ret.
  eexists. split; [reflexivity|].
  set (scale := map (fun w => (w * sqrt (INR (d_model self)))%R)).
  apply mapM_inr in He.
  assert (Hval : Forall2 (Forall2 (fun id v =>
                   exists row,
                     nth_error (embedding self) (Z.to_nat id) = Some row /\
                     length row = d_model self /\ v = scale row))
                   x (map (map scale) e)).
  { apply Forall2_map_r.
    eapply Forall2_impl_in; [exact He|]. intros ids vs Hin Hm.
    apply Forall2_map_r. apply mapM_inr in Hm.
    eapply Forall2_impl_in; [exact Hm|]. intros id v Hin' Hl.
    rewrite Forall_forall in Hids. specialize (Hids _ Hin).
    rewrite Forall_forall in Hids. specialize (Hids _ Hin').
    destruct (lookup_in_range Hids) as (row & Hl' & Hnth & Hlen).
    exists row. repeat split; try assumption. congruence. }
  split.
  - split.
    + rewrite <- (Forall2_length_eq Hval). exact Hb.
    + eapply Forall2_Forall_r; [exact Hval|]. intros ids m Hin Hm. split.
      * rewrite <- (Forall2_length_eq Hm).
        rewrite Forall_forall in Hs. now apply Hs.
      * eapply Forall2_Forall_r; [exact Hm|].
        intros id v _ (row & _ & Hlen & ->). unfold scale.
        now rewrite length_map.
  - eapply Forall2_impl_in; [exact Hval|]. intros ids m _ Hm.
    eapply Forall2_impl_in; [exact Hm|].
    intros id v _ (row & Hnth & _ & ->). exists row. now split.
Qed.

End Embedding.

(** ** softmax and log_softmax *)

Local Open Scope R_scope.

Lemma sum_map_div (f : R -> R) (s : R) (xs : list R) :
  sum (map (fun x => f x / s) xs) = sum (map f xs) / s.
Proof.
  induction xs as [|x xs IH]; simpl.
  - unfold Rdiv. now rewrite Rmult_0_l.
  - rewrite IH. unfold Rdiv. ring.
Qed.

Lemma sum_exp_nonneg (xs : list R) : 0 <= sum (map exp xs).
Proof.
  induction xs as [|x xs IH]; simpl; [lra|].
  pose proof (exp_pos x). lra.
Qed.

Lemma sum_exp_pos (xs : list R) : xs <> [] -> 0 < sum (map exp xs).
Proof.
  destruct xs as [|x xs]; [congruence|]. intros _. simpl.
  pose proof (exp_pos x). pose proof (sum_exp_nonneg xs). lra.
Qed.

Lemma softmax_length (xs : list R) : length (softmax xs) = length xs.
Proof. unfold softmax. apply length_map. Qed.

Lemma softmax_sum (xs : list R) : xs <> [] -> sum (softmax xs) = 1.
Proof.
  intros Hne. unfold softmax.
  rewrite (sum_map_div exp). pose proof (sum_exp_pos Hne).
  field. lra.
Qed.

Lemma exp_log_softmax (xs : list R) :
  xs <> [] -> map exp (log_softmax xs) = softmax xs.
Proof.
  intros Hne. pose proof (sum_exp_pos Hne) as Hs.
  unfold log_softmax, softmax. rewrite !map_map.
  apply map_ext. intros x. apply exp_ln.
  apply Rdiv_lt_0_compat; [apply exp_pos|exact Hs].
Qed.

Lemma log_softmax_length (xs : list R) : length (log_softmax xs) = length xs.
Proof. unfold log_softmax. now rewrite length_map, softmax_length. Qed.

Local Close Scope R_scope.

(** ** ProjectionLayer.forward *)

Section Projection.
Import ProjectionLayer.

Variable self : t.
Hypothesis Hwf : Linear.wf (proj self).

Lemma linear_row_shape (xv : tensor1) :
  length xv = Linear.in_features (proj self) ->
  exists z,
    Linear.forward_row (proj self) xv = inr z /\
    z = zip_with (fun w b => (dot xv w + b)%R)
                 (Linear.weight (proj self)) (Linear.bias (proj self)) /\
    length z = Linear.out_features (proj self).
Proof.
  intros Hlen. destruct Hwf as (Hw & _ & Hb).
  unfold Linear.forward_row. rewrite Hlen, Nat.eqb_refl.
  eexists. split; [reflexivity|]. split; [reflexivity|].
  rewrite zip_with_length. lia.
Qed.

(** C9.  For an input of shape (batch, L, d_model) the projection returns a
    tensor of shape (batch, L, vocab_size) whose vector at each position is
    the log-softmax of the linear map [x @ W.T + b] of the input vector at
    that position; when the vocabulary is not empty, the exponentials of
    each such vector sum to 1. *)
Theorem ProjectionLayer_forward_log_softmax (x : tensor3) (batch L : nat) :
  has_shape3 x batch L (Linear.in_features (proj self)) ->
  exists y,
    forward self x = inr y /\
    has_shape3 y batch L (Linear.out_features (proj self)) /\
    Forall2 (Forall2 (fun xv yv =>
                        yv = log_softmax
                               (zip_with (fun w b => (dot xv w + b)%R)
                                         (Linear.weight (proj self))
                                         (Linear.bias (proj self)))))
            x y /\
    ((0 < Linear.out_features (proj self))%nat ->
     Forall (Forall (fun yv => sum (map exp yv) = 1%R)) y).
Proof.
  intros [Hb Hs].
  assert (Hrows : forall m, In m x ->
            exists zs, mapM (Linear.forward_row (proj self)) m = inr zs).
  { intros m Hin. apply mapM_total.
    rewrite Forall_forall in Hs. destruct (Hs _ Hin) as [_ Hd].
    eapply Forall_impl; [|exact Hd]. intros xv Hlen.
    destruct (linear_row_shape xv Hlen) as (z & Hz & _). now exists z. }
  destruct (mapM_total (mapM (Linear.forward_row (proj self))) (xs := x))
    as [lin Hlin].
  { apply Forall_forall. exact Hrows. }
  unfold forward, Linear.forward. rewrite Hlin. unfold bind, ret.
  exists (map (map log_softmax) lin). split; [reflexivity|].
  apply mapM_inr in Hlin.
  assert (Hval : Forall2 (Forall2 (fun xv yv =>
                   exists z,
                     z = zip_with (fun w b => (dot xv w + b)%R)
                                  (Linear.weight (proj self))
                                  (Linear.bias (proj self)) /\
                     length z = Linear.out_features (proj self) /\
                     yv = log_softmax z))
                   x (map (map log_softmax) lin)).
  { apply Forall2_map_r.
    eapply Forall2_impl_in; [exact Hlin|]. intros m zs Hin Hm.
    apply Forall2_map_r. apply mapM_inr in Hm.
    eapply Forall2_impl_in; [exact Hm|]. intros xv z Hin' Hz.
    rewrite Forall_forall in Hs. destruct (Hs _ Hin) as [_ Hd].
    rewrite Forall_forall in Hd.
    destruct (linear_row_shape xv (Hd _ Hin')) as (z' & Hz' & Heq & Hlen).
    exists z. assert (z = z') by congruence. subst z'.
    repeat split; auto; congruence. }
  split; [|split].
  - split.
    + rewrite <- (Forall2_length_eq Hval). exact Hb.
    + eapply Forall2_Forall_r; [exact Hval|]. intros m ys Hin Hm. split.
      * rewrite <- (Forall2_length_eq Hm).
        rewrite Forall_forall in Hs. now apply Hs.
      * eapply Forall2_Forall_r; [exact Hm|].
        intros xv yv _ (z & _ & Hlen & ->). now rewrite log_softmax_length.
  - eapply Forall2_impl_in; [exact Hval|]. intros m ys _ Hm.
    eapply Forall2_impl_in; [exact Hm|].
    intros xv yv _ (z & -> & _ & ->). reflexivity.
  - intros Hvocab.
    eapply Forall2_Forall_r; [exact Hval|]. intros m ys _ Hm.
    eapply Forall2_Forall_r; [exact Hm|].
    intros xv yv _ (z & _ & Hlen & ->).
    assert (Hne : z <> []).
    { intros ->. simpl in Hlen. lia. }
    rewrite (exp_log_softmax Hne). now apply softmax_sum.
Qed.

End Projection.

(** ** PositionalEncoding *)

Section Positional.
Import PositionalEncoding.

Lemma arange2_length (n : nat) : length (arange2 n) = ((n + 1) / 2)%nat.
Proof. unfold arange2. now rewrite length_map, length_seq. Qed.

Lemma div_term_length (d : nat) (step : R) :
  length (div_term d step) = ((d + 1) / 2)%nat.
Proof. unfold div_term. now rewrite length_map, arange2_length. Qed.

Lemma div_term_nth (d i : nat) (step : R) :
  (i < (d + 1) / 2)%nat ->
  nth i (div_term d step) 0%R = exp (INR (2 * i) * step)%R.
Proof.
  intros Hi. unfold div_term, arange2. rewrite map_map.
  rewrite nth_indep with (d' := exp (INR (2 * 0) * step)%R)
    by now rewrite length_map, length_seq.
  rewrite map_nth with (f := fun k => exp (INR (2 * k) * step)%R).
  now rewrite seq_nth.
Qed.

Lemma angles_length (dt : list R) (s : nat) : length (angles dt s) = s.
Proof. unfold angles, position. now rewrite !length_map, length_seq. Qed.

Lemma angles_nth (d s pos i : nat) (step : R) :
  (pos < s)%nat -> (i < (d + 1) / 2)%nat ->
  nth i (nth pos (angles (div_term d step) s) []) 0%R
  = (INR pos * exp (INR (2 * i) * step))%R.
Proof.
  intros Hpos Hi. unfold angles, position. rewrite map_map.
  rewrite nth_indep
    with (d' := map (fun dt => (INR 0 * dt)%R) (div_term d step))
    by now rewrite length_map, length_seq.
  rewrite map_nth
    with (f := fun p => map (fun dt => (INR p * dt)%R) (div_term d step)).
  rewrite seq_nth by assumption. simpl plus.
  rewrite nth_indep with (d' := (INR pos * 0)%R)
    by now rewrite length_map, div_term_length.
  rewrite map_nth with (f := fun dt => (INR pos * dt)%R).
  now rewrite div_term_nth.
Qed.

(** [pos * exp(2i * (-ln 10000 / d))] is [pos / 10000^(2i/d)]. *)
Lemma angle_as_power (pos a d : nat) :
  d <> 0%nat ->
  (INR pos * exp (INR a * (- ln 10000 / INR d))
   = INR pos / Rpower 10000 (INR a / INR d))%R.
Proof.
  intros Hd. unfold Rdiv at 2. f_equal.
  unfold Rpower. rewrite <- exp_Ropp. f_equal.
  field. now apply not_0_INR.
Qed.

Lemma angles_row_length (d s pos : nat) (step : R) :
  (pos < s)%nat ->
  length (nth pos (angles (div_term d step) s) []) = ((d + 1) / 2)%nat.
Proof.
  intros Hpos. unfold angles, position. rewrite map_map.
  rewrite nth_indep
    with (d' := map (fun dt => (INR 0 * dt)%R) (div_term d step))
    by now rewrite length_map, length_seq.
  rewrite map_nth
    with (f := fun p => map (fun dt => (INR p * dt)%R) (div_term d step)).
  now rewrite length_map, div_term_length.
Qed.

(** Entry (pos, i) of [f(position * div_term)], read with any default. *)
Lemma map_angles_nth (f : R -> R) (d s pos i : nat) (dflt : R) :
  (pos < s)%nat -> (2 * i + 1 < d)%nat ->
  nth i (nth pos (map (map f)
                      (angles (div_term d (- ln 10000 / INR d)%R) s)) []) dflt
  = f (INR pos / Rpower 10000 (INR (2 * i) / INR d))%R.
Proof.
  intros Hpos Hi.
  assert (Hc : (i < (d + 1) / 2)%nat).
  { pose proof (Nat.div_mod_eq (d + 1) 2).
    pose proof (Nat.mod_upper_bound (d + 1) 2). lia. }
  change (@nil R) with (map f []). rewrite map_nth.
  rewrite nth_indep with (d' := f 0%R)
    by now rewrite length_map, angles_row_length.
  rewrite map_nth, angles_nth by assumption.
  rewrite angle_as_power by lia. reflexivity.
Qed.

(** The column of the source that lands in column [2i] or [2i + 1]. *)
Lemma source_column (d i : nat) (step : R) :
  (2 * i + 1 < d)%nat ->
  (if (length (div_term d step) =? 1)%nat then 0%nat else (2 * i / 2)%nat)
  = i.
Proof.
  intros Hi. rewrite div_term_length.
  replace (2 * i)%nat with (i * 2)%nat by lia. rewrite Nat.div_mul by lia.
  destruct (Nat.eqb_spec ((d + 1) / 2) 1) as [H1|_]; [|reflexivity].
  pose proof (Nat.div_mod_eq (d + 1) 2).
  pose proof (Nat.mod_upper_bound (d + 1) 2). lia.
Qed.

Lemma zeros_shape (rows cols pos : nat) :
  length (zeros rows cols) = rows /\
  ((pos < rows)%nat -> nth pos (zeros rows cols) [] = repeat 0%R cols).
Proof.
  unfold zeros. split; [apply repeat_length|]. intros H.
  now apply nth_repeat_lt.
Qed.

(** What [pe[:, start::2] = src] leaves at row [pos], column [j]. *)
Lemma setitem_cols_entry (start : nat) (pe : tensor2) (cols : nat)
      (src : tensor2) (src_cols : nat) (pe' : tensor2) (pos j : nat) :
  setitem_cols start pe cols src src_cols = inr pe' ->
  (pos < length pe)%nat -> (pos < length src)%nat ->
  (j < length (nth pos pe []))%nat ->
  length pe' = Nat.min (length pe) (length src) /\
  length (nth pos pe' []) = length (nth pos pe []) /\
  nth j (nth pos pe' []) 0%R
  = if (start <=? j)%nat && Nat.even (j - start)
    then nth (if (src_cols =? 1)%nat then 0%nat else ((j - start) / 2)%nat)
             (nth pos src []) (nth j (nth pos pe []) 0%R)
    else nth j (nth pos pe []) 0%R.
Proof.
  unfold setitem_cols. intros H Hpe Hsrc Hj.
  destruct ((src_cols =? (cols - start + 1) / 2)%nat || (src_cols =? 1)%nat);
    [|discriminate].
  injection H as <-.
  split; [apply zip_with_length|].
  rewrite nth_zip_with with (da := []) (db := []) by assumption.
  split; [apply mapi_length|].
  now rewrite nth_mapi with (d := 0%R).
Qed.

(** [d_model = 0] stops the construction at the division. *)
Lemma init_zero (s : nat) (dropout : tensor3 -> tensor3) :
  __init__ 0 s dropout = raise ZeroDivisionError.
Proof. reflexivity. Qed.

(** For [d_model <> 0] the division gives the step of the exponents. *)
Lemma log_step_nonzero (d : nat) :
  d <> 0%nat -> log_step d = ret (- ln 10000 / INR d)%R.
Proof.
  intros Hd. unfold log_step. now destruct (Nat.eqb_spec d 0).
Qed.

(** The construction succeeds for every even [d_model] other than 0. *)
Lemma init_even (d s : nat) (dropout : tensor3 -> tensor3) :
  d <> 0%nat -> Nat.even d = true -> exists m, __init__ d s dropout = inr m.
Proof.
  intros Hd Hev. unfold __init__. rewrite (log_step_nonzero Hd).
  cbn [bind ret]. unfold setitem_cols.
  rewrite div_term_length, Nat.sub_0_r, Nat.eqb_refl. cbn [orb bind ret].
  assert (Hc : ((d + 1) / 2 = (d - 1 + 1) / 2)%nat).
  { apply Nat.even_spec in Hev. destruct Hev as [k ->].
    destruct k as [|k]; [reflexivity|].
    replace (2 * S k - 1 + 1)%nat with (S k * 2)%nat by lia.
    replace (2 * S k + 1)%nat with (1 + S k * 2)%nat by lia.
    rewrite Nat.div_add, Nat.div_mul by lia. reflexivity. }
  rewrite <- Hc, Nat.eqb_refl. cbn [orb bind ret]. eexists; reflexivity.
Qed.

(** C7.  The table is a function of [d_model] and [seq_len] alone: the
    construction succeeds for every even [d_model] other than 0 (for
    [d_model = 0] the division by [d_model] raises [ZeroDivisionError] and
    there is no table), and whenever it
    succeeds the buffer holds one [seq_len]-row table with
    [PE[pos, 2i] = sin(pos / 10000^(2i/d_model))] and
    [PE[pos, 2i+1] = cos(pos / 10000^(2i/d_model))] for [pos < seq_len] and
    [i < d_model / 2], so the squares of each such pair sum to 1; any
    other construction with the same sizes yields the same buffer. *)
Theorem PositionalEncoding_table (d s : nat) (dropout : tensor3 -> tensor3) :
  (d = 0%nat -> __init__ d s dropout = raise ZeroDivisionError) /\
  (d <> 0%nat -> Nat.even d = true ->
   exists m, __init__ d s dropout = inr m) /\
  forall m, __init__ d s dropout = inr m ->
    (exists table,
       pe m = [table] /\
       length table = s /\
       forall pos i, (pos < s)%nat -> (i < d / 2)%nat ->
         let even_entry := nth (2 * i) (nth pos table []) 0%R in
         let odd_entry := nth (2 * i + 1) (nth pos table []) 0%R in
         even_entry = sin (INR pos / Rpower 10000 (INR (2 * i) / INR d)) /\
         odd_entry = cos (INR pos / Rpower 10000 (INR (2 * i) / INR d)) /\
         (even_entry * even_entry + odd_entry * odd_entry = 1)%R) /\
    forall dropout' m', __init__ d s dropout' = inr m' -> pe m' = pe m.
Proof.
  split; [intros ->; apply init_zero|].
  split; [apply init_even|].
  intros m Hm.
  assert (Hd0 : d <> 0%nat).
  { intros ->. rewrite init_zero in Hm. discriminate Hm. }
  pose proof (log_step_nonzero Hd0) as Hstep.
  unfold __init__ in Hm. rewrite Hstep in Hm. cbn [bind ret] in Hm.
  set (step := (- ln 10000 / INR d)%R) in *.
  destruct (setitem_cols 0 (zeros s d) d
                         (map (map sin) (angles (div_term d step) s))
                         (length (div_term d step))) as [e|pe0] eqn:H0;
    [discriminate|].
  cbn [bind] in Hm.
  destruct (setitem_cols 1 pe0 d
                         (map (map cos) (angles (div_term d step) s))
                         (length (div_term d step))) as [e|pe1] eqn:H1;
    [discriminate|].
  cbn [bind ret] in Hm. injection Hm as <-. cbn [pe].
  split.
  - exists pe1. split; [reflexivity|].
    assert (Hsrc : forall f : R -> R,
               length (map (map f) (angles (div_term d step) s)) = s).
    { intros f. now rewrite length_map, angles_length. }
    assert (Hzl : length (zeros s d) = s) by apply (zeros_shape s d 0).
    assert (Hlen0 : length pe0 = s).
    { unfold setitem_cols in H0.
      destruct (_ || _) in H0; [|discriminate]. injection H0 as <-.
      rewrite zip_with_length, Hzl, Hsrc. apply Nat.min_id. }
    assert (Hlen1 : length pe1 = s).
    { unfold setitem_cols in H1.
      destruct (_ || _) in H1; [|discriminate]. injection H1 as <-.
      rewrite zip_with_length, Hlen0, Hsrc. apply Nat.min_id. }
    split; [exact Hlen1|].
    intros pos i Hpos Hi.
    assert (Hd : (2 * i + 1 < d)%nat).
    { pose proof (Nat.div_mod_eq d 2). lia. }
    assert (Hz : nth pos (zeros s d) [] = repeat 0%R d)
      by now apply zeros_shape.
    assert (Hzrow : length (nth pos (zeros s d) []) = d)
      by (rewrite Hz; apply repeat_length).
    assert (Hrow0 : length (nth pos pe0 []) = d).
    { destruct (@setitem_cols_entry _ _ _ _ _ _ pos 0%nat H0)
        as (_ & Hr & _); rewrite ?Hzl, ?Hsrc, ?Hzrow; try lia. }
    assert (Heven : nth (2 * i) (nth pos pe1 []) 0%R
                    = sin (INR pos / Rpower 10000 (INR (2 * i) / INR d))).
    { destruct (@setitem_cols_entry _ _ _ _ _ _ pos (2 * i)%nat H1)
        as (_ & _ & ->); rewrite ?Hlen0, ?Hsrc, ?Hrow0; try lia.
      destruct (@setitem_cols_entry _ _ _ _ _ _ pos (2 * i)%nat H0)
        as (_ & _ & ->); rewrite ?Hzl, ?Hsrc, ?Hzrow; try lia.
      assert (Hnot : (1 <=? 2 * i)%nat && Nat.even (2 * i - 1) = false).
      { destruct i as [|i]; [reflexivity|].
        replace (2 * S i - 1)%nat with (S (2 * i)) by lia.
        rewrite Nat.even_succ, Nat.odd_mul. reflexivity. }
      rewrite Hnot, Nat.sub_0_r, Nat.even_mul. cbn [Nat.leb Nat.even orb andb].
      rewrite source_column by assumption.
      now apply map_angles_nth. }
    assert (Hodd : nth (2 * i + 1) (nth pos pe1 []) 0%R
                   = cos (INR pos / Rpower 10000 (INR (2 * i) / INR d))).
    { destruct (@setitem_cols_entry _ _ _ _ _ _ pos (2 * i + 1)%nat H1)
        as (_ & _ & ->); rewrite ?Hlen0, ?Hsrc, ?Hrow0; try lia.
      replace (2 * i + 1 - 1)%nat with (2 * i)%nat by lia.
      rewrite Nat.even_mul.
      replace (1 <=? 2 * i + 1)%nat with true
        by (symmetry; apply Nat.leb_le; lia).
      cbn [Nat.even orb andb].
      rewrite source_column by assumption.
      now apply map_angles_nth. }
    cbv zeta. rewrite Heven, Hodd.
    split; [reflexivity|]. split; [reflexivity|].
    apply sin2_cos2.
  - intros dropout' m' Hm'. unfold __init__ in Hm'.
    rewrite Hstep in Hm'. cbn [bind ret] in Hm'. fold step in Hm'.
    rewrite H0 in Hm'. cbn [bind] in Hm'. rewrite H1 in Hm'.
    cbn [bind ret] in Hm'. injection Hm' as <-. reflexivity.
Qed.

End Positional.

(** ** LayerNormalization.forward *)

Section LayerNorm.
Import LayerNormalization.
Local Open Scope R_scope.

Lemma forward_row_normalized (self : t) (xs : list R) :
  forward_row self xs
  = map (fun n => alpha self + n + bias self) (normalized self xs).
Proof. unfold forward_row, normalized. now rewrite map_map. Qed.

(** C2 (the code departs from it).  [forward] ADDS [alpha] to the
    normalized value where the claim multiplies by it: on every input the
    result is [alpha + normalized + bias].  On the all-zero row [0; 0] with
    the initial parameters ([alpha = 1], [bias = 0]) the code returns
    [1; 1], and [alpha * normalized + bias] is [0; 0]. *)
Theorem LayerNormalization_forward_adds_alpha :
  (forall (self : t) (x : tensor3),
     forward self x
     = map (map (fun xs => map (fun n => alpha self + n + bias self)
                               (normalized self xs))) x) /\
  forward __init__ [[[0; 0]]] = [[[1; 1]]] /\
  spec_forward __init__ [[[0; 0]]] = [[[0; 0]]].
Proof.
  split; [|split].
  - intros self x. unfold forward.
    apply map_ext; intros m. apply map_ext; intros xs.
    apply forward_row_normalized.
  - unfold forward, forward_row, __init__; cbn [map alpha bias eps].
    unfold mean at 1 2; unfold sum; cbn [fold_right].
    repeat f_equal; unfold Rdiv; ring.
  - unfold spec_forward, spec_forward_row, normalized, __init__;
      cbn [map alpha bias eps].
    unfold mean at 1 2; unfold sum; cbn [fold_right].
    repeat f_equal; unfold Rdiv; ring.
Qed.

End LayerNorm.

(** ** MultiHeadAttentionBlock.attention *)

Section Attention.
Import MultiHeadAttentionBlock.
Local Open Scope R_scope.

(** The mask reaches the result only through the shape check of the
    dropped [masked_fill]: a call that returns with a mask returns what the
    call without a mask returns. *)
Lemma attention_mask_dropped (query key value : tensor4)
      (mask : list (list (list (list Z)))) (dropout : option (tensor4 -> tensor4))
      (r : tensor4 * tensor4) :
  attention query key value (Some mask) dropout = inr r ->
  attention query key value None dropout = inr r.
Proof.
  unfold attention.
  destruct (matmul4 query (map (map transpose) key)) as [e|qk]; cbn [bind];
    [discriminate|].
  destruct (masked_fill _ _ _) as [e|filled]; cbn [bind ret];
    [discriminate|].
  trivial.
Qed.

Lemma half_half : exp 0 / (exp 0 + (exp 0 + 0)) = / 2.
Proof. rewrite exp_0. field. Qed.

(** C1 (the code departs from it).  The scores are not filled where the
    mask is zero: a masked call that returns gives exactly the result of
    the unmasked call.  With two positions, all-zero queries and keys and
    the causal mask [[1; 0]; [1; 1]], the post-softmax weight of query 0 on
    the later key 1, where the mask is zero, is 1/2 and not close to 0. *)
Theorem attention_mask_not_applied :
  (forall (query key value : tensor4) (mask : list (list (list (list Z))))
          (dropout : option (tensor4 -> tensor4)) (r : tensor4 * tensor4),
     attention query key value (Some mask) dropout = inr r ->
     attention query key value None dropout = inr r) /\
  attention [[[[0]; [0]]]] [[[[0]; [0]]]] [[[[1]; [2]]]]
            (Some [[[[1; 0]; [1; 1]]]]%Z) None
  = inr ([[[[3 / 2]; [3 / 2]]]], [[[[/ 2; / 2]; [/ 2; / 2]]]]).
Proof.
  split; [exact attention_mask_dropped|].
  unfold attention, matmul4, masked_fill, map4, last_dim.
  cbn -[exp sqrt INR Rdiv Rmult Rplus Ropp Rinv pow].
  replace ((0 * 0 + 0) / sqrt (INR 1)) with 0 by (unfold Rdiv; ring).
  rewrite half_half. unfold ret.
  replace (/ 2 * 1 + (/ 2 * 2 + 0)) with (3 / 2) by field.
  reflexivity.
Qed.

End Attention.

(** ** Recorded runs *)

Section Traces.
Context {T Mask : Type} `{Torch T Mask}.

Lemma tbind_events {A B : Type} (m : traced Mask A) (k : A -> traced Mask B) :
  events (tbind m k)
  = events m ++ match result m with
                | inr a => events (k a)
                | inl _ => []
                end.
Proof.
  destruct m as [tr [e|a]]; simpl; [now rewrite app_nil_r|].
  now destruct (k a).
Qed.

Lemma tbind_result {A B : Type} (m : traced Mask A) (k : A -> traced Mask B) :
  result (tbind m k)
  = match result m with
    | inr a => result (k a)
    | inl e => inl e
    end.
Proof.
  destruct m as [tr [e|a]]; simpl; [reflexivity|]. now destruct (k a).
Qed.

Lemma traced_eta {A : Type} (m : traced Mask A) : m = (events m, result m).
Proof. now destruct m. Qed.

Lemma tbind_tret_l {A B : Type} (a : A) (k : A -> traced Mask B) :
  tbind (tret a) k = k a.
Proof. unfold tret, tbind, ret. now destruct (k a). Qed.

Lemma tbind_assoc {A B C : Type} (m : traced Mask A)
      (f : A -> traced Mask B) (g : B -> traced Mask C) :
  tbind (tbind m f) g = tbind m (fun a => tbind (f a) g).
Proof.
  destruct m as [tr [e|a]]; simpl; [reflexivity|].
  destruct (f a) as [tr' [e|b]]; simpl; [reflexivity|].
  destruct (g b) as [tr'' r]. now rewrite app_assoc.
Qed.

Lemma tbind_ext {A B : Type} (m : traced Mask A) (k k' : A -> traced Mask B) :
  (forall a, k a = k' a) -> tbind m k = tbind m k'.
Proof.
  intros Hk. destruct m as [tr [e|a]]; simpl; [reflexivity|]. now rewrite Hk.
Qed.

(** A property of every event of a run follows from the property on the
    parts of the run. *)
Lemma Forall_tbind {A B : Type} (Q : event Mask -> Prop)
      (m : traced Mask A) (k : A -> traced Mask B) :
  Forall Q (events m) -> (forall a, Forall Q (events (k a))) ->
  Forall Q (events (tbind m k)).
Proof.
  intros Hm Hk. rewrite tbind_events. apply Forall_app. split; [exact Hm|].
  destruct (result m); [constructor|apply Hk].
Qed.

Lemma Forall_lift {A : Type} (Q : event Mask -> Prop) (r : Result A) :
  Forall Q (events (lift r : traced Mask A)).
Proof. constructor. Qed.

Lemma Forall_tret {A : Type} (Q : event Mask -> Prop) (a : A) :
  Forall Q (events (tret a : traced Mask A)).
Proof. constructor. Qed.

Lemma Forall_tell (Q : event Mask -> Prop) (e : event Mask) :
  Q e -> Forall Q (events (tell e)).
Proof. intros He. constructor; [exact He|constructor]. Qed.

Lemma Forall_residual (Q : event Mask -> Prop) (rc : ResidualConnection.t T)
      (x : T) (sublayer : T -> traced Mask T) :
  (forall n, Forall Q (events (sublayer n))) ->
  Forall Q (events (ResidualConnection.forward rc x sublayer)).
Proof.
  intros Hs. unfold ResidualConnection.forward.
  apply Forall_tbind; [apply Forall_lift|]. intros n.
  apply Forall_tbind; [apply Hs|]. intros s. apply Forall_lift.
Qed.

(** The events of the encoder stack are self-attention calls with the
    encoder's mask. *)
Lemma encoder_events (self : Encoder.t T Mask) (x : T) (mask : Mask) :
  Forall (fun e => e = SelfAttention mask)
         (events (Encoder.forward self x mask)).
Proof.
  unfold Encoder.forward. apply Forall_tbind; [|intros; apply Forall_lift].
  generalize (Encoder.layers self) as layers. intros layers; revert x.
  induction layers as [|layer rest IH]; intros x; cbn [Encoder.run_layers].
  - apply Forall_tret.
  - apply Forall_tbind; [|intros; apply IH].
    unfold EncoderBlock.forward.
    apply Forall_tbind.
    { apply Forall_residual. intros n.
      apply Forall_tbind; [now apply Forall_tell|intros; apply Forall_lift]. }
    intros x1. apply Forall_tbind; [|intros; apply Forall_tret].
    apply Forall_residual. intros n. apply Forall_lift.
Qed.

(** The events of the decoder stack are self-attention calls with
    [tgt_mask] and cross-attention calls with [src_mask]. *)
Lemma decoder_events (self : Decoder.t T Mask) (x encoder_output : T)
      (src_mask tgt_mask : Mask) :
  Forall (fun e => e = SelfAttention tgt_mask \/ e = CrossAttention src_mask)
         (events (Decoder.forward self x encoder_output src_mask tgt_mask)).
Proof.
  unfold Decoder.forward. apply Forall_tbind; [|intros; apply Forall_lift].
  generalize (Decoder.layers self) as layers. intros layers; revert x.
  induction layers as [|layer rest IH]; intros x; cbn [Decoder.run_layers].
  - apply Forall_tret.
  - apply Forall_tbind; [|intros; apply IH].
    unfold DecoderBlock.forward.
    destruct (DecoderBlock.residual_connections layer) as [[rc0 rc1] rc2].
    apply Forall_tbind.
    { apply Forall_residual. intros n.
      apply Forall_tbind; [apply Forall_tell; now left|intros; apply Forall_lift]. }
    intros x1. apply Forall_tbind.
    { apply Forall_residual. intros n.
      apply Forall_tbind; [apply Forall_tell; now right|intros; apply Forall_lift]. }
    intros x2. apply Forall_tbind; [|intros; apply Forall_tret].
    apply Forall_residual. intros n. apply Forall_lift.
Qed.

End Traces.

(** ** Calls made by [Transformer.encode], [decode] and [project] *)

Section ModelCalls.
Context {T Mask : Type} `{Torch T Mask}.

Lemma tell_then_events {A : Type} (e : event Mask) (m : traced Mask A) :
  events (tell e ;;; m) = e :: events m.
Proof. now rewrite tbind_events. Qed.

Lemma tell_then_result {A : Type} (e : event Mask) (m : traced Mask A) :
  result (tell e ;;; m) = result m.
Proof. now rewrite tbind_result. Qed.

(** [Transformer.decode] records its own call first; everything after it
    is a self-attention call with [tgt_mask] or a cross-attention call with
    [src_mask]. *)
Lemma decode_events (model : Transformer.t T Mask) (encoder_output : T)
      (src_mask : Mask) (tgt : list (list Z)) (tgt_mask : Mask) :
  exists rest,
    events (Transformer.decode model encoder_output src_mask tgt tgt_mask)
    = DecodeCall src_mask tgt tgt_mask :: rest /\
    Forall (fun e => e = SelfAttention tgt_mask \/ e = CrossAttention src_mask)
           rest.
Proof.
  unfold Transformer.decode. rewrite tell_then_events.
  eexists. split; [reflexivity|].
  apply Forall_tbind; [apply Forall_lift|]. intros x.
  apply Forall_tbind; [apply Forall_lift|]. intros x'.
  apply decoder_events.
Qed.

Lemma encode_events (model : Transformer.t T Mask) (src : list (list Z))
      (src_mask : Mask) :
  exists rest,
    events (Transformer.encode model src src_mask)
    = EncodeCall src src_mask :: rest /\
    Forall (fun e => e = SelfAttention src_mask) rest.
Proof.
  unfold Transformer.encode. rewrite tell_then_events.
  eexists. split; [reflexivity|].
  apply Forall_tbind; [apply Forall_lift|]. intros x.
  apply Forall_tbind; [apply Forall_lift|]. intros x'.
  apply encoder_events.
Qed.

Lemma project_events (model : Transformer.t T Mask) (x : T) :
  events (Transformer.project model x) = [ProjectCall].
Proof. unfold Transformer.project. now rewrite tell_then_events. Qed.

Lemma decode_calls_app (tr tr' : list (event Mask)) :
  decode_calls (tr ++ tr') = decode_calls tr ++ decode_calls tr'.
Proof. apply flat_map_app. Qed.

Lemma loop_sizes_app (tr tr' : list (event Mask)) :
  loop_sizes (tr ++ tr') = loop_sizes tr ++ loop_sizes tr'.
Proof. apply flat_map_app. Qed.

(** Attention events are neither loop entries nor decode calls. *)
Lemma attention_only (tr : list (event Mask)) :
  Forall (fun e => exists m, e = SelfAttention m \/ e = CrossAttention m) tr ->
  decode_calls tr = [] /\ loop_sizes tr = [].
Proof.
  induction 1 as [|e tr [m [-> | ->]] _ [IH1 IH2]]; simpl; auto.
Qed.

End ModelCalls.

(** ** train_model *)

Section Training.
Context {T Mask : Type} `{Torch T Mask}.

(** What the claim says of one event of the forward pass on [batch]. *)
Let masked_by_decoder_mask (batch : Batch.t Mask) (e : event Mask) : Prop :=
  match e with
  | DecodeCall src_mask tgt tgt_mask =>
      src_mask = Batch.decoder_mask batch /\
      tgt_mask = Batch.decoder_mask batch /\
      tgt = Batch.decoder_input batch
  | CrossAttention mask => mask = Batch.decoder_mask batch
  | _ => True
  end.

Lemma train_forward_events (model : Transformer.t T Mask) (batch : Batch.t Mask) :
  Forall (masked_by_decoder_mask batch) (events (train_forward model batch)).
Proof.
  unfold train_forward. apply Forall_tbind.
  { destruct (encode_events model (Batch.encoder_input batch)
                            (Batch.encoder_mask batch)) as (rest & -> & Hrest).
    constructor; [exact I|].
    eapply Forall_impl; [|exact Hrest]. intros e ->. exact I. }
  intros encoder_output. apply Forall_tbind.
  { destruct (decode_events model encoder_output (Batch.decoder_mask batch)
                            (Batch.decoder_input batch)
                            (Batch.decoder_mask batch)) as (rest & -> & Hrest).
    constructor; [now repeat split|].
    eapply Forall_impl; [|exact Hrest]. intros e [-> | ->]; simpl; auto. }
  intros decoder_output. apply Forall_tbind; [|intros; apply Forall_tret].
  rewrite project_events. constructor; [exact I|constructor].
Qed.

(** C10.  In the training loop every call to [Transformer.decode] receives
    the batch's decoder mask both as [src_mask] and as [tgt_mask], and
    every cross-attention call of the pass receives that decoder mask; the
    call to [decode] is made whenever [encode] returns. *)
Theorem train_decode_gets_decoder_mask_twice :
  (forall (model : Transformer.t T Mask) (batch : Batch.t Mask),
     Forall (fun e =>
               match e with
               | DecodeCall src_mask tgt tgt_mask =>
                   src_mask = Batch.decoder_mask batch /\
                   tgt_mask = Batch.decoder_mask batch /\
                   tgt = Batch.decoder_input batch
               | CrossAttention mask => mask = Batch.decoder_mask batch
               | _ => True
               end)
            (events (train_forward model batch)) /\
     forall encoder_output,
       result (Transformer.encode model (Batch.encoder_input batch)
                                  (Batch.encoder_mask batch))
       = inr encoder_output ->
       decode_calls (events (train_forward model batch))
       = [(Batch.decoder_mask batch, Batch.decoder_input batch,
           Batch.decoder_mask batch)]) /\
  (forall optimizer_step (model : Transformer.t T Mask)
          (batches : list (Batch.t Mask)),
     Forall (fun e =>
               match e with
               | DecodeCall src_mask tgt tgt_mask =>
                   exists batch, In batch batches /\
                     src_mask = Batch.decoder_mask batch /\
                     tgt_mask = Batch.decoder_mask batch
               | CrossAttention mask =>
                   exists batch, In batch batches /\
                     mask = Batch.decoder_mask batch
               | _ => True
               end)
            (events (train_epoch optimizer_step model batches))).
Proof.
  split.
  - intros model batch. split; [apply train_forward_events|].
    intros encoder_output Henc. unfold train_forward.
    rewrite tbind_events, Henc.
    destruct (encode_events model (Batch.encoder_input batch)
                            (Batch.encoder_mask batch)) as (rest & -> & Hrest).
    rewrite decode_calls_app. cbn [decode_calls flat_map app].
    fold (decode_calls rest).
    assert (Hnone : decode_calls rest = []).
    { apply attention_only.
      eapply Forall_impl; [|exact Hrest]. intros e ->. eexists; now left. }
    rewrite Hnone.
    rewrite tbind_events.
    destruct (decode_events model encoder_output (Batch.decoder_mask batch)
                            (Batch.decoder_input batch)
                            (Batch.decoder_mask batch)) as (rest' & -> & Hrest').
    rewrite decode_calls_app. cbn [decode_calls flat_map app].
    fold (decode_calls rest').
    assert (Hnone' : decode_calls rest' = []).
    { apply attention_only.
      eapply Forall_impl; [|exact Hrest'].
      intros e [-> | ->]; eexists; [now left|now right]. }
    rewrite Hnone'.
    cbn [app]. f_equal.
    destruct (result (Transformer.decode _ _ _ _ _)) as [e|decoder_output];
      [reflexivity|].
    rewrite tbind_events, project_events.
    destruct (result (Transformer.project _ _)); reflexivity.
  - intros optimizer_step model batches. revert model.
    induction batches as [|batch rest IH]; intros model; cbn [train_epoch].
    + apply Forall_tret.
    + apply Forall_tbind.
      * eapply Forall_impl; [|apply train_forward_events].
        intros [] He; simpl in *; auto.
        -- exists batch. split; [now left|]. now destruct He as (-> & -> & _).
        -- exists batch. split; [now left|assumption].
      * intros proj_output. eapply Forall_impl; [|apply IH].
        intros [] He; auto.
        -- destruct He as (b & Hin & He). exists b. split; [now right|exact He].
        -- destruct He as (b & Hin & He). exists b. split; [now right|exact He].
Qed.

End Training.

(** ** greeedy_decode *)

Section Greedy.
Context {T Mask : Type} `{Torch T Mask}.

Variable model : Transformer.t T Mask.
Variable source_mask : Mask.
Variables tokenizer_src tokenizer_tgt : string -> Z.
Variable max_len : Z.

Let sos_idx : Z := tokenizer_tgt "[SOS]"%string.
Let eos_idx : Z := tokenizer_tgt "[EOS]"%string.

Let loop (encoder_output : T) (fuel : nat) (decoder_input : list Z) :=
  greeedy_decode_loop fuel model encoder_output source_mask eos_idx max_len
                      decoder_input.

(** The call to [model.decode] made with the decoder input [dec], as
    arguments and as an event. *)
Let call (dec : list Z) : Mask * list (list Z) * Mask :=
  (source_mask, [dec], type_as (causal_mask (length dec)) source_mask).

Let decode_event (dec : list Z) : event Mask :=
  DecodeCall source_mask [dec] (type_as (causal_mask (length dec)) source_mask).

Let quiet (tr : list (event Mask)) : Prop :=
  decode_calls tr = [] /\ loop_sizes tr = [].

Lemma loop_unfold (encoder_output : T) (fuel : nat) (dec : list Z) :
  loop encoder_output (S fuel) dec
  = (tell (LoopIteration (length dec)) ;;;
     if (Z.of_nat (length dec) =? max_len)%Z then tret (Some dec)
     else next <~ next_word model encoder_output source_mask dec ;;
          if (next =? eos_idx)%Z then tret (Some (dec ++ [next]))
          else loop encoder_output fuel (dec ++ [next])).
Proof.
  unfold loop. cbn [greeedy_decode_loop]. apply tbind_ext. intros _.
  destruct (Z.of_nat (length dec) =? max_len)%Z; [reflexivity|].
  unfold next_word. rewrite !tbind_assoc. apply tbind_ext. intros out.
  rewrite !tbind_assoc. apply tbind_ext. intros last.
  rewrite !tbind_assoc. apply tbind_ext. intros prob.
  rewrite !tbind_assoc. apply tbind_ext. intros next.
  now rewrite tbind_tret_l.
Qed.

Lemma next_word_events (encoder_output : T) (dec : list Z) :
  exists rest,
    events (next_word model encoder_output source_mask dec)
    = decode_event dec :: rest /\
    quiet rest.
Proof.
  unfold next_word. rewrite tbind_events.
  destruct (decode_events model encoder_output source_mask [dec]
                          (type_as (causal_mask (length dec)) source_mask))
    as (atts & -> & Hatts).
  rewrite <- app_comm_cons.
  eexists. split; [reflexivity|].
  assert (Hq : quiet atts).
  { apply attention_only. eapply Forall_impl; [|exact Hatts].
    intros e [-> | ->]; eexists; [now left|now right]. }
  destruct Hq as [Hq1 Hq2]. unfold quiet.
  rewrite decode_calls_app, loop_sizes_app, Hq1, Hq2. cbn [app].
  destruct (result (Transformer.decode _ _ _ _ _)) as [e|out];
    [now split|].
  rewrite tbind_events. cbn [events lift fst app result snd].
  destruct (select_last out) as [e|last]; [now split|].
  rewrite tbind_events, project_events.
  destruct (result (Transformer.project model last)) as [e|prob];
    [now split|].
  rewrite tbind_events. cbn [events lift fst app result snd].
  destruct (max_index prob); now split.
Qed.

(** One entry into the loop body: the three ways it can go on. *)
Lemma loop_S (encoder_output : T) (fuel : nat) (dec : list Z) :
  let r := loop encoder_output (S fuel) dec in
  let n := length dec in
  (Z.of_nat n = max_len /\
   events r = [LoopIteration n] /\ result r = inr (Some dec))
  \/
  (Z.of_nat n <> max_len /\
   exists rest, quiet rest /\
     ((exists e, events r = LoopIteration n :: decode_event dec :: rest /\
                 result r = inl e)
      \/
      (exists next, next = eos_idx /\
         events r = LoopIteration n :: decode_event dec :: rest /\
         result r = inr (Some (dec ++ [next])))
      \/
      (exists next, next <> eos_idx /\
         events r = LoopIteration n :: decode_event dec :: rest
                      ++ events (loop encoder_output fuel (dec ++ [next])) /\
         result r = result (loop encoder_output fuel (dec ++ [next]))))).
Proof.
  intros r n. subst r. rewrite loop_unfold.
  rewrite tell_then_events, tell_then_result. fold n.
  destruct (Z.eqb_spec (Z.of_nat n) max_len) as [Heq|Hne].
  { left. repeat split; assumption. }
  right. split; [assumption|].
  destruct (next_word_events encoder_output dec) as (rest & Hev & Hq).
  rewrite tbind_events, tbind_result, Hev. fold n.
  destruct (result (next_word model encoder_output source_mask dec))
    as [e|next].
  - exists rest. split; [exact Hq|]. left. exists e.
    rewrite app_nil_r. now split.
  - destruct (Z.eqb_spec next eos_idx) as [Heos|Hneos].
    + exists rest. split; [exact Hq|]. right; left. exists next.
      split; [assumption|]. cbn [events tret fst result snd ret].
      rewrite app_nil_r. now split.
    + exists rest. split; [exact Hq|]. right; right. exists next.
      split; [assumption|]. now split.
Qed.

(** The sizes at the entries into the loop body count up from the size of
    the first decoder input, never past [max_len]; with enough fuel the
    loop reaches a [break] or an exception. *)
Lemma loop_iterations (encoder_output : T) (fuel : nat) (dec : list Z) :
  let r := loop encoder_output fuel dec in
  let sizes := loop_sizes (events r) in
  sizes = seq (length dec) (length sizes) /\
  ((Z.of_nat (length dec) <= max_len)%Z ->
   (Z.of_nat (length dec) + Z.of_nat (length sizes) <= max_len + 1)%Z /\
   ((max_len - Z.of_nat (length dec) + 1 <= Z.of_nat fuel)%Z ->
    result r <> inr None)).
Proof.
  revert dec; induction fuel as [|fuel IH]; intros dec.
  - cbn. split; [reflexivity|]. intros Hle. split; [lia|]. intros; lia.
  - destruct (loop_S encoder_output fuel dec)
      as [(Hmax & Hev & Hres) | (Hmax & rest & [Hq1 Hq2] & Hcases)].
    + cbv zeta. rewrite Hev, Hres. cbn. split; [reflexivity|].
      intros _. split; [lia|]. intros _; discriminate.
    + destruct Hcases as [(e & Hev & Hres) | [(next & _ & Hev & Hres)
                                            | (next & _ & Hev & Hres)]];
        cbv zeta; rewrite Hev, Hres.
      * cbn [loop_sizes flat_map decode_event app]. fold (loop_sizes rest).
        rewrite Hq2. cbn. split; [reflexivity|].
        intros Hle. split; [lia|]. intros _; discriminate.
      * cbn [loop_sizes flat_map decode_event app]. fold (loop_sizes rest).
        rewrite Hq2. cbn. split; [reflexivity|].
        intros Hle. split; [lia|]. intros _; discriminate.
      * specialize (IH (dec ++ [next])). cbv zeta in IH.
        rewrite length_app in IH. cbn [length] in IH.
        destruct IH as [IHs IHb].
        cbn [loop_sizes flat_map decode_event app].
        fold (loop_sizes (rest ++ events (loop encoder_output fuel (dec ++ [next])))).
        rewrite loop_sizes_app, Hq2. cbn [app length seq].
        split.
        -- f_equal. rewrite IHs at 1. f_equal. lia.
        -- intros Hle. destruct IHb as [IHb1 IHb2]; [lia|].
           split; [lia|]. intros Hfuel. apply IHb2. lia.
Qed.

(** A returned sequence extends the first decoder input by the appended
    ids; the loop stopped on EOS or at [max_len], and at no earlier size
    and on no earlier id. *)
Lemma loop_returns (encoder_output : T) (fuel : nat) (dec out : list Z) :
  result (loop encoder_output fuel dec) = inr (Some out) ->
  exists ws,
    out = dec ++ ws /\
    ((ws <> [] /\ last ws 0%Z = eos_idx) \/ Z.of_nat (length out) = max_len) /\
    forall k, (k < length ws)%nat ->
      Z.of_nat (length dec + k) <> max_len /\
      ((S k < length ws)%nat -> nth k ws 0%Z <> eos_idx).
Proof.
  revert dec; induction fuel as [|fuel IH]; intros dec Hres.
  - discriminate.
  - destruct (loop_S encoder_output fuel dec)
      as [(Hmax & _ & Hr) | (Hmax & rest & _ & Hcases)].
    + rewrite Hr in Hres. injection Hres as <-.
      exists []. rewrite app_nil_r. split; [reflexivity|].
      split; [now right|]. intros k Hk. cbn in Hk. lia.
    + destruct Hcases as [(e & _ & Hr) | [(next & Heos & _ & Hr)
                                        | (next & Hneos & _ & Hr)]];
        rewrite Hr in Hres.
      * discriminate.
      * injection Hres as <-. exists [next]. split; [reflexivity|].
        split; [left; split; [discriminate|exact Heos]|].
        intros k Hk. cbn in Hk. assert (k = 0)%nat as -> by lia.
        rewrite Nat.add_0_r. split; [exact Hmax|]. cbn; lia.
      * destruct (IH _ Hres) as (ws & -> & Hend & Hearly).
        exists (next :: ws). rewrite <- app_assoc. split; [reflexivity|].
        split.
        -- destruct Hend as [[Hne Hlast] | Hlen]; [left|right].
           ++ split; [discriminate|]. destruct ws; [congruence|exact Hlast].
           ++ rewrite <- app_assoc in Hlen. exact Hlen.
        -- intros [|k] Hk; cbn [length nth] in *.
           ++ rewrite Nat.add_0_r. split; [exact Hmax|]. intros _. exact Hneos.
           ++ destruct (Hearly k) as [H1 H2]; [lia|].
              rewrite length_app in H1. cbn [length] in H1.
              split; [|intros; apply H2; lia].
              replace (length dec + S k)%nat with (length dec + 1 + k)%nat by lia.
              exact H1.
Qed.

(** The calls to [model.decode]: call number [i] carries the decoder input
    of size [length dec + i] and the causal mask of that size. *)
Lemma loop_decode_calls (encoder_output : T) (fuel : nat) (dec : list Z) :
  let r := loop encoder_output fuel dec in
  exists decs,
    decode_calls (events r) = map call decs /\
    (forall i, (i < length decs)%nat ->
               length (nth i decs []) = (length dec + i)%nat) /\
    forall out, result r = inr (Some out) ->
      length out = (length dec + length decs)%nat /\
      forall i, (i < length decs)%nat ->
                nth i decs [] = firstn (length dec + i) out.
Proof.
  revert dec; induction fuel as [|fuel IH]; intros dec; cbv zeta.
  - exists []. cbn. split; [reflexivity|]. split; [intros; lia|].
    intros out Hout. discriminate.
  - destruct (loop_S encoder_output fuel dec)
      as [(Hmax & Hev & Hres) | (Hmax & rest & [Hq1 Hq2] & Hcases)].
    + exists []. rewrite Hev, Hres. cbn. split; [reflexivity|].
      split; [intros; lia|]. intros out Hout. injection Hout as <-.
      split; [lia|intros; lia].
    + assert (Hone : forall tail,
                decode_calls (LoopIteration (length dec) :: decode_event dec
                                :: rest ++ tail)
                = call dec :: decode_calls tail).
      { intros tail. cbn [decode_calls flat_map decode_event app].
        fold (decode_calls (rest ++ tail)).
        now rewrite decode_calls_app, Hq1. }
      destruct Hcases as [(e & Hev & Hres) | [(next & _ & Hev & Hres)
                                            | (next & _ & Hev & Hres)]];
        rewrite Hev, Hres.
      * exists [dec]. rewrite <- (app_nil_r rest), Hone. cbn.
        split; [reflexivity|].
        split; [intros i Hi; assert (i = 0)%nat as -> by lia; cbn; lia|].
        intros out Hout; discriminate.
      * exists [dec]. rewrite <- (app_nil_r rest), Hone. cbn.
        split; [reflexivity|].
        split; [intros i Hi; assert (i = 0)%nat as -> by lia; cbn; lia|].
        intros out Hout. injection Hout as <-. rewrite length_app. cbn.
        split; [reflexivity|].
        intros i Hi. assert (i = 0)%nat as -> by lia. cbn [nth].
        rewrite Nat.add_0_r, firstn_app, Nat.sub_diag, firstn_all. cbn.
        now rewrite app_nil_r.
      * destruct (IH (dec ++ [next])) as (decs & Hcalls & Hlens & Houts).
        exists (dec :: decs). rewrite Hone, Hcalls. cbn [map].
        split; [reflexivity|]. rewrite length_app in Hlens. cbn [length] in Hlens.
        split.
        -- intros [|i] Hi; cbn [nth length] in *; [lia|].
           rewrite Hlens by lia. lia.
        -- intros out Hout. destruct (Houts out Hout) as [Hlen Hpre].
           rewrite length_app in Hlen, Hpre. cbn [length] in Hlen, Hpre.
           split; [cbn [length]; lia|].
           intros [|i] Hi; cbn [nth length] in *.
           ++ destruct (loop_returns _ _ _ Hout) as (ws & -> & _).
              rewrite <- app_assoc, Nat.add_0_r, firstn_app, Nat.sub_diag,
                firstn_all. cbn. now rewrite app_nil_r.
           ++ rewrite Hpre by lia. f_equal. lia.
Qed.

Lemma greeedy_decode_run (fuel : nat) (source : list (list Z)) :
  let r := greeedy_decode fuel model source source_mask tokenizer_src
                          tokenizer_tgt max_len in
  (exists e, result r = inl e /\
             loop_sizes (events r) = [] /\ decode_calls (events r) = [])
  \/
  (exists encoder_output,
     let l := loop encoder_output fuel [sos_idx] in
     result r = result l /\
     loop_sizes (events r) = loop_sizes (events l) /\
     decode_calls (events r) = decode_calls (events l)).
Proof.
  cbv zeta. unfold greeedy_decode. rewrite tbind_events, tbind_result.
  destruct (encode_events model source source_mask) as (rest & -> & Hrest).
  assert (Hq : decode_calls rest = [] /\ loop_sizes rest = []).
  { apply attention_only. eapply Forall_impl; [|exact Hrest].
    intros e ->. eexists; now left. }
  destruct Hq as [Hq1 Hq2].
  rewrite loop_sizes_app, decode_calls_app.
  cbn [loop_sizes decode_calls flat_map app].
  fold (loop_sizes rest). fold (decode_calls rest). rewrite Hq1, Hq2.
  destruct (result (Transformer.encode model source source_mask))
    as [e|encoder_output].
  - left. exists e. now repeat split.
  - right. exists encoder_output. now repeat split.
Qed.


(** C8.  Whatever the fuel, the calls to [model.decode] made by
    [greeedy_decode] are, in order, calls on decoder inputs of sizes 1, 2,
    3, ..., each with the causal mask of the size of ITS decoder input
    (converted to the type of the source mask).  When a sequence is
    returned, the inputs are its proper prefixes, so every mask is smaller
    than the final length. *)
Theorem greeedy_decode_mask_follows_length (fuel : nat) (source : list (list Z)) :
  let r := greeedy_decode fuel model source source_mask tokenizer_src
                          tokenizer_tgt max_len in
  exists decs,
    decode_calls (events r)
    = map (fun dec => (source_mask, [dec],
                       type_as (causal_mask (length dec)) source_mask)) decs /\
    (forall i, (i < length decs)%nat -> length (nth i decs []) = (1 + i)%nat) /\
    forall out, result r = inr (Some out) ->
      length out = (1 + length decs)%nat /\
      forall i, (i < length decs)%nat -> nth i decs [] = firstn (1 + i) out.
Proof.
  intros r.
  destruct (greeedy_decode_run fuel source)
    as [(e & Hres & _ & Hcalls) | (encoder_output & Hres & _ & Hcalls)];
    fold r in Hres, Hcalls; rewrite Hres, Hcalls.
  - exists []. split; [reflexivity|]. split; [cbn; intros; lia|].
    intros out Hout; discriminate.
  - destruct (loop_decode_calls encoder_output fuel [sos_idx])
      as (decs & Hc & Hlens & Houts).
    exists decs. split; [exact Hc|]. split; [exact Hlens|exact Houts].
Qed.

End Greedy.

(** ** The statements at the small instances *)

Lemma attention_mask_not_applied_witness :
  MultiHeadAttentionBlock.attention
    [[[[0]; [0]]]]%R [[[[0]; [0]]]]%R [[[[1]; [2]]]]%R None None
  = inr ([[[[3 / 2]; [3 / 2]]]]%R, [[[[/ 2; / 2]; [/ 2; / 2]]]]%R).
Proof.
  apply (proj1 attention_mask_not_applied) with (mask := [[[[1; 0]; [1; 1]]]]%Z).
  exact (proj2 attention_mask_not_applied).
Defined.

Lemma getitem_padding_and_length_error_witness :
  (exists s,
     BilingualDataset.__getitem__ Examples.dataset 0 = inr s /\
     BilingualDataset.encoder_input s = [2; 7; 9; 3; 1; 1; 1; 1; 1; 1]%Z /\
     length (BilingualDataset.encoder_input s) = 10%nat) /\
  BilingualDataset.__getitem__ Examples.long_dataset 0
  = inl BilingualDataset.too_long.
Proof.
  split.
  - destruct (@getitem_padding_and_length_error
                Examples.dataset 0 "a b" "c d e" eq_refl) as (H & _ & _).
    destruct (H eq_refl eq_refl) as [_ Hs]. apply Hs. simpl. lia.
  - destruct (@getitem_padding_and_length_error
                Examples.long_dataset 0 "a b" "c d e" eq_refl) as (_ & H & _).
    apply H; reflexivity.
Defined.

Lemma getitem_masks_witness :
  exists plane causal,
    BilingualDataset.decoder_mask Examples.small_sample = [plane] /\
    causal_mask 4 = [causal] /\
    nth 2 (nth 1 plane []) 0%Z
    = Z.b2z (negb (1 =? 1)%Z && nth 2 (nth 1 causal []) false).
Proof.
  destruct (@getitem_masks Examples.small_dataset 0 Examples.small_sample
                           eq_refl)
    as (_ & (plane & causal & Hp & Hc & _ & _ & Hent) & _).
  exists plane, causal. split; [exact Hp|]. split; [exact Hc|].
  apply (Hent 1 2)%nat; simpl; lia.
Defined.

Lemma InputEmbeddings_forward_scaled_lookup_witness :
  exists y,
    InputEmbeddings.forward Examples.embeddings [[0; 2]]%Z = inr y /\
    has_shape3 y 1 2 2.
Proof.
  assert (Hwf : InputEmbeddings.wf Examples.embeddings).
  { split; [reflexivity|]. repeat constructor. }
  assert (Hshape : has_shape2 [[0; 2]]%Z 1 2).
  { split; [reflexivity|]. repeat constructor. }
  assert (Hids : Forall (Forall (fun id =>
                   (0 <= id < Z.of_nat (InputEmbeddings.vocab_size
                                          Examples.embeddings))%Z))
                        [[0; 2]]%Z).
  { repeat constructor; simpl; lia. }
  destruct (@InputEmbeddings_forward_scaled_lookup Examples.embeddings Hwf
              _ _ _ Hshape Hids)
    as (y & Hy & Hs & _).
  exists y. split; [exact Hy|exact Hs].
Defined.

Lemma ProjectionLayer_forward_log_softmax_witness :
  exists y,
    ProjectionLayer.forward Examples.projection [[[1; 2]]]%R = inr y /\
    has_shape3 y 1 1 3 /\
    Forall (Forall (fun yv => sum (map exp yv) = 1%R)) y.
Proof.
  assert (Hwf : Linear.wf (ProjectionLayer.proj Examples.projection)).
  { split; [reflexivity|]. split; [repeat constructor|reflexivity]. }
  assert (Hshape : has_shape3 [[[1; 2]]]%R 1 1
                     (Linear.in_features (ProjectionLayer.proj Examples.projection))).
  { split; [reflexivity|]. repeat constructor. }
  assert (Hvocab : (0 < Linear.out_features
                          (ProjectionLayer.proj Examples.projection))%nat).
  { simpl. lia. }
  destruct (@ProjectionLayer_forward_log_softmax Examples.projection Hwf
              _ _ _ Hshape)
    as (y & Hy & Hs & _ & Hsum).
  exists y. split; [exact Hy|]. split; [exact Hs|exact (Hsum Hvocab)].
Defined.

Lemma PositionalEncoding_table_witness :
  PositionalEncoding.__init__ 0 3 (fun x => x) = raise ZeroDivisionError /\
  exists m table,
    PositionalEncoding.__init__ 4 3 (fun x => x) = inr m /\
    PositionalEncoding.pe m = [table] /\
    nth 2 (nth 1 table []) 0%R
    = sin (INR 1 / Rpower 10000 (INR 2 / INR 4)) /\
    nth 3 (nth 1 table []) 0%R
    = cos (INR 1 / Rpower 10000 (INR 2 / INR 4)).
Proof.
  split.
  { apply (proj1 (PositionalEncoding_table 0 3 (fun x => x))). reflexivity. }
  destruct (PositionalEncoding_table 4 3 (fun x => x)) as (_ & Hev & Htab).
  assert (Hd : 4%nat <> 0%nat) by lia.
  destruct (Hev Hd eq_refl) as [m Hm].
  destruct (Htab m Hm) as [(table & Hpe & _ & Hent) _].
  exists m, table. split; [exact Hm|]. split; [exact Hpe|].
  assert (H1 : (1 < 3)%nat) by lia.
  assert (H2 : (1 < 4 / 2)%nat) by (simpl; lia).
  destruct (Hent 1%nat 1%nat H1 H2) as (He & Ho & _).
  split; [exact He|exact Ho].
Defined.


Lemma greeedy_decode_mask_follows_length_witness :
  let r := greeedy_decode 5 Examples.model Examples.source
                          Examples.source_mask Examples.tokenizer
                          Examples.tokenizer 5 in
  exists decs,
    decode_calls (events r)
    = map (fun dec => (Examples.source_mask, [dec],
                       type_as (causal_mask (length dec)) Examples.source_mask))
          decs /\
    length [2; 1; 2; 3]%Z = (1 + length decs)%nat /\
    forall i, (i < length decs)%nat ->
              nth i decs [] = firstn (1 + i) [2; 1; 2; 3]%Z.
Proof.
  intros r.
  destruct (@greeedy_decode_mask_follows_length _ _ Examples.torch
              Examples.model Examples.source_mask Examples.tokenizer
              Examples.tokenizer 5%Z 5%nat Examples.source)
    as (decs & Hcalls & _ & Hout).
  exists decs. split; [exact Hcalls|].
  apply Hout. reflexivity.
Defined.

Lemma train_decode_gets_decoder_mask_twice_witness :
  decode_calls (events (train_forward Examples.model Examples.batch))
  = [(Batch.decoder_mask Examples.batch, Batch.decoder_input Examples.batch,
      Batch.decoder_mask Examples.batch)].
Proof.
  destruct (@train_decode_gets_decoder_mask_twice _ _ Examples.torch)
    as [Hbatch _].
  destruct (Hbatch Examples.model Examples.batch) as [_ Hdecode].
  apply (Hdecode 20%Z). reflexivity.
Defined.

(** * Further properties of the code *)

(** ** BilingualDataset: outcomes and layout of a sample *)

Section GetItemMore.
Import BilingualDataset.

Variable self : t.

(** The only exceptions of [__getitem__] are the [IndexError] of an index
    past the end and the [ValueError] of a sentence that does not fit: the
    three [assert] statements never fire.  A returned sample holds three
    sequences of exactly [seq_len] ids. *)
Theorem getitem_outcomes (index : nat) :
  ((__len__ self <= index)%nat -> __getitem__ self index = inl IndexError) /\
  (forall e, __getitem__ self index = inl e ->
             (e = IndexError /\ (__len__ self <= index)%nat) \/
             (e = too_long /\ (index < __len__ self)%nat)) /\
  (forall s, __getitem__ self index = inr s ->
             (index < __len__ self)%nat /\
             Z.of_nat (length (encoder_input s)) = seq_len self /\
             Z.of_nat (length (decoder_input s)) = seq_len self /\
             Z.of_nat (length (label s)) = seq_len self).
Proof.
  unfold __len__.
  destruct (nth_error (ds self) index) as [[src tgt]|] eqn:Hnth.
  - assert (Hlt : (index < length (ds self))%nat).
    { apply nth_error_Some. congruence. }
    split; [intros; lia|].
    destruct (Z.lt_ge_cases (enc_num_padding_tokens self (tokenizer_src self src)) 0)
      as [He|He].
    { rewrite (getitem_too_long self _ Hnth (or_introl He)).
      split; [intros e [= <-]; now right|discriminate]. }
    destruct (Z.lt_ge_cases (dec_num_padding_tokens self (tokenizer_tgt self tgt)) 0)
      as [Hd|Hd].
    { rewrite (getitem_too_long self _ Hnth (or_intror Hd)).
      split; [intros e [= <-]; now right|discriminate]. }
    rewrite (getitem_fits self _ Hnth He Hd).
    split; [discriminate|]. intros s [= <-]. split; [exact Hlt|].
    apply (assembled_lengths self src tgt He Hd).
  - assert (Hge : (length (ds self) <= index)%nat) by now apply nth_error_None.
    unfold __getitem__. rewrite Hnth.
    split; [reflexivity|]. split; [|discriminate].
    intros e [= <-]. now left.
Qed.

(** Teacher forcing: in a returned sample the decoder input starts with
    SOS, the label is the decoder input shifted left by one position over
    the target tokens, the label holds EOS right after them, and both are
    PAD from there on. *)
Theorem getitem_label_is_shifted_decoder_input (index : nat) (s : sample) :
  __getitem__ self index = inr s ->
  let m := length (tokenizer_tgt self (tgt_text s)) in
  nth 0 (decoder_input s) 0%Z = sos_token self /\
  (forall j, (j < m)%nat ->
             nth j (label s) 0%Z = nth (S j) (decoder_input s) 0%Z) /\
  nth m (label s) 0%Z = eos_token self /\
  (forall j, (m < j)%nat -> (Z.of_nat j < seq_len self)%Z ->
             nth j (label s) 0%Z = pad_token self /\
             nth j (decoder_input s) 0%Z = pad_token self).
Proof.
  intros H.
  destruct (getitem_inv self _ H) as (src & tgt & Hnth & He & Hd & ->).
  cbn [tgt_text decoder_input label]. cbv zeta.
  set (dec := tokenizer_tgt self tgt) in *.
  unfold dec_num_padding_tokens in Hd.
  set (k := Z.to_nat (dec_num_padding_tokens self dec)).
  assert (Hk : k = (Z.to_nat (seq_len self) - length dec - 1)%nat).
  { unfold k, dec_num_padding_tokens. lia. }
  split; [reflexivity|]. split; [|split].
  - intros j Hj. cbn [app nth]. now rewrite !app_nth1 by assumption.
  - rewrite app_nth2 by lia. now rewrite Nat.sub_diag.
  - intros j Hj Hlen. split.
    + rewrite app_nth2 by lia. cbn [app].
      destruct (j - length dec)%nat as [|i] eqn:Hi; [lia|]. cbn [nth].
      apply nth_repeat_lt. lia.
    + cbn [app]. destruct j as [|j]; [lia|]. cbn [nth].
      rewrite app_nth2 by lia. apply nth_repeat_lt. lia.
Qed.

(** When SOS and PAD are different ids, column 0 is attendable in every
    mask row of a returned sample: no query position has all its keys
    masked. *)
Theorem getitem_masks_keep_first_column (index : nat) (s : sample) :
  __getitem__ self index = inr s ->
  sos_token self <> pad_token self ->
  nth 0 (nth 0 (encoder_mask s) []) 0%Z = 1%Z /\
  forall i, (i < length (decoder_input s))%nat ->
            nth 0 (nth i (nth 0 (decoder_mask s) []) []) 0%Z = 1%Z.
Proof.
  intros H Hsos.
  destruct (getitem_inv self _ H) as (src & tgt & Hnth & He & Hd & ->).
  cbn [encoder_mask decoder_mask decoder_input]. cbv zeta.
  assert (Hbit : Z.b2z (negb (sos_token self =? pad_token self)%Z) = 1%Z).
  { destruct (Z.eqb_spec (sos_token self) (pad_token self)); [contradiction|].
    reflexivity. }
  split.
  - unfold padding_mask. cbn [app map nth]. exact Hbit.
  - set (dec_in := [sos_token self] ++ _ ++ _).
    intros i Hi. unfold padding_mask.
    destruct (and_broadcast_causal
                (map (fun tok => Z.b2z (negb (tok =? pad_token self)%Z)) dec_in))
      as (plane & causal & Hp & Hc & _ & _ & Hent).
    destruct (causal_mask_plane (length dec_in))
      as (causal' & Hc' & _ & _ & Hle).
    rewrite length_map in Hp, Hc, Hent.
    assert (causal' = causal) as -> by congruence.
    rewrite Hp. cbn [nth].
    rewrite Hent by (unfold dec_in in *; cbn [app length] in *; lia).
    rewrite Hle by (unfold dec_in in *; cbn [app length] in *; lia).
    unfold dec_in. cbn [app map nth]. rewrite Hbit. reflexivity.
Qed.

End GetItemMore.

(** ** causal_mask: masks of different sizes agree *)

Lemma matrix_ext {A : Type} (m m' : list (list A)) (d : A) :
  length m = length m' ->
  (forall i, (i < length m)%nat -> length (nth i m []) = length (nth i m' [])) ->
  (forall i j, (i < length m)%nat -> (j < length (nth i m []))%nat ->
               nth j (nth i m []) d = nth j (nth i m' []) d) ->
  m = m'.
Proof.
  intros Hlen Hrows Hent.
  apply nth_ext with (d := []) (d' := []); [exact Hlen|].
  intros i Hi.
  apply nth_ext with (d := d) (d' := d); [now apply Hrows|].
  intros j Hj. now apply Hent.
Qed.

(** The causal mask of size [k] is the top-left [k] by [k] block of the
    causal mask of any larger size [n]: the mask [greeedy_decode] builds for
    a decoder input of length [k] is what the full-length training mask
    shows to its first [k] positions. *)
Theorem causal_mask_prefix (k n : nat) :
  (k <= n)%nat ->
  causal_mask k
  = map (fun plane => map (firstn k) (firstn k plane)) (causal_mask n).
Proof.
  intros Hkn.
  destruct (causal_mask_plane k) as (pk & -> & Hlk & Hrk & Hek).
  destruct (causal_mask_plane n) as (pn & -> & Hln & Hrn & Hen).
  cbn [map]. f_equal.
  assert (Hrow : forall i, (i < k)%nat ->
            nth i (map (firstn k) (firstn k pn)) [] = firstn k (nth i pn [])).
  { intros i Hi.
    rewrite nth_indep with (d' := firstn k (@nil bool))
      by (rewrite length_map, length_firstn; lia).
    rewrite map_nth, nth_firstn.
    destruct (Nat.ltb_spec i k); [reflexivity|lia]. }
  apply matrix_ext with (d := false).
  - rewrite length_map, length_firstn. lia.
  - intros i Hi. rewrite Hlk in Hi. rewrite Hrow by assumption.
    rewrite length_firstn, Hrk, Hrn by lia. lia.
  - intros i j Hi Hj. rewrite Hlk in Hi. rewrite Hrk in Hj by assumption.
    rewrite Hrow by assumption. rewrite nth_firstn.
    destruct (Nat.ltb_spec j k); [|lia].
    rewrite Hek, Hen by lia. reflexivity.
Qed.

(** ** Failures of [mapM] *)

(** When every element either succeeds or raises [e], and some element
    raises, the whole traversal raises [e]. *)
Lemma mapM_inl {A B : Type} (f : A -> Result B) (e : Exception) (xs : list A) :
  Forall (fun x => f x = inl e \/ exists y, f x = inr y) xs ->
  Exists (fun x => f x = inl e) xs ->
  mapM f xs = inl e.
Proof.
  induction 1 as [|x xs Hx _ IH]; intros Hex; [inversion Hex|].
  cbn [mapM]. destruct Hx as [Hx | [y Hy]].
  - now rewrite Hx.
  - rewrite Hy. cbn [bind].
    inversion Hex as [? ? Hhead | ? ? Htail]; subst; [congruence|].
    now rewrite (IH Htail).
Qed.

(** ** InputEmbeddings: ids out of range *)

(** An id outside [0, vocab_size) anywhere in the input makes the whole
    forward pass raise [IndexError]: ids are neither clamped nor wrapped
    (a negative id does not index from the end). *)
Theorem InputEmbeddings_forward_index_error
        (self : InputEmbeddings.t) (x : list (list Z)) :
  InputEmbeddings.wf self ->
  Exists (Exists (fun id =>
                    ~ (0 <= id < Z.of_nat (InputEmbeddings.vocab_size self))%Z)) x ->
  InputEmbeddings.forward self x = inl IndexError.
Proof.
  intros Hwf Hbad.
  assert (Hid : forall id,
            InputEmbeddings.lookup self id = inl IndexError \/
            exists row, InputEmbeddings.lookup self id = inr row).
  { intros id.
    destruct (Z_lt_ge_dec id 0) as [Hneg|Hpos].
    - left. apply (lookup_out_of_range Hwf). lia.
    - destruct (Z_lt_ge_dec id (Z.of_nat (InputEmbeddings.vocab_size self))).
      + right. destruct (@lookup_in_range self Hwf id) as (row & Hrow & _);
          [lia|]. now exists row.
      + left. apply (lookup_out_of_range Hwf). lia. }
  assert (Hrow : forall ids,
            mapM (InputEmbeddings.lookup self) ids = inl IndexError \/
            exists rows, mapM (InputEmbeddings.lookup self) ids = inr rows).
  { induction ids as [|id ids IH]; [right; now exists []|].
    cbn [mapM]. destruct (Hid id) as [-> | [row ->]]; [now left|].
    cbn [bind]. destruct IH as [-> | [rows ->]]; [now left|].
    right. now eexists. }
  unfold InputEmbeddings.forward.
  rewrite (mapM_inl (mapM (InputEmbeddings.lookup self)) (e := IndexError));
    [reflexivity| |].
  - apply Forall_forall. intros ids _. apply Hrow.
  - eapply Exists_impl; [|exact Hbad]. intros ids Hids.
    apply mapM_inl; [|].
    + apply Forall_forall. intros id _. apply Hid.
    + eapply Exists_impl; [|exact Hids]. intros id Hout.
      now apply (lookup_out_of_range Hwf).
Qed.

(** ** Broadcasting zips *)

Lemma bzip_same {A B C : Type} (f : A -> B -> Result C) (a : list A) (b : list B) :
  length a = length b ->
  bzip f a b = mapM (fun p => f (fst p) (snd p)) (combine a b).
Proof. intros Hlen. unfold bzip. now rewrite Hlen, Nat.eqb_refl. Qed.

(** A one-element axis on the right is used for every element on the
    left, whatever the size on the left. *)
Lemma bzip_singleton_r {A B C : Type} (f : A -> B -> Result C) (a : list A) (y : B) :
  bzip f a [y] = mapM (fun x => f x y) a.
Proof. destruct a as [|x [|x' a]]; reflexivity. Qed.

Lemma bzip_mismatch {A B C : Type} (f : A -> B -> Result C) (a : list A) (b : list B) :
  length a <> length b -> (2 <= length a)%nat -> (2 <= length b)%nat ->
  bzip f a b = shape_error.
Proof.
  intros Hne Ha Hb. unfold bzip.
  destruct (Nat.eqb_spec (length a) (length b)); [contradiction|].
  destruct a as [|x [|x' a]]; cbn in Ha; try lia.
  destruct b as [|y [|y' b]]; cbn in Hb; try lia.
  reflexivity.
Qed.

Lemma mapM_ret {A B : Type} (f : A -> Result B) (g : A -> B) (xs : list A) :
  Forall (fun x => f x = inr (g x)) xs -> mapM f xs = inr (map g xs).
Proof.
  induction 1 as [|x xs Hx _ IH]; [reflexivity|].
  cbn [mapM map]. now rewrite Hx, IH.
Qed.

Lemma map_combine_zip_with {A B C : Type} (f : A -> B -> C) (a : list A) (b : list B) :
  map (fun p => f (fst p) (snd p)) (combine a b) = zip_with f a b.
Proof.
  revert b; induction a as [|x a IH]; intros [|y b]; cbn; [reflexivity..|].
  now rewrite IH.
Qed.

(** Two equally long axes zip elementwise when every pair succeeds. *)
Lemma bzip_zip_with {A B C : Type} (f : A -> B -> Result C) (g : A -> B -> C)
      (a : list A) (b : list B) :
  length a = length b ->
  (forall x y, In (x, y) (combine a b) -> f x y = inr (g x y)) ->
  bzip f a b = inr (zip_with g a b).
Proof.
  intros Hlen Hf. rewrite bzip_same by assumption.
  rewrite <- map_combine_zip_with. apply mapM_ret.
  apply Forall_forall. intros [x y] Hin. now apply Hf.
Qed.

Lemma In_firstn {A : Type} (n : nat) (xs : list A) (x : A) :
  In x (firstn n xs) -> In x xs.
Proof.
  revert n; induction xs as [|y xs IH]; intros [|n] Hin; cbn in *;
    try contradiction.
  destruct Hin as [-> | Hin]; [now left|right; eauto].
Qed.

(** ** PositionalEncoding: construction errors, bounds, and the forward pass *)

Section PositionalMore.
Import PositionalEncoding.
Local Open Scope R_scope.

(** An odd [d_model] of 3 or more cannot be constructed: the cosine block
    has one column more than the odd columns of the table, and the second
    slice assignment raises. *)
Theorem PositionalEncoding_init_odd_raises
        (d s : nat) (dropout : tensor3 -> tensor3) :
  Nat.odd d = true -> (3 <= d)%nat ->
  __init__ d s dropout = shape_error.
Proof.
  intros Hodd Hd. unfold __init__.
  rewrite log_step_nonzero by lia. cbn [bind ret]. unfold setitem_cols.
  rewrite div_term_length, Nat.sub_0_r, Nat.eqb_refl. cbn [orb bind ret].
  apply Nat.odd_spec in Hodd. destruct Hodd as [k ->].
  replace (2 * k + 1 + 1)%nat with ((k + 1) * 2)%nat by lia.
  replace (2 * k + 1 - 1 + 1)%nat with (1 + k * 2)%nat by lia.
  rewrite Nat.div_mul, Nat.div_add by lia. cbn [Nat.div Nat.divmod fst Nat.add].
  destruct (Nat.eqb_spec (k + 1) k); [lia|].
  destruct (Nat.eqb_spec (k + 1) 1); [lia|].
  reflexivity.
Qed.

Let bounded (v : R) : Prop := -1 <= v <= 1.

Lemma Forall_mapi {A B : Type} (P : A -> Prop) (Q : B -> Prop)
      (f : nat -> A -> B) (xs : list A) :
  Forall P xs -> (forall i x, P x -> Q (f i x)) -> Forall Q (mapi f xs).
Proof.
  intros Hxs Hf. unfold mapi. generalize 0%nat.
  induction Hxs as [|x xs Hx _ IH]; intros k; cbn; constructor; auto.
Qed.

Lemma Forall_zip_with {A B C : Type} (P : A -> Prop) (Q : B -> Prop) (S : C -> Prop)
      (f : A -> B -> C) (xs : list A) (ys : list B) :
  Forall P xs -> Forall Q ys -> (forall x y, P x -> Q y -> S (f x y)) ->
  Forall S (zip_with f xs ys).
Proof.
  intros Hxs. revert ys. induction Hxs as [|x xs Hx _ IH]; intros ys Hys Hf.
  - constructor.
  - destruct Hys as [|y ys Hy Hys]; cbn; constructor; auto.
Qed.

Lemma Forall_nth_default {A : Type} (P : A -> Prop) (xs : list A) (i : nat) (d : A) :
  Forall P xs -> P d -> P (nth i xs d).
Proof.
  intros Hxs Hd. revert i. induction Hxs as [|x xs Hx _ IH]; intros [|i]; cbn; auto.
Qed.

(** A strided assignment keeps the number of columns of every row, and
    keeps a property that the table and the source both have. *)
Lemma setitem_cols_keeps (P : R -> Prop) (cols : nat) (start : nat)
      (pe src : tensor2) (src_cols : nat) (pe' : tensor2) :
  setitem_cols start pe cols src src_cols = inr pe' ->
  length pe = length src ->
  Forall (fun row => length row = cols /\ Forall P row) pe ->
  Forall (Forall P) src ->
  length pe' = length pe /\
  Forall (fun row => length row = cols /\ Forall P row) pe'.
Proof.
  unfold setitem_cols. intros H Hlen Hpe Hsrc.
  destruct (_ || _) in H; [|discriminate]. injection H as <-.
  split; [rewrite zip_with_length; lia|].
  eapply Forall_zip_with; [exact Hpe|exact Hsrc|].
  intros row srow [Hrow HP] HPs. split; [now rewrite mapi_length|].
  eapply Forall_mapi; [exact HP|]. intros j old Hold.
  destruct (_ && _); [|exact Hold]. now apply Forall_nth_default.
Qed.

(** Every constructed buffer has shape (1, seq_len, d_model) and all its
    entries lie between -1 and 1. *)
Theorem PositionalEncoding_buffer_bounded
        (d s : nat) (dropout : tensor3 -> tensor3) (m : t) :
  __init__ d s dropout = inr m ->
  has_shape3 (pe m) 1 s d /\
  Forall (Forall (Forall (fun v => -1 <= v <= 1))) (pe m).
Proof.
  intros Hm. unfold __init__ in Hm.
  destruct (log_step d) as [e|step]; [discriminate|]. cbn [bind] in Hm.
  destruct (setitem_cols 0 (zeros s d) d
                         (map (map sin) (angles (div_term d step) s))
                         (length (div_term d step))) as [e|pe0] eqn:H0;
    [discriminate|].
  cbn [bind] in Hm.
  destruct (setitem_cols 1 pe0 d
                         (map (map cos) (angles (div_term d step) s))
                         (length (div_term d step))) as [e|pe1] eqn:H1;
    [discriminate|].
  cbn [bind ret] in Hm. injection Hm as <-. cbn [pe].
  assert (Hz : Forall (fun row => length row = d /\ Forall bounded row) (zeros s d)).
  { unfold zeros. apply Forall_forall. intros row Hin.
    apply repeat_spec in Hin. subst row. split; [apply repeat_length|].
    apply Forall_forall. intros v Hv. apply repeat_spec in Hv. subst v.
    unfold bounded. lra. }
  assert (Hsin : Forall (Forall bounded)
                        (map (map sin) (angles (div_term d step) s))).
  { apply Forall_forall. intros row Hin. apply in_map_iff in Hin.
    destruct Hin as (r & <- & _). apply Forall_forall. intros v Hv.
    apply in_map_iff in Hv. destruct Hv as (a & <- & _). apply SIN_bound. }
  assert (Hcos : Forall (Forall bounded)
                        (map (map cos) (angles (div_term d step) s))).
  { apply Forall_forall. intros row Hin. apply in_map_iff in Hin.
    destruct Hin as (r & <- & _). apply Forall_forall. intros v Hv.
    apply in_map_iff in Hv. destruct Hv as (a & <- & _). apply COS_bound. }
  assert (Hzl : length (zeros s d) = s) by apply (zeros_shape s d 0).
  destruct (@setitem_cols_keeps bounded _ _ _ _ _ _ H0) as [Hl0 Hp0];
    [now rewrite Hzl, length_map, angles_length|exact Hz|exact Hsin|].
  destruct (@setitem_cols_keeps bounded _ _ _ _ _ _ H1) as [Hl1 Hp1];
    [now rewrite Hl0, Hzl, length_map, angles_length|exact Hp0|exact Hcos|].
  split.
  - split; [reflexivity|]. constructor; [|constructor].
    split; [congruence|]. eapply Forall_impl; [|exact Hp1]. now intros row [? _].
  - constructor; [|constructor].
    eapply Forall_impl; [|exact Hp1]. now intros row [_ ?].
Qed.

Variable self : t.
Variable table : tensor2.
Hypothesis Hpe : pe self = [table].

(** For an input no longer than the table, the forward pass adds row [pos]
    of the table to the vector at position [pos] of every batch element
    (and then applies dropout). *)
Theorem PositionalEncoding_forward_adds_rows (x : tensor3) (B L d : nat) :
  has_shape3 x B L d ->
  has_shape2 table (seq_len self) d ->
  (L <= seq_len self)%nat ->
  forward self x
  = inr (dropout self
           (map (fun xm => zip_with (zip_with Rplus) xm (firstn L table)) x)).
Proof.
  intros [HB Hx] [Hs Ht] HL. unfold forward. rewrite Hpe. cbn [map].
  assert (Hncols : x <> [] -> ncols x = L).
  { destruct x as [|xm x']; [congruence|]. intros _. unfold ncols. cbn [hd].
    apply Forall_inv in Hx. now destruct Hx as [Hm _]. }
  assert (Hslice : forall xm, In xm x ->
            bzip (bzip (fun a b => ret (a + b))) xm (firstn (ncols x) table)
            = inr (zip_with (zip_with Rplus) xm (firstn L table))).
  { intros xm Hin. rewrite Hncols by (intros ->; inversion Hin).
    rewrite Forall_forall in Hx. destruct (Hx _ Hin) as [Hm Hrows].
    apply bzip_zip_with.
    - rewrite length_firstn. lia.
    - intros xv tv Hpair. apply bzip_zip_with.
      + rewrite Forall_forall in Hrows, Ht.
        rewrite (Hrows xv) by (eapply in_combine_l; eassumption).
        symmetry. apply Ht. apply In_firstn with (n := L).
        eapply in_combine_r; eassumption.
      + reflexivity. }
  rewrite bzip_singleton_r.
  rewrite (mapM_ret _ (fun xm => zip_with (zip_with Rplus) xm (firstn L table))).
  - reflexivity.
  - apply Forall_forall. exact Hslice.
Qed.

(** An input longer than the table raises: the slice [pe[:, :L, :]] then
    has only [seq_len] rows, which do not broadcast against [L] positions
    (for [seq_len >= 2]). *)
Theorem PositionalEncoding_forward_too_long (x : tensor3) (B L d : nat) :
  has_shape3 x B L d ->
  length table = seq_len self ->
  (1 <= B)%nat -> (2 <= seq_len self)%nat -> (seq_len self < L)%nat ->
  forward self x = shape_error.
Proof.
  intros [HB Hx] Hs HBpos Hseq HL. unfold forward. rewrite Hpe. cbn [map].
  rewrite bzip_singleton_r.
  destruct x as [|xm x']; [cbn in HB; lia|].
  apply Forall_inv in Hx. destruct Hx as [Hm _].
  unfold ncols. cbn [hd mapM].
  rewrite firstn_all2 by lia.
  rewrite bzip_mismatch by lia. reflexivity.
Qed.

End PositionalMore.

(** ** LayerNormalization: what the forward pass does to a row *)

Section LayerNormMore.
Import LayerNormalization.
Local Open Scope R_scope.

Lemma sum_map_affine (c m k : R) (xs : list R) :
  sum (map (fun x => c + (x - m) * k) xs)
  = INR (length xs) * c + (sum xs - INR (length xs) * m) * k.
Proof.
  induction xs as [|x xs IH].
  - cbn. ring.
  - cbn [map sum fold_right length]. fold (sum (map (fun x => c + (x - m) * k) xs)).
    fold (sum xs). rewrite IH, S_INR. ring.
Qed.

Lemma sum_centered (xs : list R) :
  xs <> [] -> sum xs - INR (length xs) * mean xs = 0.
Proof.
  intros Hne. unfold mean. field.
  apply not_0_INR. destruct xs; [congruence|discriminate].
Qed.

(** The outputs of a row of two or more features average to
    [alpha + bias]: the normalized values average to 0, and [alpha] is
    added to each of them. *)
Theorem LayerNormalization_forward_row_mean (self : t) (xs : list R) :
  (2 <= length xs)%nat -> 0 < eps self ->
  mean (forward_row self xs) = alpha self + bias self.
Proof.
  intros Hlen _.
  assert (Hne : xs <> []) by (intros ->; cbn in Hlen; lia).
  unfold mean at 1. unfold forward_row. rewrite length_map.
  replace (map (fun x => alpha self + (x - mean xs) / (std xs + eps self) + bias self) xs)
    with (map (fun x => (alpha self + bias self)
                        + (x - mean xs) * / (std xs + eps self)) xs)
    by (apply map_ext; intros x; unfold Rdiv; ring).
  rewrite sum_map_affine, (sum_centered Hne), Rmult_0_l, Rplus_0_r.
  field. apply not_0_INR. lia.
Qed.

Lemma sum_repeat (c : R) (n : nat) : sum (repeat c n) = INR n * c.
Proof.
  induction n as [|n IH]; [cbn; ring|].
  cbn [repeat sum fold_right]. fold (sum (repeat c n)). rewrite IH, S_INR. ring.
Qed.

Lemma mean_repeat (c : R) (n : nat) : (1 <= n)%nat -> mean (repeat c n) = c.
Proof.
  intros Hn. unfold mean. rewrite sum_repeat, repeat_length.
  field. apply not_0_INR. lia.
Qed.

(** Over the reals, on a constant row of two or more features the
    standard deviation is 0, the division is by [eps] alone, and every
    output is [alpha + bias].  (In floating point the mean of a constant
    row can be rounded away from the constant; the difference, divided by
    [std + eps], then shows in the output.) *)
Theorem LayerNormalization_forward_row_constant (self : t) (c : R) (n : nat) :
  (2 <= n)%nat -> 0 < eps self ->
  std (repeat c n) = 0 /\
  std (repeat c n) + eps self <> 0 /\
  forward_row self (repeat c n) = repeat (alpha self + bias self) n.
Proof.
  intros Hn Heps.
  assert (Hmean : mean (repeat c n) = c) by (apply mean_repeat; lia).
  assert (Hstd : std (repeat c n) = 0).
  { unfold std. rewrite Hmean, repeat_length.
    replace (map (fun x => (x - c) * (x - c)) (repeat c n)) with (repeat 0 n).
    - rewrite sum_repeat. unfold Rdiv. rewrite Rmult_0_r, Rmult_0_l.
      apply sqrt_0.
    - rewrite map_repeat. f_equal. ring. }
  split; [exact Hstd|]. split; [rewrite Hstd; lra|].
  unfold forward_row. rewrite Hmean, Hstd, map_repeat. f_equal.
  unfold Rdiv. ring.
Qed.

Lemma sum_map_plus (c : R) (xs : list R) :
  sum (map (fun x => x + c) xs) = sum xs + INR (length xs) * c.
Proof.
  induction xs as [|x xs IH]; [cbn; ring|].
  cbn [map sum fold_right length]. fold (sum (map (fun x => x + c) xs)).
  fold (sum xs). rewrite IH, S_INR. ring.
Qed.

(** Adding one constant to every feature of a row does not change the
    output: the mean moves with the row and the deviations stay. *)
Theorem LayerNormalization_forward_row_shift (self : t) (c : R) (xs : list R) :
  (2 <= length xs)%nat -> 0 < eps self ->
  forward_row self (map (fun x => x + c) xs) = forward_row self xs.
Proof.
  intros Hlen _.
  assert (Hn : INR (length xs) <> 0) by (apply not_0_INR; lia).
  assert (Hmean : mean (map (fun x => x + c) xs) = mean xs + c).
  { unfold mean. rewrite sum_map_plus, length_map. now field. }
  assert (Hstd : std (map (fun x => x + c) xs) = std xs).
  { unfold std. rewrite Hmean, length_map, map_map. do 3 f_equal.
    apply map_ext. intros x. ring. }
  unfold forward_row. rewrite Hmean, Hstd, map_map.
  apply map_ext. intros x. unfold Rdiv. ring.
Qed.

End LayerNormMore.

(** ** Attention weights and log-probabilities *)

Section Distributions.
Local Open Scope R_scope.

Lemma exp_le_sum_exp (x : R) (xs : list R) : In x xs -> exp x <= sum (map exp xs).
Proof.
  induction xs as [|y xs IH]; [contradiction|].
  intros [-> | Hin]; cbn [map sum fold_right]; fold (sum (map exp xs)).
  - pose proof (sum_exp_nonneg xs). lra.
  - specialize (IH Hin). pose proof (exp_pos y). lra.
Qed.

(** Every entry of a softmax is a probability. *)
Lemma softmax_entries (xs : list R) :
  Forall (fun p => 0 < p <= 1) (softmax xs).
Proof.
  unfold softmax. apply Forall_forall. intros p Hin.
  apply in_map_iff in Hin. destruct Hin as (x & <- & Hx).
  assert (Hne : xs <> []) by (intros ->; contradiction).
  pose proof (sum_exp_pos Hne) as Hs. pose proof (exp_pos x) as Hx0.
  pose proof (exp_le_sum_exp x xs Hx) as Hle.
  split.
  - now apply Rdiv_lt_0_compat.
  - apply Rmult_le_reg_r with (r := sum (map exp xs)); [exact Hs|].
    unfold Rdiv. rewrite Rmult_assoc, Rinv_l by lra. lra.
Qed.

(** Without dropout, the scores that [attention] returns are probability
    distributions over the keys: every entry lies in (0, 1] and every
    non-empty row sums to 1 -- whether or not a mask was given. *)
Theorem attention_scores_are_distributions
        (query key value : tensor4) (mask : option (list (list (list (list Z)))))
        (out scores : tensor4) :
  MultiHeadAttentionBlock.attention query key value mask None
  = inr (out, scores) ->
  Forall (Forall (Forall (fun row =>
                            Forall (fun p => 0 < p <= 1) row /\
                            (row <> [] -> sum row = 1)))) scores.
Proof.
  unfold MultiHeadAttentionBlock.attention.
  destruct (matmul4 query (map (map transpose) key)) as [e|qk]; cbn [bind];
    [discriminate|].
  destruct (match mask with Some _ => _ | None => _ end) as [e|u];
    cbn [bind]; [discriminate|].
  destruct (matmul4 _ value) as [e|o]; cbn [bind ret]; [discriminate|].
  intros [= _ <-].
  apply Forall_forall. intros b Hb. apply in_map_iff in Hb.
  destruct Hb as (b' & <- & _).
  apply Forall_forall. intros h Hh. apply in_map_iff in Hh.
  destruct Hh as (h' & <- & _).
  apply Forall_forall. intros row Hrow. apply in_map_iff in Hrow.
  destruct Hrow as (r & <- & _).
  split; [apply softmax_entries|].
  intros Hne. apply softmax_sum. intros ->. now apply Hne.
Qed.

(** Every log-probability that [ProjectionLayer.forward] returns is at
    most 0. *)
Theorem ProjectionLayer_forward_nonpositive
        (self : ProjectionLayer.t) (x y : tensor3) :
  ProjectionLayer.forward self x = inr y ->
  Forall (Forall (Forall (fun v => v <= 0))) y.
Proof.
  unfold ProjectionLayer.forward.
  destruct (Linear.forward (ProjectionLayer.proj self) x) as [e|lin];
    cbn [bind ret]; [discriminate|].
  intros [= <-].
  apply Forall_forall. intros m Hm. apply in_map_iff in Hm.
  destruct Hm as (m' & <- & _).
  apply Forall_forall. intros row Hrow. apply in_map_iff in Hrow.
  destruct Hrow as (z & <- & _).
  unfold log_softmax. apply Forall_forall. intros v Hv.
  apply in_map_iff in Hv. destruct Hv as (p & <- & Hp).
  pose proof (softmax_entries z) as Hent. rewrite Forall_forall in Hent.
  destruct (Hent p Hp) as [Hpos Hle1].
  rewrite <- ln_1. destruct Hle1 as [Hlt | ->]; [|lra].
  left. now apply ln_increasing.
Qed.

(** A vector whose length is not [in_features], anywhere in the input,
    makes the projection raise a shape error. *)
Theorem ProjectionLayer_forward_shape_error
        (self : ProjectionLayer.t) (x : tensor3) :
  Exists (Exists (fun v =>
                    length v <> Linear.in_features (ProjectionLayer.proj self))) x ->
  ProjectionLayer.forward self x = shape_error.
Proof.
  intros Hbad.
  set (lin := ProjectionLayer.proj self) in *.
  assert (Hrow : forall v,
            Linear.forward_row lin v = shape_error \/
            exists z, Linear.forward_row lin v = inr z).
  { intros v. unfold Linear.forward_row.
    destruct (length v =? Linear.in_features lin)%nat; [right|left]; eauto. }
  assert (Hm : forall m,
            mapM (Linear.forward_row lin) m = shape_error \/
            exists zs, mapM (Linear.forward_row lin) m = inr zs).
  { induction m as [|v m IH]; [right; now exists []|].
    cbn [mapM]. destruct (Hrow v) as [-> | [z ->]]; [now left|].
    cbn [bind]. destruct IH as [-> | [zs ->]]; [now left|].
    right. now eexists. }
  unfold ProjectionLayer.forward, Linear.forward. fold lin.
  unfold shape_error, raise in *.
  rewrite (mapM_inl (mapM (Linear.forward_row lin))
                    (e := RuntimeError "shape mismatch")); [reflexivity| |].
  - apply Forall_forall. intros m _. apply Hm.
  - eapply Exists_impl; [|exact Hbad]. intros m Hbadm.
    apply mapM_inl.
    + apply Forall_forall. intros v _. apply Hrow.
    + eapply Exists_impl; [|exact Hbadm]. intros v Hv.
      unfold Linear.forward_row.
      destruct (Nat.eqb_spec (length v) (Linear.in_features lin));
        [contradiction|reflexivity].
Qed.

End Distributions.

(** ** greeedy_decode: the encoder pass, the bounds, and [max_len < 1] *)

Section GreedyMore.
Context {T Mask : Type} `{Torch T Mask}.

Variable model : Transformer.t T Mask.
Variable source_mask : Mask.
Variables tokenizer_src tokenizer_tgt : string -> Z.
Variable max_len : Z.

(** Inside the loop: no call to [encode], and every cross-attention call
    gets the source mask. *)
Let in_loop (e : event Mask) : Prop :=
  match e with
  | EncodeCall _ _ => False
  | CrossAttention m => m = source_mask
  | _ => True
  end.

Lemma loop_events_in_loop (encoder_output : T) (eos_idx : Z) (fuel : nat)
      (dec : list Z) :
  Forall in_loop
         (events (greeedy_decode_loop fuel model encoder_output source_mask
                                      eos_idx max_len dec)).
Proof.
  revert dec; induction fuel as [|fuel IH]; intros dec;
    cbn [greeedy_decode_loop].
  - apply Forall_tret.
  - apply Forall_tbind; [now apply Forall_tell|]. intros _.
    destruct (Z.of_nat (length dec) =? max_len)%Z; [apply Forall_tret|].
    apply Forall_tbind.
    { destruct (decode_events model encoder_output source_mask [dec]
                  (type_as (causal_mask (length dec)) source_mask))
        as (rest & -> & Hrest).
      constructor; [exact I|].
      eapply Forall_impl; [|exact Hrest]. intros e [-> | ->]; simpl; auto. }
    intros out. apply Forall_tbind; [apply Forall_lift|]. intros last.
    apply Forall_tbind.
    { rewrite project_events. constructor; [exact I|constructor]. }
    intros prob. apply Forall_tbind; [apply Forall_lift|]. intros next.
    destruct (next =? eos_idx)%Z; [apply Forall_tret|apply IH].
Qed.

Lemma in_loop_readings (tr : list (event Mask)) :
  Forall in_loop tr ->
  encode_calls tr = [] /\ Forall (eq source_mask) (cross_attention_masks tr).
Proof.
  induction 1 as [|e tr He _ [IH1 IH2]]; [now split|].
  destruct e; cbn in *; try contradiction; auto.
Qed.

Lemma greeedy_decode_encode_events (fuel : nat) (source : list (list Z)) :
  let r := greeedy_decode fuel model source source_mask tokenizer_src
                          tokenizer_tgt max_len in
  encode_calls (events r) = [(source, source_mask)] /\
  Forall (eq source_mask) (cross_attention_masks (events r)).
Proof.
  cbv zeta. unfold greeedy_decode. rewrite tbind_events.
  destruct (encode_events model source source_mask) as (rest & -> & Hrest).
  assert (Hq : Forall in_loop
                 (rest ++ match result (Transformer.encode model source source_mask) with
                          | inr enc =>
                              events (greeedy_decode_loop fuel model enc source_mask
                                        (tokenizer_tgt "[EOS]"%string) max_len
                                        [tokenizer_tgt "[SOS]"%string])
                          | inl _ => []
                          end)).
  { apply Forall_app. split.
    - eapply Forall_impl; [|exact Hrest]. intros e ->. exact I.
    - destruct (result _); [constructor|apply loop_events_in_loop]. }
  apply in_loop_readings in Hq. destruct Hq as [Hq1 Hq2].
  rewrite <- app_comm_cons. cbn [encode_calls cross_attention_masks flat_map app].
  split; [|exact Hq2].
  f_equal. exact Hq1.
Qed.

(** The encoder runs exactly once per call, on the source and its mask,
    however many tokens are generated; and every cross-attention call of
    the run is given the source mask. *)
Theorem greeedy_decode_encodes_once (fuel : nat) (source : list (list Z)) :
  let r := greeedy_decode fuel model source source_mask tokenizer_src
                          tokenizer_tgt max_len in
  encode_calls (events r) = [(source, source_mask)] /\
  Forall (eq source_mask) (cross_attention_masks (events r)).
Proof. exact (greeedy_decode_encode_events fuel source). Qed.

(** With [max_len >= 1], [max_len] units of fuel always reach a [break]
    or an exception. *)
Lemma greeedy_decode_enough_fuel (source : list (list Z)) :
  (1 <= max_len)%Z ->
  result (greeedy_decode (Z.to_nat max_len) model source source_mask
                         tokenizer_src tokenizer_tgt max_len) <> inr None.
Proof.
  intros Hmax.
  destruct (@greeedy_decode_run _ _ _ model source_mask tokenizer_src
              tokenizer_tgt max_len (Z.to_nat max_len) source)
    as [(e & He & _) | (encoder_output & Hr & _)].
  - rewrite He. discriminate.
  - cbv zeta in Hr. rewrite Hr.
    destruct (@loop_iterations _ _ _ model source_mask tokenizer_tgt max_len
                encoder_output (Z.to_nat max_len)
                [tokenizer_tgt "[SOS]"%string]) as [_ Hbound].
    cbn [length] in Hbound. destruct Hbound as [_ Hfuel]; [lia|].
    apply Hfuel. lia.
Qed.

Lemma loop_length_bound (encoder_output : T) (fuel : nat) (dec out : list Z) :
  (Z.of_nat (length dec) <= max_len)%Z ->
  result (greeedy_decode_loop fuel model encoder_output source_mask
                              (tokenizer_tgt "[EOS]"%string) max_len dec)
  = inr (Some out) ->
  (length dec <= length out)%nat /\ (Z.of_nat (length out) <= max_len)%Z.
Proof.
  revert dec; induction fuel as [|fuel IH]; intros dec Hle Hres;
    [discriminate|].
  destruct (@loop_S _ _ _ model source_mask tokenizer_tgt max_len
                    encoder_output fuel dec)
    as [(Hmax & _ & Hr) | (Hmax & rest & _ & Hcases)].
  - rewrite Hr in Hres. injection Hres as <-. lia.
  - destruct Hcases as [(e & _ & Hr) | [(next & _ & _ & Hr)
                                      | (next & _ & _ & Hr)]];
      rewrite Hr in Hres.
    + discriminate.
    + injection Hres as <-. rewrite length_app. cbn [length]. lia.
    + apply IH in Hres; rewrite length_app in *; cbn [length] in *; lia.
Qed.

(** A returned sequence has at least the SOS id and at most [max_len]
    ids. *)
Theorem greeedy_decode_length_bounds (fuel : nat) (source : list (list Z))
        (out : list Z) :
  (1 <= max_len)%Z ->
  result (greeedy_decode fuel model source source_mask tokenizer_src
                         tokenizer_tgt max_len) = inr (Some out) ->
  (1 <= length out)%nat /\ (Z.of_nat (length out) <= max_len)%Z.
Proof.
  intros Hmax Hres.
  destruct (@greeedy_decode_run _ _ _ model source_mask tokenizer_src
              tokenizer_tgt max_len fuel source)
    as [(e & He & _) | (encoder_output & Hr & _)].
  - rewrite He in Hres. discriminate.
  - cbv zeta in Hr. rewrite Hr in Hres.
    apply loop_length_bound in Hres; cbn [length] in *; lia.
Qed.

(** With [max_len < 1] the length test [decoder_input.size(1) == max_len]
    never holds, since the decoder input starts with one id and only
    grows.  A returned sequence then always ends with an appended EOS; and
    for a model that never raises and never predicts EOS no amount of fuel
    is enough, i.e. the Python loop does not end. *)
Theorem greeedy_decode_max_len_below_one (source : list (list Z)) :
  (max_len < 1)%Z ->
  (forall fuel out,
     result (greeedy_decode fuel model source source_mask tokenizer_src
                            tokenizer_tgt max_len) = inr (Some out) ->
     (2 <= length out)%nat /\ last out 0%Z = tokenizer_tgt "[EOS]"%string) /\
  ((exists encoder_output,
      result (Transformer.encode model source source_mask) = inr encoder_output) ->
   (forall encoder_output dec,
      exists w,
        result (next_word model encoder_output source_mask dec) = inr w /\
        w <> tokenizer_tgt "[EOS]"%string) ->
   forall fuel,
     result (greeedy_decode fuel model source source_mask tokenizer_src
                            tokenizer_tgt max_len) = inr None).
Proof.
  intros Hmax. split.
  - intros fuel out Hres.
    destruct (@greeedy_decode_run _ _ _ model source_mask tokenizer_src
                tokenizer_tgt max_len fuel source)
      as [(e & He & _) | (encoder_output & Hr & _)].
    { rewrite He in Hres. discriminate. }
    cbv zeta in Hr. rewrite Hr in Hres.
    apply loop_returns in Hres.
    destruct Hres as (ws & -> & [[Hne Hlast] | Hlen] & _).
    + destruct ws as [|w ws]; [congruence|]. split; [cbn; lia|].
      cbn [app]. cbn [last]. exact Hlast.
    + cbn [app length] in Hlen. lia.
  - intros [encoder_output Henc] Hnext fuel.
    unfold greeedy_decode. rewrite tbind_result, Henc.
    assert (Hloop : forall dec, (1 <= length dec)%nat ->
              result (greeedy_decode_loop fuel model encoder_output source_mask
                        (tokenizer_tgt "[EOS]"%string) max_len dec)
              = inr None).
    { induction fuel as [|fuel IH]; intros dec Hdec; [reflexivity|].
      rewrite (@loop_unfold _ _ _ model source_mask tokenizer_tgt max_len
                            encoder_output fuel dec).
      rewrite tell_then_result.
      destruct (Z.eqb_spec (Z.of_nat (length dec)) max_len) as [Heq|_]; [lia|].
      rewrite tbind_result.
      destruct (Hnext encoder_output dec) as (w & -> & Hw).
      destruct (Z.eqb_spec w (tokenizer_tgt "[EOS]"%string)); [contradiction|].
      apply IH. rewrite length_app. cbn [length]. lia. }
    apply Hloop. cbn [length]. lia.
Qed.

End GreedyMore.

(** ** train_model: one decode call per batch, until a pass raises *)

Section TrainingMore.
Context {T Mask : Type} `{Torch T Mask}.

Let call (batch : Batch.t Mask) : Mask * list (list Z) * Mask :=
  (Batch.decoder_mask batch, Batch.decoder_input batch, Batch.decoder_mask batch).

(** The forward pass on a batch makes no call to [decode] when [encode]
    raises, and exactly one otherwise. *)
Lemma train_forward_decode_calls (model : Transformer.t T Mask)
      (batch : Batch.t Mask) :
  let r := train_forward model batch in
  (decode_calls (events r) = [] /\ exists e, result r = inl e) \/
  decode_calls (events r) = [call batch].
Proof.
  cbv zeta. unfold train_forward. rewrite tbind_events, tbind_result.
  destruct (encode_events model (Batch.encoder_input batch)
                          (Batch.encoder_mask batch)) as (rest & -> & Hrest).
  assert (Hnone : decode_calls rest = []).
  { apply attention_only.
    eapply Forall_impl; [|exact Hrest]. intros e ->. eexists; now left. }
  rewrite decode_calls_app. cbn [decode_calls flat_map app].
  fold (decode_calls rest). rewrite Hnone. cbn [app].
  destruct (result (Transformer.encode _ _ _)) as [e|encoder_output].
  { left. split; [reflexivity|]. now exists e. }
  right. rewrite tbind_events.
  destruct (decode_events model encoder_output (Batch.decoder_mask batch)
                          (Batch.decoder_input batch)
                          (Batch.decoder_mask batch)) as (rest' & -> & Hrest').
  assert (Hnone' : decode_calls rest' = []).
  { apply attention_only.
    eapply Forall_impl; [|exact Hrest'].
    intros e [-> | ->]; eexists; [now left|now right]. }
  rewrite decode_calls_app. cbn [decode_calls flat_map app].
  fold (decode_calls rest'). rewrite Hnone'. cbn [app]. unfold call. f_equal.
  destruct (result (Transformer.decode _ _ _ _ _)) as [e|decoder_output];
    [reflexivity|].
  rewrite tbind_events, project_events.
  destruct (result (Transformer.project _ _)); reflexivity.
Qed.

(** Over an epoch the calls to [decode] are those of the batches in order,
    one per batch, up to the first batch whose pass raises; when the epoch
    ends normally every batch has had its call. *)
Theorem train_epoch_decode_calls
        (optimizer_step : Transformer.t T Mask -> T -> list (list Z) ->
                          Transformer.t T Mask)
        (model : Transformer.t T Mask) (batches : list (Batch.t Mask)) :
  let r := train_epoch optimizer_step model batches in
  exists k,
    (k <= length batches)%nat /\
    decode_calls (events r)
    = map (fun batch => (Batch.decoder_mask batch, Batch.decoder_input batch,
                         Batch.decoder_mask batch))
          (firstn k batches) /\
    (forall model', result r = inr model' -> k = length batches).
Proof.
  cbv zeta. revert model.
  induction batches as [|batch rest IH]; intros model; cbn [train_epoch].
  - exists 0%nat. repeat split; auto.
  - rewrite tbind_events, tbind_result, decode_calls_app.
    destruct (train_forward_decode_calls model batch)
      as [[Hnone [e He]] | Hone]; cbv zeta in *.
    + rewrite Hnone, He. exists 0%nat. cbn. split; [lia|].
      split; [reflexivity|]. intros model' Hr. discriminate.
    + rewrite Hone.
      destruct (result (train_forward model batch)) as [e|proj_output].
      * exists 1%nat. cbn. split; [lia|]. split; [reflexivity|].
        intros model' Hr. discriminate.
      * destruct (IH (optimizer_step model proj_output (Batch.label batch)))
          as (k & Hk & Hcalls & Hend).
        exists (S k). cbn [length firstn map app]. split; [lia|].
        split; [now rewrite Hcalls|].
        intros model' Hr. f_equal. now apply (Hend model').
Qed.

End TrainingMore.

(** ** get_weights_file_path *)

Lemma dict_getitem_missing (d : list (string * pyvalue)) (key : string) :
  ~ In key (map fst d) -> dict_getitem d key = inl (KeyError key).
Proof.
  induction d as [|[k v] d IH]; intros Hnot; [reflexivity|].
  cbn [dict_getitem]. destruct (String.eqb_spec k key) as [->|_].
  - exfalso. apply Hnot. now left.
  - apply IH. intros Hin. apply Hnot. now right.
Qed.

Lemma dict_getitem_present (d : list (string * pyvalue)) (key : string) :
  In key (map fst d) -> exists v, dict_getitem d key = inr v.
Proof.
  induction d as [|[k v] d IH]; intros Hin; [contradiction|].
  cbn [dict_getitem]. destruct (String.eqb_spec k key) as [->|Hne].
  - now exists v.
  - apply IH. destruct Hin as [Hk|Hin]; [contradiction|exact Hin].
Qed.

(** [get_weights_file_path] reads the keys ['model_folder'] and
    ['model_basename'] and raises [KeyError] for the first one missing.
    The dictionary of [get_config] has ['model_filename'] but no
    ['model_basename'], so with it the call raises
    [KeyError('model_basename')] for every epoch, whatever the path
    library does. *)
Theorem get_weights_file_path_key_error
        (format_value : pyvalue -> string)
        (path_str : pyvalue -> string -> PyError + string) (epoch : string) :
  (forall config,
     ~ In "model_folder"%string (map fst config) ->
     get_weights_file_path format_value path_str config epoch
     = inl (KeyError "model_folder")) /\
  (forall config,
     In "model_folder"%string (map fst config) ->
     ~ In "model_basename"%string (map fst config) ->
     get_weights_file_path format_value path_str config epoch
     = inl (KeyError "model_basename")) /\
  get_weights_file_path format_value path_str get_config epoch
  = inl (KeyError "model_basename").
Proof.
  split; [|split].
  - intros config Hno. unfold get_weights_file_path.
    now rewrite dict_getitem_missing.
  - intros config Hin Hno. unfold get_weights_file_path.
    destruct (dict_getitem_present config "model_folder" Hin) as [v ->].
    now rewrite dict_getitem_missing.
  - reflexivity.
Qed.

(** ** FeedForwardBlock *)

Section FeedForward.
Import FeedForwardBlock.

(** [x @ W.T + b] on one vector *)
Let affine (lin : Linear.t) (v : list R) : list R :=
  zip_with (fun w b => (dot v w + b)%R) (Linear.weight lin) (Linear.bias lin).

Lemma Linear_forward_rows (lin : Linear.t) (x : tensor3) (B L : nat) :
  Linear.wf lin ->
  has_shape3 x B L (Linear.in_features lin) ->
  Linear.forward lin x = inr (map (map (affine lin)) x) /\
  has_shape3 (map (map (affine lin)) x) B L (Linear.out_features lin).
Proof.
  intros (Hw & _ & Hb) [HB Hx]. split.
  - unfold Linear.forward. apply mapM_ret.
    eapply Forall_impl; [|exact Hx]. intros m [_ Hm].
    apply mapM_ret. eapply Forall_impl; [|exact Hm]. intros v Hv.
    unfold Linear.forward_row. now rewrite Hv, Nat.eqb_refl.
  - split; [now rewrite length_map|].
    apply Forall_forall. intros m' Hin. apply in_map_iff in Hin.
    destruct Hin as (m & <- & Hin). rewrite Forall_forall in Hx.
    destruct (Hx m Hin) as [HL _]. split; [now rewrite length_map|].
    apply Forall_forall. intros v' Hv'. apply in_map_iff in Hv'.
    destruct Hv' as (v & <- & _). unfold affine.
    rewrite zip_with_length. lia.
Qed.

(** With dropout switched off (evaluation mode), the block is a
    position-wise map: the output vector at a position is
    [W2 relu(W1 v + b1) + b2] for the input vector [v] at that position
    alone, and the output has the shape of the input up to the feature
    size. *)
Theorem FeedForwardBlock_forward_positionwise
        (self : t) (x : tensor3) (B L : nat) :
  Linear.wf (linear_1 self) -> Linear.wf (linear_2 self) ->
  Linear.out_features (linear_1 self) = Linear.in_features (linear_2 self) ->
  (forall h, dropout self h = h) ->
  has_shape3 x B L (Linear.in_features (linear_1 self)) ->
  let ffn (v : list R) : list R :=
    zip_with (fun w b => (dot (map relu
                (zip_with (fun w1 b1 => (dot v w1 + b1)%R)
                          (Linear.weight (linear_1 self))
                          (Linear.bias (linear_1 self)))) w + b)%R)
             (Linear.weight (linear_2 self)) (Linear.bias (linear_2 self)) in
  forward self x = inr (map (map ffn) x) /\
  has_shape3 (map (map ffn) x) B L (Linear.out_features (linear_2 self)).
Proof.
  intros Hwf1 Hwf2 Hdims Hdrop Hx ffn.
  destruct (Linear_forward_rows Hwf1 Hx) as [H1 Hs1].
  unfold forward. rewrite H1. cbn [bind]. rewrite Hdrop.
  assert (Hs1' : has_shape3 (map (map (map relu))
                               (map (map (affine (linear_1 self))) x))
                            B L (Linear.in_features (linear_2 self))).
  { rewrite <- Hdims. destruct Hs1 as [HB Hrows]. split; [now rewrite length_map|].
    apply Forall_forall. intros m' Hin. apply in_map_iff in Hin.
    destruct Hin as (m & <- & Hin). rewrite Forall_forall in Hrows.
    destruct (Hrows m Hin) as [HL Hm]. split; [now rewrite length_map|].
    apply Forall_forall. intros v' Hv'. apply in_map_iff in Hv'.
    destruct Hv' as (v & <- & Hv). rewrite length_map.
    rewrite Forall_forall in Hm. now apply Hm. }
  destruct (Linear_forward_rows Hwf2 Hs1') as [H2 Hs2].
  assert (Heq : map (map (affine (linear_2 self)))
                    (map (map (map relu)) (map (map (affine (linear_1 self))) x))
                = map (map ffn) x).
  { rewrite !map_map. apply map_ext. intros m. rewrite !map_map. reflexivity. }
  rewrite Heq in H2, Hs2. split; assumption.
Qed.

End FeedForward.

(** ** MultiHeadAttentionBlock: construction, heads, and the mask *)

Section MultiHeadMore.
Import MultiHead.

(** Construction fails with [ZeroDivisionError] for no head, with
    [AssertionError] when the heads do not divide [d_model], and
    otherwise gives a block whose [h] heads of size [d_k] make up
    [d_model] exactly. *)
Theorem MultiHead_init_outcomes (d_model h : nat) (w_q w_k w_v w_o : Linear.t)
        (dropout : tensor4 -> tensor4) :
  let r := __init__ d_model h w_q w_k w_v w_o dropout in
  (h = 0%nat -> r = inl (Builtin ZeroDivisionError)) /\
  (h <> 0%nat -> (d_model mod h <> 0)%nat -> r = inl (Builtin AssertionError)) /\
  (forall m, r = inr m ->
             h <> 0%nat /\ MultiHead.d_model m = d_model /\ MultiHead.h m = h /\
             (MultiHead.h m * MultiHead.d_k m = MultiHead.d_model m)%nat /\
             attention_scores m = None).
Proof.
  cbv zeta. unfold __init__. split; [|split].
  - intros ->. reflexivity.
  - intros Hh Hmod. destruct (Nat.eqb_spec h 0); [contradiction|].
    destruct (Nat.eqb_spec (d_model mod h) 0); [contradiction|reflexivity].
  - intros m. destruct (Nat.eqb_spec h 0) as [|Hh]; [discriminate|].
    destruct (Nat.eqb_spec (d_model mod h) 0) as [Hmod|]; [|discriminate].
    intros [= <-]. cbn. repeat split; try assumption.
    pose proof (Nat.div_mod_eq d_model h). lia.
Qed.

Lemma chunks_length (n size : nat) (v : list R) : length (chunks n size v) = n.
Proof. revert v; induction n as [|n IH]; intros v; cbn; auto. Qed.

Lemma concat_chunks (n size : nat) (v : list R) :
  length v = (n * size)%nat -> concat (chunks n size v) = v.
Proof.
  revert v; induction n as [|n IH]; intros v Hlen; cbn in *.
  - now destruct v.
  - rewrite IH; [apply firstn_skipn|]. rewrite length_skipn. lia.
Qed.

(** One plane of [transpose12]. *)
Let swap (m : list (list (list R))) : list (list (list R)) :=
  map (fun i => map (fun row => nth i row []) m) (seq 0 (ncols m)).

Lemma swap_entries (m : list (list (list R))) (a b : nat) :
  has_shape2 m a b -> (1 <= a)%nat ->
  has_shape2 (swap m) b a /\
  forall i j, (i < b)%nat -> (j < a)%nat ->
              nth j (nth i (swap m) []) [] = nth i (nth j m []) [].
Proof.
  intros [Ha Hrows] Ha1.
  assert (Hcols : ncols m = b).
  { unfold ncols. destruct m as [|row m']; [cbn in Ha; lia|].
    cbn [hd]. now apply Forall_inv in Hrows. }
  unfold swap. rewrite Hcols. split.
  - split; [now rewrite length_map, length_seq|].
    apply Forall_forall. intros col Hin. apply in_map_iff in Hin.
    destruct Hin as (i & <- & _). now rewrite length_map.
  - intros i j Hi Hj.
    rewrite nth_indep with (d' := map (fun row : list (list R) => nth 0 row []) m)
      by now rewrite length_map, length_seq.
    rewrite map_nth with (f := fun i => map (fun row : list (list R) => nth i row []) m).
    rewrite seq_nth by assumption. cbn [Nat.add].
    rewrite nth_indep with (d' := nth i (@nil (list R)) [])
      by now rewrite length_map, Ha.
    now rewrite map_nth with (f := fun row : list (list R) => nth i row []).
Qed.

Lemma swap_involutive (m : list (list (list R))) (a b : nat) :
  has_shape2 m a b -> (1 <= a)%nat -> (1 <= b)%nat -> swap (swap m) = m.
Proof.
  intros Hm Ha Hb.
  destruct (swap_entries Hm Ha) as [Hs Hent].
  destruct (swap_entries Hs Hb) as [[Hlen Hrows] Hent'].
  destruct Hm as [Hma Hmrows].
  rewrite Forall_forall in Hrows, Hmrows.
  apply matrix_ext with (d := []).
  - congruence.
  - intros i Hi. rewrite Hlen in Hi.
    rewrite (Hrows (nth i (swap (swap m)) [])) by (apply nth_In; lia).
    symmetry. apply Hmrows. apply nth_In. lia.
  - intros i j Hi Hj. rewrite Hlen in Hi.
    rewrite (Hrows (nth i (swap (swap m)) [])) in Hj by (apply nth_In; lia).
    rewrite Hent' by assumption. now apply Hent.
Qed.

(** Splitting a tensor of shape (B, L, h * d_k) into heads and merging
    the heads again gives the tensor back. *)
Theorem merge_split_heads (hd dk : nat) (x : tensor3) (B L : nat) :
  (1 <= B)%nat -> (1 <= L)%nat -> (1 <= hd)%nat -> (1 <= dk)%nat ->
  has_shape3 x B L (hd * dk) ->
  exists s,
    split_heads hd dk x = inr s /\
    length s = B /\
    merge_heads hd dk s = inr x.
Proof.
  intros HB HL Hh Hd [HxB Hx].
  assert (Hview : view_heads hd dk x = inr (map (map (chunks hd dk)) x)).
  { unfold view_heads. apply mapM_ret.
    eapply Forall_impl; [|exact Hx]. intros m [_ Hm].
    apply mapM_ret. eapply Forall_impl; [|exact Hm]. intros v Hv.
    now rewrite Hv, Nat.eqb_refl. }
  unfold split_heads. rewrite Hview. cbn [bind ret].
  eexists. split; [reflexivity|].
  unfold transpose12. fold swap. split; [now rewrite !length_map|].
  unfold merge_heads. rewrite !length_map, HxB.
  destruct (Nat.eqb_spec (B * (hd * dk)) 0) as [H0|_]; [nia|].
  unfold transpose12. fold swap. rewrite !map_map.
  assert (Hback : map (fun m => swap (swap (map (chunks hd dk) m))) x
                  = map (map (chunks hd dk)) x).
  { apply map_ext_in. intros m Hin. rewrite Forall_forall in Hx.
    destruct (Hx m Hin) as [HmL _].
    apply swap_involutive with (a := L) (b := hd); try assumption.
    split; [now rewrite length_map|].
    apply Forall_forall. intros c Hc. apply in_map_iff in Hc.
    destruct Hc as (v & <- & _). apply chunks_length. }
  rewrite Hback.
  rewrite (mapM_ret _ (map (@concat R))).
  - f_equal. rewrite map_map. rewrite <- (map_id x) at 2.
    apply map_ext_in. intros m Hin. rewrite map_map.
    rewrite <- (map_id m) at 2. apply map_ext_in. intros v Hv.
    apply concat_chunks. rewrite Forall_forall in Hx.
    destruct (Hx m Hin) as [_ Hm]. rewrite Forall_forall in Hm. now apply Hm.
  - apply Forall_forall. intros m' Hin. apply in_map_iff in Hin.
    destruct Hin as (m & <- & Hin). apply mapM_ret.
    apply Forall_forall. intros c Hc. apply in_map_iff in Hc.
    destruct Hc as (v & <- & Hv). cbv zeta.
    rewrite Forall_forall in Hx. destruct (Hx m Hin) as [_ Hm].
    rewrite Forall_forall in Hm.
    rewrite concat_chunks by now apply Hm.
    now rewrite (Hm v Hv), Nat.eqb_refl.
Qed.

(** The forward pass of the block does not depend on the mask either: a
    call with a mask that returns gives the output and the stored scores
    of the call without a mask. *)
Theorem MultiHead_forward_mask_dropped
        (self : t) (q k v : tensor3) (mask : list (list (list (list Z))))
        (r : t * tensor3) :
  forward self q k v (Some mask) = inr r ->
  forward self q k v None = inr r.
Proof.
  unfold forward.
  destruct (Linear.forward (w_q self) q) as [e|query]; cbn [bind];
    [discriminate|].
  destruct (Linear.forward (w_k self) k) as [e|key]; cbn [bind];
    [discriminate|].
  destruct (Linear.forward (w_v self) v) as [e|value]; cbn [bind];
    [discriminate|].
  destruct (split_heads (h self) (d_k self) query) as [e|query']; cbn [bind];
    [discriminate|].
  destruct (split_heads (h self) (d_k self) key) as [e|key']; cbn [bind];
    [discriminate|].
  destruct (split_heads (h self) (d_k self) value) as [e|value']; cbn [bind];
    [discriminate|].
  destruct (MultiHeadAttentionBlock.attention query' key' value' (Some mask)
              (Some (dropout self))) as [e|xs] eqn:Hatt; cbn [bind];
    [discriminate|].
  rewrite (attention_mask_dropped _ _ _ _ _ Hatt). cbn [bind]. trivial.
Qed.

End MultiHeadMore.

(** ** run_validation *)

Section Validation.
Context {T Mask : Type} `{Torch T Mask}.

Variable model : Transformer.t T Mask.
Variables tokenizer_src tokenizer_tgt : Tokenizer.
Variable max_len : Z.
Variable num_examples : Z.

Lemma encode_calls_app (tr tr' : list (event Mask)) :
  encode_calls (tr ++ tr') = encode_calls tr ++ encode_calls tr'.
Proof. apply flat_map_app. Qed.

(** The number of examples a run goes through, when it ends normally
    having started with the counter at [count]. *)
Let examples_done (count : Z) (len : nat) : Z :=
  if ((count <? num_examples) && (num_examples <=? count + Z.of_nat len))%Z
  then (num_examples - count)%Z
  else Z.of_nat len.

Lemma run_validation_loop_counts (fuel : nat)
      (validation_ds : list (ValidationBatch.t Mask)) (count : Z)
      (printed : list string) :
  let r := run_validation_loop fuel model validation_ds tokenizer_src
                               tokenizer_tgt max_len num_examples count
                               printed in
  let calls := encode_calls (events r) in
  (length calls <= length validation_ds)%nat /\
  Forall (fun c => length (fst c) = 1%nat) calls /\
  ((count < num_examples)%Z ->
   (Z.of_nat (length calls) <= num_examples - count)%Z) /\
  ((1 <= max_len)%Z -> fuel = Z.to_nat max_len -> result r <> inr None) /\
  forall out, result r = inr (Some out) ->
    length out = (length printed + 4 * length calls)%nat /\
    Z.of_nat (length calls) = examples_done count (length validation_ds).
Proof.
  revert count printed.
  induction validation_ds as [|batch rest IH]; intros count printed;
    cbn [run_validation_loop]; cbv zeta.
  - cbn. split; [lia|]. split; [constructor|]. split; [lia|].
    split; [discriminate|].
    intros out [= <-]. split; [lia|]. unfold examples_done.
    destruct (Z.ltb_spec count num_examples);
      destruct (Z.leb_spec num_examples (count + Z.of_nat 0)); cbn [andb]; lia.
  - destruct (Nat.eqb_spec (length (ValidationBatch.encoder_input batch)) 1)
      as [Hone|Hnot]; cbn [negb].
    2:{ cbn. split; [lia|]. split; [constructor|]. split; [lia|].
        split; [discriminate|]. intros out Hout; discriminate. }
    rewrite tbind_events, tbind_result.
    destruct (greeedy_decode_encode_events model
                (ValidationBatch.encoder_mask batch)
                (token_to_id tokenizer_src) (token_to_id tokenizer_tgt)
                max_len fuel (ValidationBatch.encoder_input batch))
      as [Henc _].
    cbv zeta in Henc. rewrite encode_calls_app, Henc. cbn [app length].
    assert (Hfuel : (1 <= max_len)%Z -> fuel = Z.to_nat max_len ->
              result (greeedy_decode fuel model
                        (ValidationBatch.encoder_input batch)
                        (ValidationBatch.encoder_mask batch)
                        (token_to_id tokenizer_src) (token_to_id tokenizer_tgt)
                        max_len) <> inr None).
    { intros Hmax ->. now apply greeedy_decode_enough_fuel. }
    destruct (result (greeedy_decode _ _ _ _ _ _ _)) as [e|[model_out|]].
    + cbn. split; [lia|]. split; [repeat constructor; exact Hone|].
      split; [lia|]. split; [discriminate|]. intros out Hout; discriminate.
    + rewrite tbind_events, tbind_result. cbn [lift events result fst snd app].
      destruct (first_item (ValidationBatch.src_text batch)) as [e|source_text].
      { cbn. split; [lia|]. split; [repeat constructor; exact Hone|].
        split; [lia|]. split; [discriminate|]. intros out Hout; discriminate. }
      rewrite tbind_events, tbind_result. cbn [lift events result fst snd app].
      destruct (first_item (ValidationBatch.tgt_text batch)) as [e|target_text].
      { cbn. split; [lia|]. split; [repeat constructor; exact Hone|].
        split; [lia|]. split; [discriminate|]. intros out Hout; discriminate. }
      destruct (Z.eqb_spec (count + 1) num_examples) as [Hlast|Hmore].
      * cbn [tret events result fst snd encode_calls flat_map length].
        split; [lia|]. split; [repeat constructor; exact Hone|].
        split; [lia|]. split; [discriminate|].
        intros out [= <-]. rewrite length_app. cbn [length].
        split; [lia|]. unfold examples_done.
        destruct (Z.ltb_spec count num_examples);
          destruct (Z.leb_spec num_examples
                               (count + Z.of_nat (S (length rest))));
          cbn [andb]; lia.
      * set (printed' := printed ++ _).
        specialize (IH (count + 1)%Z printed'). cbv zeta in IH.
        destruct IH as (IHlen & IHall & IHnum & IHfuel & IHout).
        split; [lia|].
        split; [constructor; [exact Hone|exact IHall]|].
        split; [intros Hlt; lia|].
        split; [exact IHfuel|].
        intros out Hout. destruct (IHout out Hout) as [Hlen Hdone].
        assert (Hp : length printed' = (length printed + 4)%nat).
        { unfold printed'. rewrite length_app. reflexivity. }
        split; [lia|].
        unfold examples_done in *.
        destruct (Z.ltb_spec (count + 1) num_examples);
          destruct (Z.leb_spec num_examples
                               (count + 1 + Z.of_nat (length rest)));
          destruct (Z.ltb_spec count num_examples);
          destruct (Z.leb_spec num_examples
                               (count + Z.of_nat (S (length rest))));
          cbn [andb] in *; lia.
    + cbn. split; [lia|]. split; [repeat constructor; exact Hone|].
      split; [lia|].
      split; [intros Hmax Hf; exfalso; now apply (Hfuel Hmax Hf)|].
      intros out Hout; discriminate.
Qed.

(** [run_validation] decodes the batches in order and stops after
    [num_examples] of them: at most [num_examples] when that is 1 or more,
    and never more than there are.  The counter is compared after it is
    incremented, so with [num_examples <= 0] the comparison never holds and
    a run that ends normally has gone through the whole validation set.
    Each decoded batch has batch size 1, and each adds four printed
    messages. *)
Theorem run_validation_examples (fuel : nat)
        (validation_ds : list (ValidationBatch.t Mask)) :
  let r := run_validation fuel model validation_ds tokenizer_src tokenizer_tgt
                          max_len num_examples in
  let calls := encode_calls (events r) in
  (length calls <= length validation_ds)%nat /\
  Forall (fun c => length (fst c) = 1%nat) calls /\
  ((1 <= num_examples)%Z -> (Z.of_nat (length calls) <= num_examples)%Z) /\
  ((1 <= max_len)%Z -> fuel = Z.to_nat max_len -> result r <> inr None) /\
  forall out, result r = inr (Some out) ->
    length out = (4 * length calls)%nat /\
    Z.of_nat (length calls)
    = if ((1 <=? num_examples) && (num_examples <=? Z.of_nat (length validation_ds)))%Z
      then num_examples
      else Z.of_nat (length validation_ds).
Proof.
  cbv zeta. unfold run_validation.
  destruct (run_validation_loop_counts fuel validation_ds 0 [])
    as (Hlen & Hall & Hnum & Hfuel & Hout).
  cbv zeta in *. split; [exact Hlen|]. split; [exact Hall|].
  split; [intros Hn; specialize (Hnum ltac:(lia)); lia|].
  split; [exact Hfuel|].
  intros out Hres. destruct (Hout out Hres) as [Hl Hd].
  split; [cbn [length] in Hl; lia|].
  rewrite Hd. unfold examples_done.
  replace (0 <? num_examples)%Z with (1 <=? num_examples)%Z
    by (destruct (Z.leb_spec 1 num_examples);
        destruct (Z.ltb_spec 0 num_examples); lia).
  rewrite Z.add_0_l. destruct (_ && _); lia.
Qed.

End Validation.

(** ** Shapes through attention *)

Section AttentionShapes.
Local Open Scope nat_scope.

(** The product that [matmul] returns when the shapes fit. *)
Let mm (a b : tensor2) : tensor2 :=
  map (fun row => map (dot row) (transpose b)) a.

Lemma transpose_shape (m : tensor2) (n p : nat) :
  has_shape2 m n p -> 1 <= n -> has_shape2 (transpose m) p n.
Proof.
  intros [Hn Hrows] Hn1.
  assert (Hcols : ncols m = p).
  { unfold ncols. destruct m as [|row m']; [cbn in Hn; lia|].
    cbn [hd]. now apply Forall_inv in Hrows. }
  unfold transpose. rewrite Hcols. split.
  - now rewrite length_map, length_seq.
  - apply Forall_forall. intros col Hin. apply in_map_iff in Hin.
    destruct Hin as (c & <- & _). now rewrite length_map.
Qed.

Lemma matmul_shape (a b : tensor2) (m n p : nat) :
  has_shape2 a m n -> has_shape2 b n p -> 1 <= n ->
  matmul a b = inr (mm a b) /\ has_shape2 (mm a b) m p.
Proof.
  intros [Ha Harows] Hb Hn.
  destruct (transpose_shape Hb Hn) as [Htl _]. destruct Hb as [Hbn _].
  split.
  - unfold matmul.
    replace (forallb (fun row => length row =? length b) a) with true;
      [reflexivity|].
    symmetry. apply forallb_forall. intros row Hin.
    rewrite Forall_forall in Harows. rewrite (Harows row Hin), Hbn.
    apply Nat.eqb_refl.
  - unfold mm. split; [now rewrite length_map|].
    apply Forall_forall. intros r Hin. apply in_map_iff in Hin.
    destruct Hin as (row & <- & _). now rewrite length_map.
Qed.

(** Zipping two equally long axes whose elements have the right shapes. *)
Lemma bzip_shapes {A B C : Type} (f : A -> B -> Result C) (g : A -> B -> C)
      (P : A -> Prop) (Q : B -> Prop) (Sh : C -> Prop) (a : list A) (b : list B) :
  length a = length b -> Forall P a -> Forall Q b ->
  (forall x y, P x -> Q y -> f x y = inr (g x y) /\ Sh (g x y)) ->
  bzip f a b = inr (zip_with g a b) /\
  length (zip_with g a b) = length a /\
  Forall Sh (zip_with g a b).
Proof.
  intros Hlen Ha Hb Hf. split; [|split].
  - apply bzip_zip_with; [exact Hlen|]. intros x y Hin.
    rewrite Forall_forall in Ha, Hb.
    apply Hf; [apply Ha; eapply in_combine_l|apply Hb; eapply in_combine_r];
      eassumption.
  - rewrite zip_with_length. lia.
  - eapply Forall_zip_with; [exact Ha|exact Hb|].
    intros x y Hx Hy. now apply Hf.
Qed.

Lemma matmul4_shape (a b : tensor4) (B h m n p : nat) :
  has_shape4 a B h m n -> has_shape4 b B h n p -> 1 <= n ->
  matmul4 a b = inr (zip_with (zip_with mm) a b) /\
  has_shape4 (zip_with (zip_with mm) a b) B h m p.
Proof.
  intros [HaB Ha] [HbB Hb] Hn. unfold matmul4.
  destruct (bzip_shapes (bzip matmul) (zip_with mm)
              (fun t => has_shape3 t h m p)
              (P := fun t => has_shape3 t h m n)
              (Q := fun t => has_shape3 t h n p) (a := a) (b := b))
    as (Hz & Hl & Hs); try assumption; [congruence| |].
  - intros x y [Hxh Hx] [Hyh Hy].
    destruct (bzip_shapes matmul mm
                (fun t => has_shape2 t m p)
                (P := fun t => has_shape2 t m n)
                (Q := fun t => has_shape2 t n p) (a := x) (b := y))
      as (Hz & Hl & Hs); try assumption; [congruence| |].
    + intros u w Hu Hw. now apply matmul_shape with (n := n).
    + split; [exact Hz|]. split; [congruence|exact Hs].
  - split; [exact Hz|]. split; [congruence|exact Hs].
Qed.

Lemma has_shape4_map3 (f : list R -> list R) (x : tensor4) (B h s d d' : nat) :
  (forall v, length v = d -> length (f v) = d') ->
  has_shape4 x B h s d -> has_shape4 (map (map (map f)) x) B h s d'.
Proof.
  intros Hf [HB Hx]. split; [now rewrite length_map|].
  apply Forall_forall. intros t' Hin. apply in_map_iff in Hin.
  destruct Hin as (t & <- & Hin). rewrite Forall_forall in Hx.
  destruct (Hx t Hin) as [Hh Ht]. split; [now rewrite length_map|].
  apply Forall_forall. intros m' Hm'. apply in_map_iff in Hm'.
  destruct Hm' as (m & <- & Hm). rewrite Forall_forall in Ht.
  destruct (Ht m Hm) as [Hs Hrows]. split; [now rewrite length_map|].
  apply Forall_forall. intros v' Hv'. apply in_map_iff in Hv'.
  destruct Hv' as (v & <- & Hv). rewrite Forall_forall in Hrows.
  apply Hf. now apply Hrows.
Qed.

Lemma has_shape4_transpose (k : tensor4) (B h n p : nat) :
  has_shape4 k B h n p -> 1 <= n ->
  has_shape4 (map (map transpose) k) B h p n.
Proof.
  intros [HB Hk] Hn. split; [now rewrite length_map|].
  apply Forall_forall. intros t' Hin. apply in_map_iff in Hin.
  destruct Hin as (t & <- & Hin). rewrite Forall_forall in Hk.
  destruct (Hk t Hin) as [Hh Ht]. split; [now rewrite length_map|].
  apply Forall_forall. intros m' Hm'. apply in_map_iff in Hm'.
  destruct Hm' as (m & <- & Hm). rewrite Forall_forall in Ht.
  apply transpose_shape; [now apply Ht|exact Hn].
Qed.

Lemma attention_returns_shapes (query key value : tensor4)
        (dropout : option (tensor4 -> tensor4)) (B h Lq Lk dk dv : nat) :
  has_shape4 query B h Lq dk ->
  has_shape4 key B h Lk dk ->
  has_shape4 value B h Lk dv ->
  1 <= Lk -> 1 <= dk ->
  (forall d, dropout = Some d -> forall t, d t = t) ->
  exists out scores,
    MultiHeadAttentionBlock.attention query key value None dropout
    = inr (out, scores) /\
    has_shape4 out B h Lq dv /\
    has_shape4 scores B h Lq Lk.
Proof.
  intros Hq Hk Hv HLk Hdk Hdrop.
  pose proof (has_shape4_transpose Hk HLk) as HkT.
  destruct (matmul4_shape Hq HkT Hdk) as [Hqk Hqks].
  unfold MultiHeadAttentionBlock.attention. rewrite Hqk. cbn [bind ret].
  set (qk := zip_with (zip_with mm) query (map (map transpose) key)) in *.
  set (scores := map (map (map softmax))
                     (map4 (fun s => (s / sqrt (INR (last_dim query)))%R) qk)).
  assert (Hscores : has_shape4 scores B h Lq Lk).
  { unfold scores, map4. rewrite !map_map.
    assert (Heq : map (fun t => map (map softmax)
                       (map (map (map (fun s => (s / sqrt (INR (last_dim query)))%R))) t)) qk
                  = map (map (map (fun v => softmax
                       (map (fun s => (s / sqrt (INR (last_dim query)))%R) v)))) qk).
    { apply map_ext. intros t. rewrite map_map. apply map_ext. intros m.
      now rewrite map_map. }
    rewrite Heq. apply has_shape4_map3 with (d := Lk); [|exact Hqks].
    intros v Hlen. now rewrite softmax_length, length_map. }
  assert (Hd : match dropout with
               | Some d => d scores
               | None => scores
               end = scores).
  { destruct dropout as [d|]; [now apply (Hdrop d)|reflexivity]. }
  rewrite Hd.
  destruct (matmul4_shape Hscores Hv HLk) as [Hout Houts].
  rewrite Hout. cbn [bind]. do 2 eexists.
  split; [reflexivity|]. split; assumption.
Qed.

(** With dropout absent or switched off, [attention] returns for inputs
    of matching shapes when no mask is given, and whatever it returns,
    with a mask or without, has these shapes: the attended values have the
    shape of the query with the feature size of the values, and the scores
    have one row per query position and one column per key position. *)
Theorem attention_shapes (query key value : tensor4)
        (dropout : option (tensor4 -> tensor4)) (B h Lq Lk dk dv : nat) :
  has_shape4 query B h Lq dk ->
  has_shape4 key B h Lk dk ->
  has_shape4 value B h Lk dv ->
  1 <= Lk -> 1 <= dk ->
  (forall d, dropout = Some d -> forall t, d t = t) ->
  (exists out scores,
     MultiHeadAttentionBlock.attention query key value None dropout
     = inr (out, scores)) /\
  (forall mask out scores,
     MultiHeadAttentionBlock.attention query key value mask dropout
     = inr (out, scores) ->
     has_shape4 out B h Lq dv /\ has_shape4 scores B h Lq Lk).
Proof.
  intros Hq Hk Hv HLk Hdk Hdrop.
  destruct (attention_returns_shapes Hq Hk Hv HLk Hdk Hdrop)
    as (out0 & scores0 & Hnone & Hout & Hscores).
  split; [now exists out0, scores0|].
  intros mask out scores Hret.
  assert (Hsame : MultiHeadAttentionBlock.attention query key value None dropout
                  = inr (out, scores)).
  { destruct mask as [mask|]; [|exact Hret].
    now apply attention_mask_dropped with (mask := mask). }
  rewrite Hnone in Hsame. injection Hsame as <- <-. now split.
Qed.

End AttentionShapes.

(** ** Shapes through the multi-head block *)

Section MultiHeadShapes.
Import MultiHead.
Local Open Scope nat_scope.

Lemma chunks_sizes (n size : nat) (v : list R) :
  length v = n * size -> Forall (fun c => length c = size) (chunks n size v).
Proof.
  revert v; induction n as [|n IH]; intros v Hlen; cbn [chunks];
    constructor.
  - rewrite length_firstn. cbn in Hlen. lia.
  - apply IH. rewrite length_skipn. cbn in Hlen. lia.
Qed.

Lemma concat_length (heads : list (list R)) (n size : nat) :
  length heads = n -> Forall (fun c => length c = size) heads ->
  length (concat heads) = n * size.
Proof.
  intros <- Hall. induction Hall as [|c heads Hc _ IH]; [reflexivity|].
  cbn [concat length]. rewrite length_app, IH, Hc. reflexivity.
Qed.

Lemma transpose12_shape (x : tensor4) (B a b d : nat) :
  has_shape4 x B a b d -> 1 <= a -> has_shape4 (transpose12 x) B b a d.
Proof.
  intros [HB Hx] Ha. unfold transpose12. split; [now rewrite length_map|].
  apply Forall_forall. intros t Hin. apply in_map_iff in Hin.
  destruct Hin as (m & <- & Hm). rewrite Forall_forall in Hx.
  destruct (Hx m Hm) as [Hma Hrows].
  assert (Hcols : ncols m = b).
  { unfold ncols. destruct m as [|row m']; [cbn in Hma; lia|].
    cbn [hd]. apply Forall_inv in Hrows. now destruct Hrows. }
  rewrite Hcols. split; [now rewrite length_map, length_seq|].
  apply Forall_forall. intros col Hcol. apply in_map_iff in Hcol.
  destruct Hcol as (i & <- & Hi). apply in_seq in Hi.
  split; [now rewrite length_map|].
  apply Forall_forall. intros v Hv. apply in_map_iff in Hv.
  destruct Hv as (row & <- & Hrow). rewrite Forall_forall in Hrows.
  destruct (Hrows row Hrow) as [Hlen Hvs]. rewrite Forall_forall in Hvs.
  apply Hvs. apply nth_In. lia.
Qed.

Lemma split_heads_shape (hd dk : nat) (x : tensor3) (B L : nat) :
  1 <= L -> has_shape3 x B L (hd * dk) ->
  exists s, split_heads hd dk x = inr s /\ has_shape4 s B hd L dk.
Proof.
  intros HL [HxB Hx].
  assert (Hview : view_heads hd dk x = inr (map (map (chunks hd dk)) x)).
  { unfold view_heads. apply mapM_ret.
    eapply Forall_impl; [|exact Hx]. intros m [_ Hm].
    apply mapM_ret. eapply Forall_impl; [|exact Hm]. intros v Hv.
    now rewrite Hv, Nat.eqb_refl. }
  unfold split_heads. rewrite Hview. cbn [bind ret].
  eexists. split; [reflexivity|].
  apply transpose12_shape; [|exact HL].
  split; [now rewrite length_map|].
  apply Forall_forall. intros t Hin. apply in_map_iff in Hin.
  destruct Hin as (m & <- & Hm). rewrite Forall_forall in Hx.
  destruct (Hx m Hm) as [Hlen Hrows]. split; [now rewrite length_map|].
  apply Forall_forall. intros c Hc. apply in_map_iff in Hc.
  destruct Hc as (v & <- & Hv). rewrite Forall_forall in Hrows.
  split; [apply chunks_length|]. apply chunks_sizes. now apply Hrows.
Qed.

Lemma merge_heads_shape (hd dk : nat) (x : tensor4) (B L : nat) :
  1 <= B -> 1 <= hd -> 1 <= dk -> has_shape4 x B hd L dk ->
  exists y, merge_heads hd dk x = inr y /\ has_shape3 y B L (hd * dk).
Proof.
  intros HB Hh Hd Hx. pose proof (transpose12_shape Hx Hh) as [HtB Ht].
  unfold merge_heads. destruct Hx as [HxB _]. rewrite HxB.
  destruct (Nat.eqb_spec (B * (hd * dk)) 0) as [H0|_]; [nia|].
  rewrite (mapM_ret _ (map (@concat R))).
  - eexists. split; [reflexivity|]. split; [now rewrite length_map|].
    apply Forall_forall. intros m' Hin. apply in_map_iff in Hin.
    destruct Hin as (m & <- & Hm). rewrite Forall_forall in Ht.
    destruct (Ht m Hm) as [Hlen Hrows]. split; [now rewrite length_map|].
    apply Forall_forall. intros v Hv. apply in_map_iff in Hv.
    destruct Hv as (heads & <- & Hheads). rewrite Forall_forall in Hrows.
    destruct (Hrows heads Hheads) as [Hn Hsizes]. now apply concat_length.
  - eapply Forall_impl; [|exact Ht]. intros m [_ Hrows].
    apply mapM_ret. eapply Forall_impl; [|exact Hrows].
    intros heads [Hn Hsizes]. cbv zeta.
    now rewrite (concat_length Hn Hsizes), Nat.eqb_refl.
Qed.

(** With four well-formed [d_model -> d_model] linear layers, [h] heads of
    size [d_k] making up [d_model], dropout switched off and no mask,
    [forward] returns for a query of shape (B, Lq, d_model) and keys and
    values of shape (B, Lk, d_model): the output has the shape of the
    query, and the scores stored on the module have shape
    (B, h, Lq, Lk). *)
Theorem MultiHead_forward_shapes (self : t) (q k v : tensor3) (B Lq Lk : nat) :
  Linear.wf (w_q self) -> Linear.wf (w_k self) ->
  Linear.wf (w_v self) -> Linear.wf (w_o self) ->
  (forall w, In w [w_q self; w_k self; w_v self; w_o self] ->
             Linear.in_features w = d_model self /\
             Linear.out_features w = d_model self) ->
  h self * d_k self = d_model self ->
  (forall t, dropout self t = t) ->
  1 <= B -> 1 <= Lq -> 1 <= Lk -> 1 <= h self -> 1 <= d_k self ->
  has_shape3 q B Lq (d_model self) ->
  has_shape3 k B Lk (d_model self) ->
  has_shape3 v B Lk (d_model self) ->
  exists self' out scores,
    forward self q k v None = inr (self', out) /\
    has_shape3 out B Lq (d_model self) /\
    attention_scores self' = Some scores /\
    has_shape4 scores B (h self) Lq Lk.
Proof.
  intros Hwq Hwk Hwv Hwo Hdims Hhd Hdrop HB HLq HLk Hh Hdk Hq Hk Hv.
  destruct (Hdims (w_q self)) as [Hqi Hqo]; [cbn; tauto|].
  destruct (Hdims (w_k self)) as [Hki Hko]; [cbn; tauto|].
  destruct (Hdims (w_v self)) as [Hvi Hvo]; [cbn; tauto|].
  destruct (Hdims (w_o self)) as [Hoi Hoo]; [cbn; tauto|].
  rewrite <- Hqi in Hq. rewrite <- Hki in Hk. rewrite <- Hvi in Hv.
  destruct (Linear_forward_rows Hwq Hq) as [Eq Sq].
  destruct (Linear_forward_rows Hwk Hk) as [Ek Sk].
  destruct (Linear_forward_rows Hwv Hv) as [Ev Sv].
  rewrite Hqo, <- Hhd in Sq. rewrite Hko, <- Hhd in Sk.
  rewrite Hvo, <- Hhd in Sv.
  destruct (split_heads_shape (h self) (d_k self) HLq Sq) as (query & Esq & Ssq).
  destruct (split_heads_shape (h self) (d_k self) HLk Sk) as (key & Esk & Ssk).
  destruct (split_heads_shape (h self) (d_k self) HLk Sv) as (value & Esv & Ssv).
  destruct (attention_returns_shapes (dropout := Some (dropout self)) Ssq Ssk Ssv HLk Hdk)
    as (x & scores & Eatt & Sx & Sscores).
  { intros d [= <-]. exact Hdrop. }
  destruct (merge_heads_shape HB Hh Hdk Sx) as (y & Ey & Sy).
  rewrite Hhd, <- Hoi in Sy.
  destruct (Linear_forward_rows Hwo Sy) as [Eo So].
  rewrite Hoo in So.
  unfold forward. rewrite Eq. cbn [bind]. rewrite Ek. cbn [bind].
  rewrite Ev. cbn [bind]. rewrite Esq. cbn [bind]. rewrite Esk. cbn [bind].
  rewrite Esv. cbn [bind]. rewrite Eatt. cbn [bind]. rewrite Ey. cbn [bind].
  rewrite Eo. cbn [bind ret].
  do 3 eexists. split; [reflexivity|]. cbn [attention_scores].
  split; [exact So|]. split; [reflexivity|exact Sscores].
Qed.

End MultiHeadShapes.

(** ** Attention calls of the encoder and decoder stacks *)

Section Stacks.
Context {T Mask : Type} `{Torch T Mask}.
Local Open Scope traced_scope.

Lemma records_tbind {A B : Type} (m : traced Mask A) (k : A -> traced Mask B)
      (full1 full2 : list (event Mask)) :
  records m full1 -> (forall a, records (k a) full2) ->
  records (tbind m k) (full1 ++ full2).
Proof.
  intros [[rest1 Hpre1] Hall1] Hk. unfold records.
  rewrite tbind_events, tbind_result.
  destruct (result m) as [e|a] eqn:Hm.
  - split; [|discriminate].
    exists (rest1 ++ full2). rewrite Hpre1, app_nil_r. now rewrite app_assoc.
  - destruct (Hk a) as [[rest2 Hpre2] Hall2].
    rewrite (Hall1 a eq_refl). split.
    + exists rest2. rewrite Hpre2. now rewrite app_assoc.
    + intros b Hb. now rewrite (Hall2 b Hb).
Qed.

Lemma records_lift {A : Type} (r : Result A) :
  records (lift r : traced Mask A) [].
Proof. split; [now exists []|reflexivity]. Qed.

Lemma records_tret {A : Type} (a : A) : records (tret a : traced Mask A) [].
Proof. split; [now exists []|reflexivity]. Qed.

Lemma records_tell (e : event Mask) : records (tell e) [e].
Proof. split; [now exists []|reflexivity]. Qed.

(** A residual connection records what its sublayer records. *)
Lemma records_residual (rc : ResidualConnection.t T) (x : T)
      (sublayer : T -> traced Mask T) (full : list (event Mask)) :
  (forall n, records (sublayer n) full) ->
  records (ResidualConnection.forward rc x sublayer) full.
Proof.
  intros Hs. unfold ResidualConnection.forward.
  change full with ([] ++ full).
  apply records_tbind; [apply records_lift|]. intros n.
  rewrite <- (app_nil_r full).
  apply records_tbind; [apply Hs|]. intros s. apply records_lift.
Qed.

Lemma records_EncoderBlock (layer : EncoderBlock.t T Mask) (x : T) (mask : Mask) :
  records (EncoderBlock.forward layer x mask) [SelfAttention mask].
Proof.
  unfold EncoderBlock.forward.
  change [SelfAttention mask] with ([SelfAttention mask] ++ [] ++ []).
  apply records_tbind.
  - apply records_residual. intros n.
    change [SelfAttention mask] with ([SelfAttention mask] ++ []).
    apply records_tbind; [apply records_tell|]. intros _. apply records_lift.
  - intros x1. apply records_tbind; [|intros; apply records_tret].
    apply records_residual. intros n. apply records_lift.
Qed.

Lemma records_DecoderBlock (layer : DecoderBlock.t T Mask) (x encoder_output : T)
      (src_mask tgt_mask : Mask) :
  records (DecoderBlock.forward layer x encoder_output src_mask tgt_mask)
          [SelfAttention tgt_mask; CrossAttention src_mask].
Proof.
  unfold DecoderBlock.forward.
  destruct (DecoderBlock.residual_connections layer) as [[rc0 rc1] rc2].
  change [SelfAttention tgt_mask; CrossAttention src_mask]
    with ([SelfAttention tgt_mask] ++ [CrossAttention src_mask] ++ [] ++ []).
  apply records_tbind.
  - apply records_residual. intros n.
    change [SelfAttention tgt_mask] with ([SelfAttention tgt_mask] ++ []).
    apply records_tbind; [apply records_tell|]. intros _. apply records_lift.
  - intros x1. apply records_tbind.
    + apply records_residual. intros n.
      change [CrossAttention src_mask] with ([CrossAttention src_mask] ++ []).
      apply records_tbind; [apply records_tell|]. intros _. apply records_lift.
    + intros x2. apply records_tbind; [|intros; apply records_tret].
      apply records_residual. intros n. apply records_lift.
Qed.

(** [Transformer.encode] records its own call and then one self-attention
    call per encoder layer, each with [src_mask]: all of them when it
    returns, the first few when a layer or a norm raises. *)
Theorem Transformer_encode_attention_calls (model : Transformer.t T Mask)
        (src : list (list Z)) (src_mask : Mask) :
  let r := Transformer.encode model src src_mask in
  let full :=
    EncodeCall src src_mask
    :: map (fun _ => SelfAttention src_mask)
           (Encoder.layers (Transformer.encoder model)) in
  (exists rest, full = events r ++ rest) /\
  (forall y, result r = inr y -> events r = full).
Proof.
  cbv zeta. fold (records (Transformer.encode model src src_mask)
    (EncodeCall src src_mask
     :: map (fun _ => SelfAttention src_mask)
            (Encoder.layers (Transformer.encoder model)))).
  unfold Transformer.encode.
  change (EncodeCall src src_mask
          :: map (fun _ => SelfAttention src_mask)
                 (Encoder.layers (Transformer.encoder model)))
    with ([EncodeCall src src_mask] ++ [] ++ []
          ++ map (fun _ => SelfAttention src_mask)
                 (Encoder.layers (Transformer.encoder model))).
  apply records_tbind; [apply records_tell|]. intros _.
  apply records_tbind; [apply records_lift|]. intros x.
  apply records_tbind; [apply records_lift|]. intros x'.
  unfold Encoder.forward.
  rewrite <- (app_nil_r (map _ _)).
  apply records_tbind; [|intros; apply records_lift].
  generalize (Encoder.layers (Transformer.encoder model)) as layers.
  intros layers. revert x'.
  induction layers as [|layer rest IH]; intros x';
    cbn [Encoder.run_layers map].
  - apply records_tret.
  - change (SelfAttention src_mask :: map (fun _ => SelfAttention src_mask) rest)
      with ([SelfAttention src_mask]
            ++ map (fun _ : EncoderBlock.t T Mask => SelfAttention src_mask) rest).
    apply records_tbind; [apply records_EncoderBlock|]. intros x1. apply IH.
Qed.

(** [Transformer.decode] records its own call and then, for every decoder
    layer in turn, a self-attention call with [tgt_mask] followed by a
    cross-attention call with [src_mask]: all of them when it returns, an
    initial part when something raises. *)
Theorem Transformer_decode_attention_calls (model : Transformer.t T Mask)
        (encoder_output : T) (src_mask : Mask) (tgt : list (list Z))
        (tgt_mask : Mask) :
  let r := Transformer.decode model encoder_output src_mask tgt tgt_mask in
  let full :=
    DecodeCall src_mask tgt tgt_mask
    :: concat (map (fun _ => [SelfAttention tgt_mask; CrossAttention src_mask])
                   (Decoder.layers (Transformer.decoder model))) in
  (exists rest, full = events r ++ rest) /\
  (forall y, result r = inr y -> events r = full).
Proof.
  cbv zeta.
  fold (records (Transformer.decode model encoder_output src_mask tgt tgt_mask)
    (DecodeCall src_mask tgt tgt_mask
     :: concat (map (fun _ => [SelfAttention tgt_mask; CrossAttention src_mask])
                    (Decoder.layers (Transformer.decoder model))))).
  unfold Transformer.decode.
  change (DecodeCall src_mask tgt tgt_mask
          :: concat (map (fun _ => [SelfAttention tgt_mask; CrossAttention src_mask])
                         (Decoder.layers (Transformer.decoder model))))
    with ([DecodeCall src_mask tgt tgt_mask] ++ [] ++ []
          ++ concat (map (fun _ => [SelfAttention tgt_mask; CrossAttention src_mask])
                         (Decoder.layers (Transformer.decoder model)))).
  apply records_tbind; [apply records_tell|]. intros _.
  apply records_tbind; [apply records_lift|]. intros x.
  apply records_tbind; [apply records_lift|]. intros x'.
  unfold Decoder.forward.
  rewrite <- (app_nil_r (concat _)).
  apply records_tbind; [|intros; apply records_lift].
  generalize (Decoder.layers (Transformer.decoder model)) as layers.
  intros layers. revert x'.
  induction layers as [|layer rest IH]; intros x';
    cbn [Decoder.run_layers map concat].
  - apply records_tret.
  - apply records_tbind; [apply records_DecoderBlock|]. intros x1. apply IH.
Qed.

End Stacks.

(** ** The further statements at the small instances *)

Lemma getitem_outcomes_witness :
  BilingualDataset.__getitem__ Examples.dataset 1 = inl IndexError.
Proof.
  apply (proj1 (@getitem_outcomes Examples.dataset 1)). vm_compute. lia.
Defined.

Lemma getitem_label_is_shifted_decoder_input_witness :
  nth 0 (BilingualDataset.decoder_input Examples.small_sample) 0%Z = 2%Z /\
  nth 0 (BilingualDataset.label Examples.small_sample) 0%Z
  = nth 1 (BilingualDataset.decoder_input Examples.small_sample) 0%Z /\
  nth 1 (BilingualDataset.label Examples.small_sample) 0%Z = 3%Z.
Proof.
  destruct (@getitem_label_is_shifted_decoder_input
              Examples.small_dataset 0 Examples.small_sample eq_refl)
    as (Hsos & Hshift & Heos & _).
  split; [exact Hsos|]. split; [|exact Heos].
  apply (Hshift 0%nat). simpl. lia.
Defined.

Lemma getitem_masks_keep_first_column_witness :
  nth 0 (nth 0 (BilingualDataset.encoder_mask Examples.small_sample) []) 0%Z
  = 1%Z /\
  nth 0 (nth 3 (nth 0 (BilingualDataset.decoder_mask Examples.small_sample) [])
               []) 0%Z = 1%Z.
Proof.
  assert (Hne : BilingualDataset.sos_token Examples.small_dataset
                <> BilingualDataset.pad_token Examples.small_dataset).
  { simpl. lia. }
  destruct (@getitem_masks_keep_first_column
              Examples.small_dataset 0 Examples.small_sample eq_refl Hne)
    as [Henc Hdec].
  split; [exact Henc|]. apply (Hdec 3%nat). simpl. lia.
Defined.

Lemma causal_mask_prefix_witness :
  causal_mask 2
  = map (fun plane => map (firstn 2) (firstn 2 plane)) (causal_mask 3).
Proof. apply causal_mask_prefix. lia. Defined.

Lemma InputEmbeddings_forward_index_error_witness :
  InputEmbeddings.forward Examples.embeddings [[0; 5]]%Z = inl IndexError.
Proof.
  apply InputEmbeddings_forward_index_error.
  - split; [reflexivity|]. repeat constructor.
  - apply Exists_cons_hd. apply Exists_cons_tl. apply Exists_cons_hd.
    simpl. lia.
Defined.

Lemma PositionalEncoding_init_odd_raises_witness :
  PositionalEncoding.__init__ 3 2 (fun x => x) = shape_error.
Proof.
  apply PositionalEncoding_init_odd_raises; [reflexivity|lia].
Defined.

Lemma PositionalEncoding_buffer_bounded_witness :
  exists m,
    PositionalEncoding.__init__ 2 2 (fun x => x) = inr m /\
    has_shape3 (PositionalEncoding.pe m) 1 2 2 /\
    Forall (Forall (Forall (fun v => (-1 <= v <= 1)%R)))
           (PositionalEncoding.pe m).
Proof.
  eexists. split; [reflexivity|].
  apply (@PositionalEncoding_buffer_bounded 2 2 (fun x => x)). reflexivity.
Defined.

Lemma PositionalEncoding_forward_adds_rows_witness :
  PositionalEncoding.forward MoreExamples.positional [[[1; 1]]]%R
  = inr [[[1 + 0; 1 + 1]]]%R.
Proof.
  apply (@PositionalEncoding_forward_adds_rows
           MoreExamples.positional [[0; 1]; [1; 0]]%R eq_refl
           [[[1; 1]]]%R 1%nat 1%nat 2%nat).
  - split; [reflexivity|]. repeat constructor.
  - split; [reflexivity|]. repeat constructor.
  - simpl. lia.
Defined.

Lemma PositionalEncoding_forward_too_long_witness :
  PositionalEncoding.forward MoreExamples.positional
                             [[[1; 1]; [1; 1]; [1; 1]]]%R
  = shape_error.
Proof.
  apply (@PositionalEncoding_forward_too_long
           MoreExamples.positional [[0; 1]; [1; 0]]%R eq_refl
           [[[1; 1]; [1; 1]; [1; 1]]]%R 1%nat 3%nat 2%nat).
  - split; [reflexivity|]. repeat constructor.
  - reflexivity.
  - lia.
  - simpl. lia.
  - simpl. lia.
Defined.

Lemma LayerNormalization_forward_row_mean_witness :
  LayerNormalization.mean
    (LayerNormalization.forward_row LayerNormalization.__init__ [1; 2; 3]%R)
  = (1 + 0)%R.
Proof.
  apply (@LayerNormalization_forward_row_mean
           LayerNormalization.__init__ [1; 2; 3]%R).
  - simpl. lia.
  - simpl. lra.
Defined.

Lemma LayerNormalization_forward_row_constant_witness :
  LayerNormalization.forward_row LayerNormalization.__init__ (repeat 5%R 3)
  = repeat (1 + 0)%R 3.
Proof.
  assert (Hn : (2 <= 3)%nat) by lia.
  assert (Heps : (0 < LayerNormalization.eps LayerNormalization.__init__)%R).
  { simpl. lra. }
  exact (proj2 (proj2 (@LayerNormalization_forward_row_constant
                         LayerNormalization.__init__ 5%R 3%nat Hn Heps))).
Defined.

Lemma LayerNormalization_forward_row_shift_witness :
  LayerNormalization.forward_row LayerNormalization.__init__
                                 (map (fun x => (x + 10)%R) [1; 2; 3]%R)
  = LayerNormalization.forward_row LayerNormalization.__init__ [1; 2; 3]%R.
Proof.
  apply LayerNormalization_forward_row_shift.
  - simpl. lia.
  - simpl. lra.
Defined.

Lemma attention_scores_are_distributions_witness :
  exists out scores,
    MultiHeadAttentionBlock.attention
      [[[[1]; [2]]]]%R [[[[1]; [0]]]]%R [[[[1]; [2]]]]%R None None
    = inr (out, scores) /\
    Forall (Forall (Forall (fun row =>
      Forall (fun p => (0 < p <= 1)%R) row /\
      (row <> [] -> sum row = 1%R)))) scores.
Proof.
  do 2 eexists. split; [reflexivity|].
  eapply (@attention_scores_are_distributions
           [[[[1]; [2]]]]%R [[[[1]; [0]]]]%R [[[[1]; [2]]]]%R None).
  reflexivity.
Defined.

Lemma ProjectionLayer_forward_nonpositive_witness :
  exists y,
    ProjectionLayer.forward Examples.projection [[[1; 2]]]%R = inr y /\
    Forall (Forall (Forall (fun v => (v <= 0)%R))) y.
Proof.
  eexists. split; [reflexivity|].
  apply (@ProjectionLayer_forward_nonpositive Examples.projection [[[1; 2]]]%R).
  reflexivity.
Defined.

Lemma ProjectionLayer_forward_shape_error_witness :
  ProjectionLayer.forward Examples.projection [[[1; 2; 3]]]%R = shape_error.
Proof.
  apply ProjectionLayer_forward_shape_error.
  apply Exists_cons_hd. apply Exists_cons_hd. simpl. lia.
Defined.

Lemma greeedy_decode_length_bounds_witness :
  exists out,
    result (greeedy_decode 5 Examples.model Examples.source
                           Examples.source_mask Examples.tokenizer
                           Examples.tokenizer 5) = inr (Some out) /\
    (1 <= length out)%nat /\ (Z.of_nat (length out) <= 5)%Z.
Proof.
  assert (Hmax : (1 <= 5)%Z) by lia.
  eexists. split; [reflexivity|].
  apply (@greeedy_decode_length_bounds _ _ Examples.torch Examples.model
           Examples.source_mask Examples.tokenizer Examples.tokenizer
           5%Z 5%nat Examples.source _ Hmax).
  reflexivity.
Defined.

Lemma greeedy_decode_max_len_below_one_witness :
  exists out,
    result (greeedy_decode 10 Examples.model Examples.source
                           Examples.source_mask Examples.tokenizer
                           Examples.tokenizer 0) = inr (Some out) /\
    (2 <= length out)%nat /\ last out 0%Z = 3%Z.
Proof.
  assert (Hmax : (0 < 1)%Z) by lia.
  eexists. split; [reflexivity|].
  apply (proj1 (@greeedy_decode_max_len_below_one _ _ Examples.torch
                  Examples.model Examples.source_mask Examples.tokenizer
                  Examples.tokenizer 0%Z Examples.source Hmax) 10%nat).
  reflexivity.
Defined.

Lemma train_epoch_decode_calls_witness :
  decode_calls
    (events (train_epoch (fun model _ _ => model) Examples.model
                         [Examples.batch; Examples.batch]))
  = [(Batch.decoder_mask Examples.batch, Batch.decoder_input Examples.batch,
      Batch.decoder_mask Examples.batch);
     (Batch.decoder_mask Examples.batch, Batch.decoder_input Examples.batch,
      Batch.decoder_mask Examples.batch)].
Proof.
  destruct (@train_epoch_decode_calls _ _ Examples.torch
              (fun model _ _ => model) Examples.model
              [Examples.batch; Examples.batch])
    as (k & _ & Hcalls & Hend).
  rewrite (Hend Examples.model eq_refl) in Hcalls. exact Hcalls.
Defined.

Lemma get_weights_file_path_key_error_witness :
  get_weights_file_path MoreExamples.format_value MoreExamples.path_str
                        [("model_folder", PyStr "weights")]%string "07"
  = inl (KeyError "model_basename").
Proof.
  apply (proj1 (proj2 (get_weights_file_path_key_error
                         MoreExamples.format_value MoreExamples.path_str "07"))).
  - simpl. left. reflexivity.
  - simpl. intros [H|[]]. discriminate H.
Defined.

Lemma FeedForwardBlock_forward_positionwise_witness :
  exists y,
    FeedForwardBlock.forward MoreExamples.feed_forward [[[1; 2]; [3; 4]]]%R
    = inr y /\
    has_shape3 y 1 2 2.
Proof.
  destruct (@FeedForwardBlock_forward_positionwise
              MoreExamples.feed_forward [[[1; 2]; [3; 4]]]%R 1 2) as [Hy Hs].
  - split; [reflexivity|]. split; [repeat constructor|reflexivity].
  - split; [reflexivity|]. split; [repeat constructor|reflexivity].
  - reflexivity.
  - reflexivity.
  - split; [reflexivity|]. repeat constructor.
  - eexists. split; [exact Hy|exact Hs].
Defined.

Lemma MultiHead_init_outcomes_witness :
  MultiHead.__init__ 512 0 MoreExamples.identity2 MoreExamples.identity2
                     MoreExamples.identity2 MoreExamples.identity2
                     (fun x => x)
  = inl (Builtin ZeroDivisionError) /\
  MultiHead.__init__ 512 7 MoreExamples.identity2 MoreExamples.identity2
                     MoreExamples.identity2 MoreExamples.identity2
                     (fun x => x)
  = inl (Builtin AssertionError).
Proof.
  split.
  - apply (proj1 (MultiHead_init_outcomes 512 0 _ _ _ _ _)). reflexivity.
  - apply (proj1 (proj2 (MultiHead_init_outcomes 512 7 _ _ _ _ _))).
    + lia.
    + simpl. lia.
Defined.

Lemma merge_split_heads_witness :
  exists s,
    MultiHead.split_heads 2 1 [[[1; 2]; [3; 4]]]%R = inr s /\
    length s = 1%nat /\
    MultiHead.merge_heads 2 1 s = inr [[[1; 2]; [3; 4]]]%R.
Proof.
  apply (@merge_split_heads 2 1 [[[1; 2]; [3; 4]]]%R 1 2); try lia.
  split; [reflexivity|]. repeat constructor.
Defined.

Lemma MultiHead_forward_mask_dropped_witness :
  exists r,
    MultiHead.forward MoreExamples.two_heads [[[1; 2]]]%R [[[1; 2]]]%R
                      [[[1; 2]]]%R (Some [[[[0]]]]%Z) = inr r /\
    MultiHead.forward MoreExamples.two_heads [[[1; 2]]]%R [[[1; 2]]]%R
                      [[[1; 2]]]%R None = inr r.
Proof.
  eexists. split; [reflexivity|].
  apply MultiHead_forward_mask_dropped with (mask := [[[[0]]]]%Z).
  reflexivity.
Defined.

Lemma run_validation_examples_witness :
  let r := run_validation 5 Examples.model
             [MoreExamples.validation_batch; MoreExamples.validation_batch;
              MoreExamples.validation_batch]
             MoreExamples.tokenizer MoreExamples.tokenizer 5 2 in
  (Z.of_nat (length (encode_calls (events r))) <= 2)%Z /\
  result r <> inr None.
Proof.
  intros r.
  destruct (@run_validation_examples _ _ Examples.torch Examples.model
              MoreExamples.tokenizer MoreExamples.tokenizer 5%Z 2%Z 5%nat
              [MoreExamples.validation_batch; MoreExamples.validation_batch;
               MoreExamples.validation_batch])
    as (_ & _ & Hcount & Hreturns & _).
  split.
  - apply Hcount. lia.
  - apply Hreturns; [lia|reflexivity].
Defined.

Lemma attention_shapes_witness :
  exists out scores,
    MultiHeadAttentionBlock.attention
      [[[[1]; [2]; [3]]]]%R [[[[1]; [0]]]]%R [[[[1; 1]; [2; 2]]]]%R
      (Some [[[[1; 0]; [1; 1]; [1; 1]]]]%Z) None
    = inr (out, scores) /\
    has_shape4 out 1 1 3 2 /\
    has_shape4 scores 1 1 3 2.
Proof.
  assert (Hq : has_shape4 [[[[1]; [2]; [3]]]]%R 1 1 3 1)
    by repeat constructor.
  assert (Hk : has_shape4 [[[[1]; [0]]]]%R 1 1 2 1) by repeat constructor.
  assert (Hv : has_shape4 [[[[1; 1]; [2; 2]]]]%R 1 1 2 2)
    by repeat constructor.
  assert (HLk : (1 <= 2)%nat) by lia.
  assert (Hdk : (1 <= 1)%nat) by lia.
  assert (Hdrop : forall d : list (list (list (list R)))
                             -> list (list (list (list R))),
             None = Some d -> forall t, d t = t).
  { intros d H. discriminate H. }
  do 2 eexists. split; [reflexivity|].
  apply (proj2 (attention_shapes Hq Hk Hv HLk Hdk Hdrop)
               (Some [[[[1; 0]; [1; 1]; [1; 1]]]]%Z)).
  reflexivity.
Defined.

Lemma MultiHead_forward_shapes_witness :
  exists self' out scores,
    MultiHead.forward MoreExamples.two_heads [[[1; 2]; [3; 4]; [5; 6]]]%R
                      [[[1; 2]; [0; 1]]]%R [[[1; 2]; [0; 1]]]%R None
    = inr (self', out) /\
    has_shape3 out 1 3 2 /\
    MultiHead.attention_scores self' = Some scores /\
    has_shape4 scores 1 2 3 2.
Proof.
  assert (Hwf : Linear.wf MoreExamples.identity2).
  { split; [reflexivity|]. split; [repeat constructor|reflexivity]. }
  apply (@MultiHead_forward_shapes MoreExamples.two_heads _ _ _ 1 3 2);
    try exact Hwf; try (simpl; lia); try reflexivity;
    try (split; [reflexivity|]; repeat constructor).
  intros w [<-|[<-|[<-|[<-|[]]]]]; split; reflexivity.
Defined.

Lemma Transformer_encode_attention_calls_witness :
  events (Transformer.encode Examples.model Examples.source
                             Examples.source_mask)
  = [EncodeCall Examples.source Examples.source_mask;
     SelfAttention Examples.source_mask].
Proof.
  apply (proj2 (@Transformer_encode_attention_calls _ _ Examples.torch
                  Examples.model Examples.source Examples.source_mask)
               20%Z).
  reflexivity.
Defined.

Lemma Transformer_decode_attention_calls_witness :
  events (Transformer.decode Examples.model 5%Z Examples.source_mask
                             [[2; 5]]%Z [[[1; 0]; [1; 1]]]%Z)
  = [DecodeCall Examples.source_mask [[2; 5]]%Z [[[1; 0]; [1; 1]]]%Z;
     SelfAttention [[[1; 0]; [1; 1]]]%Z;
     CrossAttention Examples.source_mask].
Proof.
  apply (proj2 (@Transformer_decode_attention_calls _ _ Examples.torch
                  Examples.model 5%Z Examples.source_mask [[2; 5]]%Z
                  [[[1; 0]; [1; 1]]]%Z)
               16%Z).
  reflexivity.
Defined.
